(** * katgrapher lightbox: navigation, overlay lifecycle, input routing

    A shallow embedding of [dist/scripts/lightbox.js], and of the parts of
    [gallery.js], [render.js], [sanity-client.js] and the schema files
    around it.  The browser state the lightbox reads and writes (the three
    lightbox elements, the [window] globals, the document-level listeners,
    pending [setTimeout] callbacks, the preload links in [document.head])
    is one record, [State]; every script function is a state transformer
    over it.

    Modelling conventions:
    - indices and touch coordinates are integers ([Z]);
    - a number read from a run of digits is the nearest double, and a
      number is printed the way [String] prints a double;
    - an item list handed to the script is an array of elements;
    - a DOM lookup that may yield [null] is an [option];
    - [a || b] on strings takes [b] when [a] is missing or empty;
    - [focus()] does nothing on an element that cannot take focus;
    - [console.log] is not part of the state. *)

From Stdlib Require Import ZArith String List Bool Lia.
From Stdlib Require DecimalString DecimalPos QArith Qround.
Import ListNotations.
Local Open Scope string_scope.
Local Open Scope list_scope.
Local Open Scope Z_scope.

(** ** Data model *)

(** The [<img>] inside a gallery item: the two [data-lightbox-*]
    attributes may be absent, [src] and [alt] are always strings. *)
Record Img := mkImg {
  data_lightboxSrc : option string;
  img_src : string;
  data_lightboxCaption : option string;
  img_alt : string
}.

(** A [.photo-item] element; [item_img] is [photoItem.querySelector('img')]. *)
Record PhotoItem := mkPhotoItem {
  item_id : nat;
  item_img : option Img
}.

(** The [#lightbox] element: the three classes the script toggles, the
    [.flex] child (absent, or present with its own [opacity-100] flag), the
    descendants matched by the selector of [trapFocus] in document order
    ([focusable]), the Tab listeners installed by [trapFocus] (each
    remembers its first and last element), and the computed value of
    [--lightbox-animation-duration].  The selector goes by tag and
    attribute, so it also matches controls that cannot take focus;
    [unfocusable] lists the elements of the page on which [focus()] has no
    effect while the overlay is shown (disabled controls, controls hidden
    on their own, elements that are not focusable at all). *)
Record LightboxEl := mkLightboxEl {
  cls_visible : bool;
  cls_hidden : bool;
  cls_opacity100 : bool;
  flex : option bool;
  focusable : list nat;
  trapListeners : list (nat * nat);
  animationDuration : string;
  unfocusable : list nat
}.

(** The [#lightbox-image] element. *)
Record ImageEl := mkImageEl {
  el_src : string;
  el_alt : string;
  el_opacity : string
}.

(** Callbacks handed to [setTimeout]. *)
Inductive Timer :=
| FadeIn
| Hide
| SwapImage (src caption : string)
| RemoveAnnouncement (message : string).

Record State := mkState {
  lightbox : option LightboxEl;
  lightboxImage : option ImageEl;
  lightboxCaption : option string;
  bodyOverflow : string;
  activeElement : option nat;
  headLinks : list string;
  liveRegions : list string;
  escapeListener : bool;
  lightboxPhotos : option (list PhotoItem);
  lightboxCurrentIndex : option Z;
  lastFocusedPhoto : option nat;
  timers : list (Z * Timer)
}.

(** Field updates. *)
Definition with_lightbox (v : option LightboxEl) (s : State) : State :=
  mkState v (lightboxImage s) (lightboxCaption s) (bodyOverflow s)
    (activeElement s) (headLinks s) (liveRegions s) (escapeListener s)
    (lightboxPhotos s) (lightboxCurrentIndex s) (lastFocusedPhoto s) (timers s).

Definition with_lightboxImage (v : option ImageEl) (s : State) : State :=
  mkState (lightbox s) v (lightboxCaption s) (bodyOverflow s)
    (activeElement s) (headLinks s) (liveRegions s) (escapeListener s)
    (lightboxPhotos s) (lightboxCurrentIndex s) (lastFocusedPhoto s) (timers s).

Definition with_lightboxCaption (v : option string) (s : State) : State :=
  mkState (lightbox s) (lightboxImage s) v (bodyOverflow s)
    (activeElement s) (headLinks s) (liveRegions s) (escapeListener s)
    (lightboxPhotos s) (lightboxCurrentIndex s) (lastFocusedPhoto s) (timers s).

Definition with_bodyOverflow (v : string) (s : State) : State :=
  mkState (lightbox s) (lightboxImage s) (lightboxCaption s) v
    (activeElement s) (headLinks s) (liveRegions s) (escapeListener s)
    (lightboxPhotos s) (lightboxCurrentIndex s) (lastFocusedPhoto s) (timers s).

Definition with_activeElement (v : option nat) (s : State) : State :=
  mkState (lightbox s) (lightboxImage s) (lightboxCaption s) (bodyOverflow s)
    v (headLinks s) (liveRegions s) (escapeListener s)
    (lightboxPhotos s) (lightboxCurrentIndex s) (lastFocusedPhoto s) (timers s).

Definition with_headLinks (v : list string) (s : State) : State :=
  mkState (lightbox s) (lightboxImage s) (lightboxCaption s) (bodyOverflow s)
    (activeElement s) v (liveRegions s) (escapeListener s)
    (lightboxPhotos s) (lightboxCurrentIndex s) (lastFocusedPhoto s) (timers s).

Definition with_liveRegions (v : list string) (s : State) : State :=
  mkState (lightbox s) (lightboxImage s) (lightboxCaption s) (bodyOverflow s)
    (activeElement s) (headLinks s) v (escapeListener s)
    (lightboxPhotos s) (lightboxCurrentIndex s) (lastFocusedPhoto s) (timers s).

Definition with_escapeListener (v : bool) (s : State) : State :=
  mkState (lightbox s) (lightboxImage s) (lightboxCaption s) (bodyOverflow s)
    (activeElement s) (headLinks s) (liveRegions s) v
    (lightboxPhotos s) (lightboxCurrentIndex s) (lastFocusedPhoto s) (timers s).

Definition with_lightboxPhotos (v : option (list PhotoItem)) (s : State) : State :=
  mkState (lightbox s) (lightboxImage s) (lightboxCaption s) (bodyOverflow s)
    (activeElement s) (headLinks s) (liveRegions s) (escapeListener s)
    v (lightboxCurrentIndex s) (lastFocusedPhoto s) (timers s).

Definition with_lightboxCurrentIndex (v : option Z) (s : State) : State :=
  mkState (lightbox s) (lightboxImage s) (lightboxCaption s) (bodyOverflow s)
    (activeElement s) (headLinks s) (liveRegions s) (escapeListener s)
    (lightboxPhotos s) v (lastFocusedPhoto s) (timers s).

Definition with_lastFocusedPhoto (v : option nat) (s : State) : State :=
  mkState (lightbox s) (lightboxImage s) (lightboxCaption s) (bodyOverflow s)
    (activeElement s) (headLinks s) (liveRegions s) (escapeListener s)
    (lightboxPhotos s) (lightboxCurrentIndex s) v (timers s).

Definition with_timers (v : list (Z * Timer)) (s : State) : State :=
  mkState (lightbox s) (lightboxImage s) (lightboxCaption s) (bodyOverflow s)
    (activeElement s) (headLinks s) (liveRegions s) (escapeListener s)
    (lightboxPhotos s) (lightboxCurrentIndex s) (lastFocusedPhoto s) v.

(** [setTimeout(callback, delay)]: the callback joins the pending queue. *)
Definition setTimeout (callback : Timer) (delay : Z) (s : State) : State :=
  with_timers (timers s ++ [(delay, callback)]) s.

(** ** JavaScript primitives *)

(** [a || b] where [a] is a [dataset] entry: [undefined] and the empty
    string are both falsy. *)
Definition or_str (a : option string) (b : string) : string :=
  match a with
  | Some x => if String.eqb x "" then b else x
  | None => b
  end.

(** [n || 0] where [n] is a global that may be [undefined]. *)
Definition or_zero (n : option Z) : Z :=
  match n with
  | Some i => if i =? 0 then 0 else i
  | None => 0
  end.

(** Template-literal rendering of a number. *)
Definition showZ (z : Z) : string :=
  DecimalString.NilZero.string_of_int (Z.to_int z).

(** *** Numbers

    The script's numbers are doubles.  Integers below 2^53 are doubles
    themselves; a longer run of digits is read as the nearest double, and
    a number of 21 digits or more is printed with an exponent. *)

(** The double nearest to a non-negative integer, halfway cases going to
    the even significand: the value [parseInt] and [Number] give a run of
    decimal digits that spells [v].  [None] is [Infinity]. *)
Definition nearestDouble (v : Z) : option Z :=
  if v <? 2 ^ 53 then Some v
  else
    let e := Z.log2 v - 52 in
    let q := Z.shiftr v e in
    let r := v - Z.shiftl q e in
    let half := Z.shiftl 1 (e - 1) in
    let q' := if (half <? r) || ((r =? half) && Z.odd q) then q + 1 else q in
    let d := Z.shiftl q' e in
    if d <? 2 ^ 1024 then Some d else None.

(** [parseInt(digits, 10)] for a run of digits that spells [v].  The
    result goes into a [Z]; a run so long that the script reads
    [Infinity] (309 digits or more) is kept as the integer it spells. *)
Definition parseInt (v : Z) : Z :=
  match nearestDouble v with
  | Some d => d
  | None => v
  end.

(** The decimal [c] reads back as the double [x]. *)
Definition roundTrips (x c : Z) : bool :=
  match nearestDouble c with Some d => d =? x | None => false end.

(** Among the decimals of [k] significant digits next to [x], a number
    of [p] digits, one that reads back as [x]: the closest, and the even
    one of two equally close. *)
Definition digitsOfLength (x p k : Z) : option Z :=
  let scale := 10 ^ (p - k) in
  let lo := x / scale in
  let hi := lo + 1 in
  match roundTrips x (lo * scale), roundTrips x (hi * scale) with
  | true, true =>
      let below := x - lo * scale in
      let above := hi * scale - x in
      Some (if below <? above then lo
            else if above <? below then hi
            else if Z.even lo then lo else hi)
  | true, false => Some lo
  | false, true => Some hi
  | false, false => None
  end.

(** The fewest significant digits that identify [x], and how many. *)
Fixpoint shortestDigits (x p : Z) (lengths : list Z) : Z * Z :=
  match lengths with
  | [] => (x, p)
  | k :: rest =>
      match digitsOfLength x p k with
      | Some digits => (digits, k)
      | None => shortestDigits x p rest
      end
  end.

(** [String(x)] for a double [x] of 10^21 or more: [d.ddde+n]. *)
Definition exponential (x : Z) : string :=
  let p := Z.of_nat (String.length (showZ x)) in
  let '(digits, k) :=
    shortestDigits x p [1; 2; 3; 4; 5; 6; 7; 8; 9; 10; 11; 12; 13; 14; 15; 16; 17] in
  let '(digits, n) := if digits =? 10 ^ k then (1, p + 1) else (digits, p) in
  match showZ digits with
  | String d EmptyString => String d ("e+" ++ showZ (n - 1))
  | String d more => String d ("." ++ more ++ "e+" ++ showZ (n - 1))
  | EmptyString => EmptyString
  end.

(** [String(n)] for an integral number, as [URLSearchParams.set] writes
    it: plain digits below 10^21, exponent notation from there on. *)
Definition numberToString (n : Z) : string :=
  match nearestDouble (Z.abs n) with
  | None => if n <? 0 then "-Infinity" else "Infinity"
  | Some x =>
      let text := if x <? 10 ^ 21 then showZ x else exponential x in
      if (n <? 0) && negb (x =? 0) then ("-" ++ text)%string else text
  end.

(** [photos.length] as a number. *)
Definition len (photos : list PhotoItem) : Z := Z.of_nat (length photos).

(** ** Image Preloader *)

(** The filtered index array of [preloadAdjacentImages]. *)
Definition preloadIndices (currentIndex : Z) (photoItems : list PhotoItem) : list Z :=
  filter (fun index =>
            (0 <=? index) && (index <? len photoItems) && negb (index =? currentIndex))
         [currentIndex - 1; currentIndex; currentIndex + 1; currentIndex + 2].

(** The body of the [forEach]: one [<link rel=preload as=image>] appended
    to [document.head], unless the item has no [<img>] or no source. *)
Definition preloadOne (photoItems : list PhotoItem) (s : State) (index : Z) : State :=
  match nth_error photoItems (Z.to_nat index) with
  | None => s
  | Some photoItem =>
      match item_img photoItem with
      | None => s
      | Some img =>
          let src := or_str (data_lightboxSrc img) (img_src img) in
          if String.eqb src "" then s
          else with_headLinks (headLinks s ++ [src]) s
      end
  end.

Definition preloadAdjacentImages (currentIndex : Z) (photoItems : list PhotoItem)
    (s : State) : State :=
  fold_left (preloadOne photoItems) (preloadIndices currentIndex photoItems) s.

(** ** Screen-reader announcements *)

Definition announceToScreenReader (message : string) (s : State) : State :=
  setTimeout (RemoveAnnouncement message) 1000
    (with_liveRegions (liveRegions s ++ [message]) s).

(** ** Navigation State *)

Definition navigateToIndex (index : Z) (s : State) : State :=
  match lightboxPhotos s with
  | None => s
  | Some photos =>
      if (index <? 0) || (len photos <=? index) then s
      else
        match nth_error photos (Z.to_nat index) with
        | None => s
        | Some photoItem =>
            match item_img photoItem with
            | None => s
            | Some img =>
                let src := or_str (data_lightboxSrc img) (img_src img) in
                let caption := or_str (data_lightboxCaption img) (img_alt img) in
                let s1 :=
                  match lightboxImage s with
                  | Some el =>
                      setTimeout (SwapImage src caption) 150
                        (with_lightboxImage
                           (Some (mkImageEl (el_src el) (el_alt el) "0")) s)
                  | None => s
                  end in
                let s2 :=
                  match lightboxCaption s1 with
                  | Some _ => with_lightboxCaption (Some caption) s1
                  | None => s1
                  end in
                let s3 := with_lightboxCurrentIndex (Some index) s2 in
                let s4 := preloadAdjacentImages index photos s3 in
                announceToScreenReader
                  ("Image " ++ showZ (index + 1) ++ " of " ++ showZ (len photos)
                     ++ ": " ++ caption)%string s4
            end
        end
  end.

Definition navigatePrevious (s : State) : State :=
  match lightboxPhotos s with
  | None => s
  | Some photos =>
      if len photos =? 0 then s
      else
        let currentIndex := or_zero (lightboxCurrentIndex s) in
        let prevIndex :=
          if 0 <? currentIndex then currentIndex - 1 else len photos - 1 in
        navigateToIndex prevIndex s
  end.

Definition navigateNext (s : State) : State :=
  match lightboxPhotos s with
  | None => s
  | Some photos =>
      if len photos =? 0 then s
      else
        let currentIndex := or_zero (lightboxCurrentIndex s) in
        let nextIndex :=
          if currentIndex <? len photos - 1 then currentIndex + 1 else 0 in
        navigateToIndex nextIndex s
  end.

(** [lightboxAPI.getCurrentIndex] and [lightboxAPI.getTotalPhotos]. *)
Definition getCurrentIndex (s : State) : Z := or_zero (lightboxCurrentIndex s).

Definition getTotalPhotos (s : State) : Z :=
  match lightboxPhotos s with
  | Some photos => len photos
  | None => 0
  end.

(** [lightboxAPI.isOpen] (its truthiness). *)
Definition isOpen (s : State) : bool :=
  match lightbox s with
  | Some lb => cls_visible lb
  | None => false
  end.

(** ** Overlay Controller *)

(** [duration.match(/(\d+)ms/)]: the integer the matched digits spell. *)
Definition digit_of (c : Ascii.ascii) : option Z :=
  let n := Z.of_nat (Ascii.nat_of_ascii c) in
  if (48 <=? n) && (n <=? 57) then Some (n - 48) else None.

(** A digit run at the head of [s] followed by the letters [ms]; [acc] is
    the value of the digits read so far, [None] before the first one. *)
Fixpoint digitsThenMs (s : string) (acc : option Z) : option Z :=
  match s with
  | EmptyString => None
  | String c rest =>
      match digit_of c with
      | Some d =>
          digitsThenMs rest
            (Some (10 * match acc with Some v => v | None => 0 end + d))
      | None =>
          match acc with
          | Some v => if String.prefix "ms" s then Some v else None
          | None => None
          end
      end
  end.

(** Leftmost match of the pattern anywhere in the string. *)
Fixpoint matchMs (s : string) : option Z :=
  match digitsThenMs s None with
  | Some v => Some v
  | None =>
      match s with
      | EmptyString => None
      | String _ rest => matchMs rest
      end
  end.

Definition getAnimationDuration (s : State) : Z :=
  match lightbox s with
  | None => 300
  | Some lb =>
      let duration :=
        if String.eqb (animationDuration lb) "" then "300ms"
        else animationDuration lb in
      match matchMs duration with
      | Some n => parseInt n
      | None => 300
      end
  end.

(** Whether [focus()] has an effect on the element. *)
Definition takesFocus (element : nat) (s : State) : bool :=
  match lightbox s with
  | Some lb => negb (existsb (Nat.eqb element) (unfocusable lb))
  | None => true
  end.

(** [element.focus()]: the element becomes [document.activeElement],
    unless it cannot take focus, in which case nothing happens. *)
Definition focus (element : nat) (s : State) : State :=
  if takesFocus element s then with_activeElement (Some element) s else s.

(** [trapFocus(lightbox)], called on the [#lightbox] element. *)
Definition trapFocus (s : State) : State :=
  match lightbox s with
  | None => s
  | Some lb =>
      match focusable lb with
      | [] => s
      | firstFocusable :: _ =>
          let lastFocusable := last (focusable lb) firstFocusable in
          with_lightbox
            (Some (mkLightboxEl (cls_visible lb) (cls_hidden lb) (cls_opacity100 lb)
                     (flex lb) (focusable lb)
                     (trapListeners lb ++ [(firstFocusable, lastFocusable)])
                     (animationDuration lb) (unfocusable lb)))
            (focus firstFocusable s)
      end
  end.

Definition openLightbox (src caption : string) (startIndex : Z)
    (photoItems : list PhotoItem) (s : State) : State :=
  match lightbox s, lightboxImage s, lightboxCaption s with
  | Some lb, Some el, Some _ =>
      let s1 := with_lightboxImage (Some (mkImageEl src caption (el_opacity el))) s in
      let s2 := with_lightboxCaption (Some caption) s1 in
      let s3 := with_lightboxPhotos (Some photoItems) s2 in
      let s4 := with_lightboxCurrentIndex (Some startIndex) s3 in
      let s5 :=
        with_lightbox
          (Some (mkLightboxEl true false (cls_opacity100 lb) (flex lb)
                   (focusable lb) (trapListeners lb) (animationDuration lb) (unfocusable lb))) s4 in
      let s6 := setTimeout FadeIn 10 s5 in
      let s7 := trapFocus s6 in
      let s8 := with_bodyOverflow "hidden" s7 in
      let s9 := with_escapeListener true s8 in
      preloadAdjacentImages startIndex photoItems s9
  | _, _, _ => s
  end.

Definition closeLightbox (s : State) : State :=
  match lightbox s with
  | None => s
  | Some lb =>
      if negb (cls_visible lb) then s
      else
        let s1 :=
          with_lightbox
            (Some (mkLightboxEl (cls_visible lb) (cls_hidden lb) false
                     (match flex lb with Some _ => Some false | None => None end)
                     (focusable lb) (trapListeners lb) (animationDuration lb) (unfocusable lb))) s in
        let s2 := setTimeout Hide (getAnimationDuration s1) s1 in
        let s3 := with_bodyOverflow "" s2 in
        let s4 := with_escapeListener false s3 in
        match lastFocusedPhoto s4 with
        | Some photo =>
            with_lastFocusedPhoto None (focus photo s4)
        | None => s4
        end
  end.

(** ** Deferred callbacks *)

(** How a callback or listener ends: normally, or with an uncaught
    [TypeError] after the effects it had already performed. *)
Inductive Completion :=
| Normal (s : State)
| Thrown (s : State).

Definition stateOf (c : Completion) : State :=
  match c with Normal s | Thrown s => s end.

Fixpoint removeFirst (message : string) (l : list string) : list string :=
  match l with
  | [] => []
  | m :: rest => if String.eqb m message then rest else m :: removeFirst message rest
  end.

(** The bodies of the four [setTimeout] callbacks.  The elements they
    captured are the ones of the state; announcements expire in the order
    they were made, so the node to remove is the oldest with that text. *)
Definition runTimer (t : Timer) (s : State) : Completion :=
  match t with
  | FadeIn =>
      match lightbox s with
      | None => Normal s
      | Some lb =>
          match flex lb with
          | Some _ =>
              Normal (with_lightbox
                        (Some (mkLightboxEl (cls_visible lb) (cls_hidden lb) true
                                 (Some true) (focusable lb) (trapListeners lb)
                                 (animationDuration lb) (unfocusable lb))) s)
          | None =>
              Thrown (with_lightbox
                        (Some (mkLightboxEl (cls_visible lb) (cls_hidden lb) true
                                 None (focusable lb) (trapListeners lb)
                                 (animationDuration lb) (unfocusable lb))) s)
          end
      end
  | Hide =>
      match lightbox s with
      | None => Normal s
      | Some lb =>
          Normal (with_lightbox
                    (Some (mkLightboxEl false true (cls_opacity100 lb) (flex lb)
                             (focusable lb) (trapListeners lb)
                             (animationDuration lb) (unfocusable lb))) s)
      end
  | SwapImage src caption =>
      match lightboxImage s with
      | None => Normal s
      | Some _ => Normal (with_lightboxImage (Some (mkImageEl src caption "1")) s)
      end
  | RemoveAnnouncement message =>
      Normal (with_liveRegions (removeFirst message (liveRegions s)) s)
  end.

(** The [n]-th pending callback fires and leaves the queue. *)
Definition fireTimer (n : nat) (s : State) : Completion :=
  match nth_error (timers s) n with
  | None => Normal s
  | Some (_, t) =>
      runTimer t (with_timers (firstn n (timers s) ++ skipn (S n) (timers s)) s)
  end.

(** ** Input Router: keyboard *)

Record KeyboardEvent := mkKeyboardEvent {
  key : string;
  shiftKey : bool
}.

(** What a listener did with an event: whether it called
    [preventDefault], whether it ended in an uncaught exception, and the
    state it left. *)
Record Handled := mkHandled {
  defaultPrevented : bool;
  uncaught : bool;
  after : State
}.

Definition handleEscapeKey (e : KeyboardEvent) (s : State) : State :=
  if String.eqb (key e) "Escape" then closeLightbox s else s.

Definition handleLightboxKeydown (e : KeyboardEvent) (s : State) : Handled :=
  if negb (isOpen s) then mkHandled false false s
  else if String.eqb (key e) "ArrowLeft" then mkHandled true false (navigatePrevious s)
  else if String.eqb (key e) "ArrowRight" then mkHandled true false (navigateNext s)
  else if String.eqb (key e) "Home" then mkHandled true false (navigateToIndex 0 s)
  else if String.eqb (key e) "End" then
    match lightboxPhotos s with
    | Some photos => mkHandled true false (navigateToIndex (len photos - 1) s)
    | None => mkHandled true true s
    end
  else if String.eqb (key e) "Escape" then mkHandled true false (closeLightbox s)
  else mkHandled false false s.

(** One Tab listener installed by [trapFocus]: [preventDefault], then
    [focus()] on the other end. *)
Definition trapKeydown (e : KeyboardEvent) (ends : nat * nat) (h : Handled) : Handled :=
  let '(firstFocusable, lastFocusable) := ends in
  let s := after h in
  if String.eqb (key e) "Tab" then
    if shiftKey e then
      match activeElement s with
      | Some a =>
          if Nat.eqb a firstFocusable then
            mkHandled true (uncaught h) (focus lastFocusable s)
          else h
      | None => h
      end
    else
      match activeElement s with
      | Some a =>
          if Nat.eqb a lastFocusable then
            mkHandled true (uncaught h) (focus firstFocusable s)
          else h
      | None => h
      end
  else h.

(** A [keydown] event bubbling to the document, as the listeners of
    [lightbox.js] see it.  When its target lies inside [#lightbox] the Tab
    listeners run first; then the document's listeners in registration
    order: [handleLightboxKeydown], and [handleEscapeKey] if it is
    registered and was not removed meanwhile.  The shortcut listener of
    [gallery.js] is added in [pageKeydown]. *)
Definition keydown (e : KeyboardEvent) (insideLightbox : bool) (s : State) : Handled :=
  let h0 :=
    match lightbox s with
    | Some lb =>
        if insideLightbox
        then fold_left (fun h ends => trapKeydown e ends h) (trapListeners lb)
                       (mkHandled false false s)
        else mkHandled false false s
    | None => mkHandled false false s
    end in
  let h1 := handleLightboxKeydown e (after h0) in
  let h2 := mkHandled (defaultPrevented h0 || defaultPrevented h1)
                      (uncaught h0 || uncaught h1) (after h1) in
  if escapeListener s && escapeListener (after h2)
  then mkHandled (defaultPrevented h2) (uncaught h2) (handleEscapeKey e (after h2))
  else h2.

(** ** Input Router: touch *)

(** The four variables closed over by the touch listeners. *)
Record Touch := mkTouch {
  startX : Z;
  startY : Z;
  currentX : Z;
  currentY : Z
}.

Definition touchInit : Touch := mkTouch 0 0 0 0.

(** [touches0] is [e.touches[0]], as [(clientX, clientY)]. *)
Definition touchstart (touches0 : option (Z * Z)) (t : Touch) : Touch :=
  match touches0 with
  | None => t
  | Some (clientX, clientY) => mkTouch clientX clientY clientX clientY
  end.

Definition touchmove (touches0 : option (Z * Z)) (t : Touch) : Touch :=
  match touches0 with
  | None => t
  | Some (clientX, clientY) => mkTouch (startX t) (startY t) clientX clientY
  end.

Definition touchend (t : Touch) (s : State) : Touch * State :=
  if (startX t =? 0) || (startY t =? 0) then (t, s)
  else
    let deltaX := currentX t - startX t in
    let deltaY := currentY t - startY t in
    let s' :=
      if (Z.abs deltaY <? Z.abs deltaX) && (50 <? Z.abs deltaX) then
        if 0 <? deltaX then navigatePrevious s else navigateNext s
      else s in
    (mkTouch 0 0 0 0, s').

(** ** Gallery clicks and the public API *)

(** [allPhotoItems.indexOf(photoItem)], elements compared by identity. *)
Fixpoint indexOf (photoItem : PhotoItem) (items : list PhotoItem) (from : Z) : Z :=
  match items with
  | [] => -1
  | item :: rest =>
      if Nat.eqb (item_id item) (item_id photoItem) then from
      else indexOf photoItem rest (from + 1)
  end.

(** The document click listener: [closest] is
    [e.target.closest('.photo-item')], [gallery] is
    [document.querySelectorAll('.photo-item')]. *)
Definition photoClick (closest : option PhotoItem) (gallery : list PhotoItem)
    (s : State) : State :=
  match closest with
  | None => s
  | Some photoItem =>
      match item_img photoItem with
      | None => s
      | Some img =>
          let src := or_str (data_lightboxSrc img) (img_src img) in
          let caption := or_str (data_lightboxCaption img) (img_alt img) in
          let allPhotoItems :=
            filter (fun item =>
                      match item_img item with
                      | Some itemImg =>
                          negb (String.eqb
                                  (or_str (data_lightboxSrc itemImg) (img_src itemImg)) "")
                      | None => false
                      end) gallery in
          let clickedIndex := indexOf photoItem allPhotoItems 0 in
          openLightbox src caption clickedIndex allPhotoItems s
      end
  end.

(** [lightboxAPI.open], with its default parameters. *)
Definition api_open (src caption : string) (index : option Z)
    (photos : option (list PhotoItem)) (s : State) : State :=
  openLightbox src caption
    (match index with Some i => i | None => 0 end)
    (match photos with Some l => l | None => [] end) s.

(** ** The page as an event-driven machine

    [Page], [step] and [gesture] describe the page on which
    [initLightbox] has run once: one copy of each listener.  The page on
    which it has run several times is [Wired], further down. *)

Record Page := mkPage {
  touch : Touch;
  st : State
}.

(** Everything that can happen to the page.  [Close] stands for the three
    callers of [closeLightbox] outside the keyboard (close button, click
    on the backdrop, tab hidden while visible) and for [lightboxAPI.close]. *)
Inductive Event :=
| Click (closest : option PhotoItem) (gallery : list PhotoItem)
| ApiOpen (src caption : string) (index : option Z) (photos : option (list PhotoItem))
| Close
| ApiNext
| ApiPrevious
| ApiGoTo (index : Z)
| KeyDown (e : KeyboardEvent) (insideLightbox : bool)
| TouchStart (touches0 : option (Z * Z))
| TouchMove (touches0 : option (Z * Z))
| TouchEnd
| TimerFires (n : nat).

Definition step (p : Page) (ev : Event) : Page :=
  match ev with
  | Click closest gallery => mkPage (touch p) (photoClick closest gallery (st p))
  | ApiOpen src caption index photos =>
      mkPage (touch p) (api_open src caption index photos (st p))
  | Close => mkPage (touch p) (closeLightbox (st p))
  | ApiNext => mkPage (touch p) (navigateNext (st p))
  | ApiPrevious => mkPage (touch p) (navigatePrevious (st p))
  | ApiGoTo index => mkPage (touch p) (navigateToIndex index (st p))
  | KeyDown e inside => mkPage (touch p) (after (keydown e inside (st p)))
  | TouchStart touches0 => mkPage (touchstart touches0 (touch p)) (st p)
  | TouchMove touches0 => mkPage (touchmove touches0 (touch p)) (st p)
  | TouchEnd => let '(t, s) := touchend (touch p) (st p) in mkPage t s
  | TimerFires n => mkPage (touch p) (stateOf (fireTimer n (st p)))
  end.

Definition run (p : Page) (evs : list Event) : Page := fold_left step evs p.

(** The page right after [initLightbox]: the three elements exist, the
    overlay is not shown, nothing is stored on [window], nothing is pending. *)
Definition initialPage (lb : LightboxEl) (el : ImageEl) (caption : string) : Page :=
  mkPage touchInit
    (mkState
       (Some (mkLightboxEl false (cls_hidden lb) (cls_opacity100 lb) (flex lb)
                (focusable lb) [] (animationDuration lb) (unfocusable lb)))
       (Some el) (Some caption) "" None [] [] false None None None []).

(** A complete single-finger gesture on the image: touch down at [start],
    any number of moves, release. *)
Definition gesture (start : Z * Z) (moves : list (Z * Z)) (p : Page) : Page :=
  run p (TouchStart (Some start) :: map (fun m => TouchMove (Some m)) moves ++ [TouchEnd]).

(** ** Derived notions used in the statements *)

(** The Navigation Cursor lies inside the stored item list. *)
Definition cursorInBounds (s : State) : Prop :=
  match lightboxPhotos s with
  | Some photos => 0 <= getCurrentIndex s < len photos
  | None => False
  end.

(** The item at [index] exists and contains an [<img>]. *)
Definition hasImage (photos : list PhotoItem) (index : Z) : bool :=
  match nth_error photos (Z.to_nat index) with
  | Some photoItem =>
      match item_img photoItem with Some _ => true | None => false end
  | None => false
  end.

(** The [href] of the preload link the [forEach] body creates for
    [index], if it creates one. *)
Definition hintFor (photoItems : list PhotoItem) (index : Z) : option string :=
  match nth_error photoItems (Z.to_nat index) with
  | Some photoItem =>
      match item_img photoItem with
      | Some img =>
          let src := or_str (data_lightboxSrc img) (img_src img) in
          if String.eqb src "" then None else Some src
      | None => None
      end
  | None => None
  end.

(** The indices for which [preloadAdjacentImages] appends a link. *)
Definition hintedIndices (currentIndex : Z) (photoItems : list PhotoItem) : list Z :=
  filter (fun index => match hintFor photoItems index with Some _ => true | None => false end)
         (preloadIndices currentIndex photoItems).

(** The [href]s of the links appended for a list of indices, in order. *)
Definition hrefsOf (photoItems : list PhotoItem) (indices : list Z) : list string :=
  flat_map (fun index =>
              match hintFor photoItems index with Some src => [src] | None => [] end)
           indices.

(** Events that store a new item list and start index. *)
Definition isOpening (ev : Event) : bool :=
  match ev with
  | Click _ _ | ApiOpen _ _ _ _ => true
  | _ => false
  end.

(** The keys the Input Router reacts to. *)
Definition navigationKeys : list string :=
  ["ArrowLeft"; "ArrowRight"; "Home"; "End"; "Escape"].

(** An open overlay has an item list stored. *)
Definition storedWhenOpen (s : State) : Prop :=
  isOpen s = true -> lightboxPhotos s <> None.

(** A key press leaves state [s'], both through [handleLightboxKeydown]
    alone and through the whole dispatch. *)
Definition routes (e : KeyboardEvent) (inside : bool) (s s' : State) : Prop :=
  after (handleLightboxKeydown e s) = s' /\ after (keydown e inside s) = s'.


(** ** Sample data *)

Definition pic (n : nat) (url : string) : PhotoItem :=
  mkPhotoItem n (Some (mkImg None url None "photo")).

Definition imageless (n : nat) : PhotoItem := mkPhotoItem n None.

Definition demoLightbox : LightboxEl :=
  mkLightboxEl false true false (Some false) [7%nat] [] "" [].

Definition demoPage : Page :=
  initialPage demoLightbox (mkImageEl "" "" "") "".

Definition fourPics : list PhotoItem :=
  [pic 0 "a.jpg"; pic 1 "b.jpg"; pic 2 "c.jpg"; pic 3 "d.jpg"].

(** Four items, opened on the second. *)
Definition openedState : State :=
  openLightbox "b.jpg" "photo" 1 fourPics (st demoPage).

Definition openedPage : Page := mkPage touchInit openedState.

(** The same, moved to the last item. *)
Definition lastState : State := navigateToIndex 3 openedState.

(** Opened, closed, and hidden by the timer [closeLightbox] scheduled. *)
Definition closedAgain : State := stateOf (fireTimer 1 (closeLightbox openedState)).

(** Opened on the first of two items, the second of which has lost its
    [<img>]. *)
Definition gappedState : State :=
  openLightbox "a.jpg" "photo" 0 [pic 0 "a.jpg"; imageless 1] (st demoPage).

(** ** Notions for the properties beyond the claims *)

(** The item contains an [<img>]. *)
Definition imaged (item : PhotoItem) : bool :=
  match item_img item with Some _ => true | None => false end.

(** The item passes the filter of the click handler: it contains an
    [<img>] whose lightbox source or [src] is non-empty. *)
Definition sourced (item : PhotoItem) : bool :=
  match item_img item with
  | Some itemImg =>
      negb (String.eqb (or_str (data_lightboxSrc itemImg) (img_src itemImg)) "")
  | None => false
  end.

(** [allPhotoItems] of the click handler. *)
Definition viewableItems (gallery : list PhotoItem) : list PhotoItem :=
  filter sourced gallery.

(** The source and the caption the script reads off an image. *)
Definition sourceOf (img : Img) : string :=
  or_str (data_lightboxSrc img) (img_src img).

Definition captionOf (img : Img) : string :=
  or_str (data_lightboxCaption img) (img_alt img).

(** The text announced for item [index] of [photos]. *)
Definition announcement (index : Z) (photos : list PhotoItem) (caption : string) : string :=
  ("Image " ++ showZ (index + 1) ++ " of " ++ showZ (len photos) ++ ": " ++ caption)%string.

(** An event that opens the lightbox opens it on an item of the list it
    stores: a click lands on a gallery item that has a source, an API call
    gives a start index inside the list it passes. *)
Definition aimed (ev : Event) : Prop :=
  match ev with
  | Click (Some photoItem) gallery =>
      item_img photoItem <> None -> In photoItem gallery /\ sourced photoItem = true
  | ApiOpen _ _ index photos =>
      0 <= match index with Some i => i | None => 0 end
        < len (match photos with Some l => l | None => [] end)
  | _ => True
  end.

(** An event produced through the page (pointer, keyboard, timers, the
    navigation and close entries of the API), as opposed to
    [lightboxAPI.open] with an item list of the caller's own. *)
Definition fromPage (ev : Event) : Prop :=
  match ev with
  | ApiOpen _ _ _ _ => False
  | _ => True
  end.

(** A gallery item whose image has neither a lightbox source nor a [src]. *)
Definition unsourced (n : nat) : PhotoItem :=
  mkPhotoItem n (Some (mkImg None "" (Some "no file") "")).

(** A rendered gallery: two usable photos around an item without an
    image and one without a source. *)
Definition mixedGallery : list PhotoItem :=
  [pic 0 "a.jpg"; imageless 1; unsourced 2; pic 3 "d.jpg"].

(** The cursor is inside the stored list, if a list is stored. *)
Definition cursorOk (s : State) : Prop :=
  match lightboxPhotos s with
  | Some photos => 0 <= getCurrentIndex s < len photos
  | None => True
  end.

(** The stored list, if any, holds only items with an image and a source. *)
Definition storedSourced (s : State) : Prop :=
  match lightboxPhotos s with
  | Some photos => forallb sourced photos = true
  | None => True
  end.

(** The Tab listeners installed on [#lightbox]. *)
Definition tabListeners (s : State) : list (nat * nat) :=
  match lightbox s with
  | Some lb => trapListeners lb
  | None => []
  end.

(** [k] is one of the five keys of [handleLightboxKeydown]. *)
Definition isNavigationKey (k : string) : bool :=
  existsb (String.eqb k) navigationKeys.

(** ** Wiring done by [initLightbox] *)

(** The part of [initLightboxEvents] that touches the state: under
    [prefers-reduced-motion] the animation duration of [#lightbox] is set
    to ["0ms"].  The listeners it registers are the events of the page. *)
Definition initLightboxEvents (reducedMotion : bool) (s : State) : State :=
  match lightbox s with
  | Some lb =>
      if reducedMotion
      then with_lightbox
             (Some (mkLightboxEl (cls_visible lb) (cls_hidden lb) (cls_opacity100 lb)
                      (flex lb) (focusable lb) (trapListeners lb) "0ms" (unfocusable lb))) s
      else s
  | None => s
  end.

(** [initLightbox]: with any of the four elements missing (the close
    button is the one the state does not record) it warns and returns;
    the boolean tells whether the listeners were installed. *)
Definition initLightbox (closeButton reducedMotion : bool) (s : State) : bool * State :=
  match lightbox s, lightboxImage s, lightboxCaption s with
  | Some _, Some _, Some _ =>
      if closeButton then (true, initLightboxEvents reducedMotion s) else (false, s)
  | _, _, _ => (false, s)
  end.

(** One run of the click listener on [#lightbox]: only a click on the
    backdrop itself closes. *)
Definition backdropClick (targetIsLightbox : bool) (s : State) : State :=
  if targetIsLightbox then closeLightbox s else s.

(** One run of the [visibilitychange] listener. *)
Definition visibilitychange (documentHidden : bool) (s : State) : State :=
  if documentHidden && isOpen s then closeLightbox s else s.

(** The computed animation duration of [#lightbox], if the element exists. *)
Definition durationCss (s : State) : option string :=
  match lightbox s with
  | Some lb => Some (animationDuration lb)
  | None => None
  end.

(** No character of the string is a decimal digit. *)
Fixpoint noDigits (s : string) : bool :=
  match s with
  | EmptyString => true
  | String c rest =>
      match digit_of c with Some _ => false | None => noDigits rest end
  end.

(** ** The gallery page around the lightbox ([gallery.js]) *)

(** [sanityConfig] of [scripts/config.js]; a field that is not set is
    [None]. *)
Record SanityConfig := mkSanityConfig {
  projectId : option string;
  dataset : option string;
  apiVersion : option string;
  cdnUrl : option string;
  token : option string
}.

Definition sanityConfig : SanityConfig :=
  mkSanityConfig (Some "ncpsxckb") (Some "production") (Some "v2024-01-01")
                 (Some "https://cdn.sanity.io") None.

(** Truthiness of a configuration field: unset and empty are falsy. *)
Definition truthy (v : option string) : bool :=
  match v with
  | Some x => negb (String.eqb x "")
  | None => false
  end.

(** [validateConfiguration]: [Some message] is the error it throws,
    [None] a normal return. *)
Definition validateConfiguration (cfg : SanityConfig) : option string :=
  let missing (field : string) :=
    Some ("Missing required Sanity configuration: " ++ field
          ++ ". Please update scripts/config.js")%string in
  if negb (truthy (projectId cfg)) then missing "projectId"
  else if negb (truthy (dataset cfg)) then missing "dataset"
  else if negb (truthy (apiVersion cfg)) then missing "apiVersion"
  else None.

(** The configuration guard at the head of [fetchSanity]: [true] when it
    throws. *)
Definition fetchSanityRefuses (cfg : SanityConfig) : bool :=
  negb (truthy (projectId cfg)) || negb (truthy (dataset cfg))
  || negb (truthy (apiVersion cfg)).

(** The page with its listeners.  [initLightboxEvents] and
    [initPhotoClickHandlers] register arrow functions, so every run of
    [initLightbox] that gets that far adds one more copy of the touch
    listeners (each with touch variables of its own), of the photo click
    listener, of the backdrop listener and of the [visibilitychange]
    listener; [copies] holds the touch variables, one entry per
    installation.  [closeLightbox] on the close button and
    [handleLightboxKeydown] on the document are registered by name, and
    [addEventListener] ignores a function that is already registered, so
    of these there is one however many times [initLightbox] ran.  [Page]
    and [step] above are the page after a single run. *)
Record Wired := mkWired {
  copies : list Touch;
  wst : State
}.

(** [init] of [gallery.js], as far as the lightbox goes: a configuration
    error is caught before [initLightbox] is reached. *)
Definition galleryInit (cfg : SanityConfig) (closeButton reducedMotion : bool)
    (w : Wired) : Wired :=
  match validateConfiguration cfg with
  | Some _ => w
  | None =>
      match initLightbox closeButton reducedMotion (wst w) with
      | (true, s) => mkWired (copies w ++ [touchInit]) s
      | (false, s) => mkWired (copies w) s
      end
  end.

(** A touch event reaches every installed copy of its listener, in
    registration order. *)
Definition wiredTouchstart (touches0 : option (Z * Z)) (w : Wired) : Wired :=
  mkWired (map (touchstart touches0) (copies w)) (wst w).

Definition wiredTouchmove (touches0 : option (Z * Z)) (w : Wired) : Wired :=
  mkWired (map (touchmove touches0) (copies w)) (wst w).

Definition wiredTouchend (w : Wired) : Wired :=
  fold_left (fun acc t =>
               let '(t', s') := touchend t (wst acc) in
               mkWired (copies acc ++ [t']) s')
            (copies w) (mkWired [] (wst w)).

Definition wiredGesture (start : Z * Z) (moves : list (Z * Z)) (w : Wired) : Wired :=
  wiredTouchend
    (fold_left (fun acc m => wiredTouchmove (Some m) acc) moves
               (wiredTouchstart (Some start) w)).

(** A click on the document runs every installed copy of the photo click
    listener. *)
Definition wiredClick (closest : option PhotoItem) (gallery : list PhotoItem)
    (w : Wired) : Wired :=
  mkWired (copies w)
          (fold_left (fun s _ => photoClick closest gallery s) (copies w) (wst w)).

(** A click inside the overlay runs every installed copy of the click
    listener on [#lightbox]; each copy sees the state the one before it
    left. *)
Definition wiredBackdropClick (targetIsLightbox : bool) (w : Wired) : Wired :=
  mkWired (copies w)
          (fold_left (fun s _ => backdropClick targetIsLightbox s) (copies w) (wst w)).

(** So does a change of visibility with the [visibilitychange] listener. *)
Definition wiredVisibilitychange (documentHidden : bool) (w : Wired) : Wired :=
  mkWired (copies w)
          (fold_left (fun s _ => visibilitychange documentHidden s) (copies w) (wst w)).

(** A click on the close button: one call of [closeLightbox], if
    [initLightbox] ran at all. *)
Definition wiredCloseClick (w : Wired) : Wired :=
  match copies w with
  | [] => w
  | _ :: _ => mkWired (copies w) (closeLightbox (wst w))
  end.

(** ** Keyboard shortcuts of the gallery page ([gallery.js]) *)

(** What the shortcut listener reads of a [keydown] event besides its
    key: the two modifiers and [e.target.tagName]. *)
Record KeyContext := mkKeyContext {
  ctrlKey : bool;
  metaKey : bool;
  targetTagName : string
}.

(** What a shortcut starts: [retryInitialization], which waits two
    seconds and runs [init] again, or [initRendering]. *)
Inductive Shortcut :=
| RetryInitialization
| InitRendering.

(** The document [keydown] listener of [gallery.js]: whether it called
    [preventDefault], and what it started. *)
Definition galleryKeydown (e : KeyboardEvent) (c : KeyContext) : bool * option Shortcut :=
  if String.eqb (targetTagName c) "INPUT" || String.eqb (targetTagName c) "TEXTAREA"
  then (false, None)
  else if String.eqb (key e) "r" then
    if ctrlKey c || metaKey c then (true, Some RetryInitialization) else (false, None)
  else if String.eqb (key e) "l" then
    if ctrlKey c || metaKey c then (true, Some InitRendering) else (false, None)
  else (false, None).

(** A [keydown] on the gallery page.  The shortcut listener is registered
    when the module loads, the listeners of the lightbox when [init] runs;
    the shortcut listener changes nothing the lightbox reads, so the state
    is the one the lightbox listeners leave, and the default action is
    prevented if either side prevented it. *)
Definition pageKeydown (e : KeyboardEvent) (c : KeyContext) (insideLightbox : bool)
    (s : State) : Handled * option Shortcut :=
  let h := keydown e insideLightbox s in
  (mkHandled (fst (galleryKeydown e c) || defaultPrevented h) (uncaught h) (after h),
   snd (galleryKeydown e c)).

(** The key is one of the two shortcuts, pressed with Ctrl or Cmd outside
    a text field. *)
Definition isShortcut (e : KeyboardEvent) (c : KeyContext) : bool :=
  negb (String.eqb (targetTagName c) "INPUT" || String.eqb (targetTagName c) "TEXTAREA")
  && (String.eqb (key e) "r" || String.eqb (key e) "l")
  && (ctrlKey c || metaKey c).

(** ** The category filter in the URL ([render.js]) *)

(** The query of [window.location] as [URLSearchParams] sees it: an
    ordered list of name-value pairs, duplicates allowed.  Writing the
    URL with [pushState] and reading [location.search] back is taken to
    return the same pairs. *)
Definition SearchParams : Type := list (string * string).

(** [URLSearchParams.get]: the first value under the name, or [null]. *)
Fixpoint searchGet (name : string) (q : SearchParams) : option string :=
  match q with
  | [] => None
  | (k, v) :: rest => if String.eqb k name then Some v else searchGet name rest
  end.

(** [URLSearchParams.delete]: every pair under the name goes. *)
Definition searchDelete (name : string) (q : SearchParams) : SearchParams :=
  filter (fun kv => negb (String.eqb (fst kv) name)) q.

(** [URLSearchParams.set]: the first pair under the name takes the value
    and the others go; without one the pair is appended. *)
Fixpoint searchSet (name value : string) (q : SearchParams) : SearchParams :=
  match q with
  | [] => [(name, value)]
  | (k, v) :: rest =>
      if String.eqb k name then (name, value) :: searchDelete name rest
      else (k, v) :: searchSet name value rest
  end.

Definition getUrlParam (param : string) (search : SearchParams) : option string :=
  searchGet param search.

(** [value] is [None] when the button has no [data-category]. *)
Definition updateUrlParam (param : string) (value : option string)
    (search : SearchParams) : SearchParams :=
  match value with
  | Some v =>
      if negb (String.eqb v "") && negb (String.eqb v "all")
      then searchSet param v search
      else searchDelete param search
  | None => searchDelete param search
  end.

(** [currentCategory] of [renderGallery]: [getUrlParam('category') || 'all']. *)
Definition currentCategory (search : SearchParams) : string :=
  match getUrlParam "category" search with
  | Some v => if String.eqb v "" then "all" else v
  | None => "all"
  end.

(** ** Slugs ([sanity-schemas/category.js], [sanity-schemas/project.js]) *)

(** Characters are bytes; on ASCII text the classes below are those of
    JavaScript's [toLowerCase], [\s] and [\w]. *)
Definition code (c : Ascii.ascii) : nat := Ascii.nat_of_ascii c.

Definition between (lo hi : nat) (c : Ascii.ascii) : bool :=
  Nat.leb lo (code c) && Nat.leb (code c) hi.

Definition isAsciiChar (c : Ascii.ascii) : bool := Nat.leb (code c) 127.

Definition isUpper (c : Ascii.ascii) : bool := between 65 90 c.

Definition toLower (c : Ascii.ascii) : Ascii.ascii :=
  if isUpper c then Ascii.ascii_of_nat (code c + 32) else c.

(** [\s]: tab, line feed, vertical tab, form feed, carriage return, space. *)
Definition isSpaceChar (c : Ascii.ascii) : bool :=
  between 9 13 c || Nat.eqb (code c) 32.

(** [\w]: letters, digits and the underscore. *)
Definition isWordChar (c : Ascii.ascii) : bool :=
  between 97 122 c || between 65 90 c || between 48 57 c || Nat.eqb (code c) 95.

Definition isHyphen (c : Ascii.ascii) : bool := Nat.eqb (code c) 45.

(** The character [-]. *)
Definition hyphen : Ascii.ascii := Ascii.ascii_of_nat 45.

(** What a slug is made of: lower-case letters, digits, [_] and [-]. *)
Definition isSlugChar (c : Ascii.ascii) : bool :=
  between 97 122 c || between 48 57 c || Nat.eqb (code c) 95 || isHyphen c.

Fixpoint allChars (p : Ascii.ascii -> bool) (s : string) : bool :=
  match s with
  | EmptyString => true
  | String c rest => p c && allChars p rest
  end.

(** [input.toLowerCase()] *)
Fixpoint toLowerCase (s : string) : string :=
  match s with
  | EmptyString => EmptyString
  | String c rest => String (toLower c) (toLowerCase rest)
  end.

(** [.replace(/\s+/g, '-')]: every maximal run of whitespace becomes one
    hyphen; [inRun] tells that the previous character was whitespace. *)
Fixpoint collapseSpaces (inRun : bool) (s : string) : string :=
  match s with
  | EmptyString => EmptyString
  | String c rest =>
      if isSpaceChar c then
        if inRun then collapseSpaces true rest
        else String hyphen (collapseSpaces true rest)
      else String c (collapseSpaces false rest)
  end.

(** [.replace(/[^\w-]+/g, '')]: everything but word characters and
    hyphens is dropped. *)
Fixpoint dropNonWord (s : string) : string :=
  match s with
  | EmptyString => EmptyString
  | String c rest =>
      if isWordChar c || isHyphen c then String c (dropNonWord rest)
      else dropNonWord rest
  end.

Definition slugify (input : string) : string :=
  dropNonWord (collapseSpaces false (toLowerCase input)).

(** ** Image references and image URLs ([sanity-client.js]) *)

Definition isHexChar (c : Ascii.ascii) : bool :=
  between 48 57 c || between 97 102 c || between 65 70 c.

Definition isDigitChar (c : Ascii.ascii) : bool := between 48 57 c.

Definition isLetterChar (c : Ascii.ascii) : bool := between 97 122 c || between 65 90 c.

(** The longest prefix whose characters all satisfy [p], and the rest. *)
Fixpoint takeWhile (p : Ascii.ascii -> bool) (s : string) : string * string :=
  match s with
  | EmptyString => (EmptyString, EmptyString)
  | String c rest =>
      if p c then let '(run, after) := takeWhile p rest in (String c run, after)
      else (EmptyString, s)
  end.

(** The first [n] characters, and the rest. *)
Fixpoint splitAt (n : nat) (s : string) : string * string :=
  match n, s with
  | O, _ => (EmptyString, s)
  | S k, EmptyString => (EmptyString, EmptyString)
  | S k, String c rest => let '(a, b) := splitAt k rest in (String c a, b)
  end.

(** The value of a run of decimal digits, read left to right. *)
Fixpoint digitsValue (acc : Z) (s : string) : Z :=
  match s with
  | EmptyString => acc
  | String c rest => digitsValue (10 * acc + (Z.of_nat (code c) - 48)) rest
  end.

(** A number that [Number] made of a string. *)
Inductive JsNumber :=
| Finite (v : Z)
| Infinity
| NaN.

(** [Number(digits)] for a non-empty run of decimal digits: the nearest
    double, [Infinity] from 309 digits or so. *)
Definition toNumber (digits : string) : JsNumber :=
  match nearestDouble (digitsValue 0 digits) with
  | Some d => Finite d
  | None => Infinity
  end.

(** What [parseImageRef] returns; a [height] of [None] is [undefined]. *)
Record ImageData := mkImageData {
  assetId : string;
  dimensions : string;
  width : JsNumber;
  height : option JsNumber;
  format : string;
  imageDataset : string
}.

(** [imageRef.match(/^image-([a-f0-9]+)-(\d+x\d+)-([a-z]+)$/i)], read
    left to right: each group is a maximal run of its class, which is what
    the pattern matches because the character after each group is outside
    the group's class.  The flag [i] lets every letter of the pattern, the
    [x] included, match in either case; [dimensions.split('x')] then only
    splits at a lower-case [x], so around an upper-case one the whole
    string goes to [Number], which gives [NaN], and there is no second
    element. *)
Definition parseImageRef (cfg : SanityConfig) (imageRef : string) : option ImageData :=
  let '(head, s1) := splitAt 6 imageRef in
  if negb (String.eqb (toLowerCase head) "image-") then None
  else
    let '(asset, s2) := takeWhile isHexChar s1 in
    match asset, s2 with
    | String _ _, String dash1 s3 =>
        if negb (isHyphen dash1) then None
        else
          let '(w, s4) := takeWhile isDigitChar s3 in
          match w, s4 with
          | String _ _, String x s5 =>
              if negb (Nat.eqb (code x) 120 || Nat.eqb (code x) 88) then None
              else
                let '(h, s6) := takeWhile isDigitChar s5 in
                match h, s6 with
                | String _ _, String dash2 s7 =>
                    if negb (isHyphen dash2) then None
                    else
                      let '(fmt, s8) := takeWhile isLetterChar s7 in
                      match fmt, s8 with
                      | String _ _, EmptyString =>
                          let lower := Nat.eqb (code x) 120 in
                          Some (mkImageData asset (w ++ String x h)
                                  (if lower then toNumber w else NaN)
                                  (if lower then Some (toNumber h) else None)
                                  fmt
                                  (match dataset cfg with
                                   | Some d => if String.eqb d "" then "production" else d
                                   | None => "production"
                                   end))
                      | _, _ => None
                      end
                | _, _ => None
                end
          | _, _ => None
          end
    | _, _ => None
    end.

(** [isValidImageRef] for a string argument. *)
Definition isValidImageRef (cfg : SanityConfig) (imageRef : string) : bool :=
  match parseImageRef cfg imageRef with Some _ => true | None => false end.

(** The options of [buildImageUrl]: a field that is not given is [None];
    numbers are rationals. *)
Record ImageOptions := mkImageOptions {
  opt_width : option QArith_base.Q;
  opt_height : option QArith_base.Q;
  opt_fit : option string;
  opt_crop : option string;
  opt_quality : option QArith_base.Q;
  opt_format : option string;
  opt_autoFormat : option string;
  opt_blur : option QArith_base.Q;
  opt_saturation : option QArith_base.Q;
  opt_flip : option string;
  opt_rotate : option QArith_base.Q
}.

(** [Math.round]: the nearest integer, halves going up.  The numbers of
    the options are rationals (every double is one); what is written on
    the URL is the double nearest to the result. *)
Definition mathRound (x : QArith_base.Q) : Z :=
  Qround.Qfloor (QArith_base.Qplus x (QArith_base.Qmake 1 2)).

(** [if (n) ... Math.round(n)]: nothing for a missing or zero number. *)
Definition roundedIfSet (n : option QArith_base.Q) : option string :=
  match n with
  | Some x => if QArith_base.Qeq_bool x (QArith_base.Qmake 0 1) then None
              else Some (numberToString (mathRound x))
  | None => None
  end.

(** [if (s) ... s]: nothing for a missing or empty string. *)
Definition ifSet (s : option string) : option string :=
  if truthy s then s else None.

(** [imageDefaults] of [scripts/config.js]. *)
Definition defaultQuality : Z := 85.
Definition defaultFormat : string := "webp".

(** The number sent as [q]. *)
Definition qualityParam (options : ImageOptions) : Z :=
  match opt_quality options with
  | Some q => Z.max 1 (Z.min 100 (mathRound q))
  | None => defaultQuality
  end.

(** A sequence of conditional [url.searchParams.set(name, value)]. *)
Definition setAll (entries : list (string * option string)) : SearchParams :=
  fold_left (fun q entry =>
               match snd entry with
               | Some value => searchSet (fst entry) value q
               | None => q
               end) entries [].

(** The transformations [buildImageUrl] writes on the URL, in its order. *)
Definition imageEntries (options : ImageOptions) : list (string * option string) :=
  [("w", roundedIfSet (opt_width options));
   ("h", roundedIfSet (opt_height options));
   ("fit", ifSet (opt_fit options));
   ("crop", ifSet (opt_crop options));
   ("q", Some (numberToString (qualityParam options)));
   ("fm", Some (match ifSet (opt_format options) with
                | Some f => f
                | None => defaultFormat
                end));
   ("auto", ifSet (opt_autoFormat options));
   ("blur", roundedIfSet (opt_blur options));
   ("sat", roundedIfSet (opt_saturation options));
   ("flip", ifSet (opt_flip options));
   ("ori", roundedIfSet (opt_rotate options))].

(** A field of the configuration inside a template literal. *)
Definition shown (v : option string) : string :=
  match v with Some x => x | None => "undefined" end.

(** [buildImageUrl]: [None] is [null]; otherwise the URL before
    [toString], as its base and its search parameters.  The base is taken
    to parse as a URL without a query, as it does for the configuration of
    the repository. *)
Definition buildImageUrl (cfg : SanityConfig) (imageRef : option string)
    (options : ImageOptions) : option (string * SearchParams) :=
  match imageRef with
  | None => None
  | Some ref =>
      if String.eqb ref "" then None
      else if negb (truthy (projectId cfg)) then None
      else
        match parseImageRef cfg ref with
        | None => None
        | Some imageData =>
            Some ((shown (cdnUrl cfg) ++ "/images/" ++ shown (projectId cfg) ++ "/"
                   ++ imageDataset imageData ++ "/" ++ assetId imageData ++ "-"
                   ++ dimensions imageData)%string,
                  setAll (imageEntries options))
        end
  end.




(** [getSanityImageCdnUrl] for a string argument. *)
Definition getSanityImageCdnUrl (cfg : SanityConfig) (imageRef : string) : option string :=
  if negb (isValidImageRef cfg imageRef) then None
  else
    match parseImageRef cfg imageRef with
    | None => None
    | Some imageData =>
        Some (shown (cdnUrl cfg) ++ "/images/" ++ shown (projectId cfg) ++ "/"
              ++ imageDataset imageData ++ "/" ++ imageRef)%string
    end.

(** The first character of a string fails [p], or there is none. *)
Definition stopsAt (p : Ascii.ascii -> bool) (s : string) : Prop :=
  match s with
  | EmptyString => True
  | String c _ => p c = false
  end.

(** The value the last [set] under [name] wrote, among a sequence of
    conditional sets. *)
Definition lastSet (name : string) (entries : list (string * option string))
    : option string :=
  fold_left (fun acc entry =>
               if String.eqb (fst entry) name
               then match snd entry with Some value => Some value | None => acc end
               else acc) entries None.


(** * Properties *)

(** ** Field updates and the frame of each operation *)

Lemma with_headLinks_same (s : State) : with_headLinks (headLinks s) s = s.
Proof. destruct s; reflexivity. Qed.

Lemma with_activeElement_same (s : State) : with_activeElement (activeElement s) s = s.
Proof. destruct s; reflexivity. Qed.

(** [focus()] takes effect or does nothing. *)
Lemma focus_cases (element : nat) (s : State) :
  focus element s = s \/ focus element s = with_activeElement (Some element) s.
Proof.
  unfold focus. destruct (takesFocus element s); [now right | now left].
Qed.

Lemma focus_only (element : nat) (s : State) :
  exists a, focus element s = with_activeElement a s.
Proof.
  destruct (focus_cases element s) as [E | E]; rewrite E.
  - exists (activeElement s). symmetry. apply with_activeElement_same.
  - eexists. reflexivity.
Qed.

Section Preloader.

Variable photoItems : list PhotoItem.

Lemma preloadOne_hintFor (s : State) (index : Z) :
  preloadOne photoItems s index =
    match hintFor photoItems index with
    | Some src => with_headLinks (headLinks s ++ [src]) s
    | None => s
    end.
Proof.
  unfold preloadOne, hintFor.
  destruct (nth_error photoItems (Z.to_nat index)) as [photoItem|]; [|reflexivity].
  destruct (item_img photoItem) as [img|]; [|reflexivity].
  destruct (String.eqb _ ""); reflexivity.
Qed.

Lemma preload_fold (indices : list Z) :
  forall s : State,
    fold_left (preloadOne photoItems) indices s =
      with_headLinks (headLinks s ++ hrefsOf photoItems indices) s.
Proof.
  induction indices as [|index rest IH]; intro s; simpl.
  - rewrite app_nil_r. symmetry. apply with_headLinks_same.
  - rewrite IH, preloadOne_hintFor.
    destruct (hintFor photoItems index) as [src|]; simpl.
    + rewrite <- app_assoc. reflexivity.
    + reflexivity.
Qed.

Lemma hrefsOf_filter (indices : list Z) :
  hrefsOf photoItems
    (filter (fun index =>
               match hintFor photoItems index with Some _ => true | None => false end)
            indices)
  = hrefsOf photoItems indices.
Proof.
  induction indices as [|index rest IH]; simpl; [reflexivity|].
  destruct (hintFor photoItems index) as [src|] eqn:E; simpl.
  - rewrite E, IH. reflexivity.
  - exact IH.
Qed.

Lemma hrefsOf_length_hinted (indices : list Z) :
  (forall index, In index indices -> hintFor photoItems index <> None) ->
  length (hrefsOf photoItems indices) = length indices.
Proof.
  induction indices as [|index rest IH]; simpl; intro H; [reflexivity|].
  destruct (hintFor photoItems index) as [src|] eqn:E.
  - simpl. f_equal. apply IH. intros j Hj. apply H. right; exact Hj.
  - exfalso. apply (H index); [left; reflexivity | exact E].
Qed.

Lemma preloadAdjacentImages_links (currentIndex : Z) (s : State) :
  preloadAdjacentImages currentIndex photoItems s =
    with_headLinks
      (headLinks s ++ hrefsOf photoItems (hintedIndices currentIndex photoItems)) s.
Proof.
  unfold preloadAdjacentImages, hintedIndices.
  rewrite preload_fold, hrefsOf_filter. reflexivity.
Qed.

End Preloader.

(** What [navigateToIndex] never touches, whichever branch it takes. *)
Lemma navigateToIndex_frame (index : Z) (s : State) :
  lightboxPhotos (navigateToIndex index s) = lightboxPhotos s
  /\ lightbox (navigateToIndex index s) = lightbox s
  /\ escapeListener (navigateToIndex index s) = escapeListener s
  /\ bodyOverflow (navigateToIndex index s) = bodyOverflow s
  /\ activeElement (navigateToIndex index s) = activeElement s
  /\ lastFocusedPhoto (navigateToIndex index s) = lastFocusedPhoto s.
Proof.
  unfold navigateToIndex.
  destruct (lightboxPhotos s) as [photos|] eqn:P; [|now rewrite P].
  destruct ((index <? 0) || (len photos <=? index)); [now rewrite P|].
  destruct (nth_error photos (Z.to_nat index)) as [photoItem|]; [|now rewrite P].
  destruct (item_img photoItem) as [img|]; [|now rewrite P].
  cbv zeta. rewrite preloadAdjacentImages_links.
  destruct (lightboxImage s), (lightboxCaption s) eqn:C; simpl; rewrite ?C; simpl;
    repeat split; assumption.
Qed.

(** The three guards of [navigateToIndex], read off a stored list. *)
Lemma navigateToIndex_cursor (index : Z) (s : State) (photos : list PhotoItem) :
  lightboxPhotos s = Some photos ->
  lightboxCurrentIndex (navigateToIndex index s) =
    if (0 <=? index) && (index <? len photos) && hasImage photos index
    then Some index
    else lightboxCurrentIndex s.
Proof.
  intro P. unfold navigateToIndex, hasImage. rewrite P.
  destruct (index <? 0) eqn:Lo; [replace (0 <=? index) with false by lia; reflexivity|].
  replace (0 <=? index) with true by lia.
  destruct (len photos <=? index) eqn:Hi;
    [replace (index <? len photos) with false by lia; reflexivity|].
  replace (index <? len photos) with true by lia. simpl.
  destruct (nth_error photos (Z.to_nat index)) as [photoItem|]; [|reflexivity].
  destruct (item_img photoItem) as [img|]; [|reflexivity].
  rewrite preloadAdjacentImages_links.
  destruct (lightboxImage s), (lightboxCaption s) eqn:C; simpl; rewrite ?C; reflexivity.
Qed.

Lemma navigateToIndex_rejected (index : Z) (s : State) (photos : list PhotoItem) :
  lightboxPhotos s = Some photos ->
  (0 <=? index) && (index <? len photos) && hasImage photos index = false ->
  navigateToIndex index s = s.
Proof.
  intros P G. unfold navigateToIndex. rewrite P.
  destruct (index <? 0) eqn:Lo; [reflexivity|].
  destruct (len photos <=? index) eqn:Hi; [reflexivity|]. simpl.
  replace (0 <=? index) with true in G by lia.
  replace (index <? len photos) with true in G by lia.
  unfold hasImage in G. simpl in G.
  destruct (nth_error photos (Z.to_nat index)) as [photoItem|]; [|reflexivity].
  destruct (item_img photoItem) as [img|]; [discriminate|reflexivity].
Qed.

Lemma or_zero_some (i : Z) : or_zero (Some i) = i.
Proof. unfold or_zero. destruct (i =? 0) eqn:E; lia. Qed.

Lemma goto_sets_cursor (s : State) (photos : list PhotoItem) (i : Z) :
  lightboxPhotos s = Some photos ->
  0 <= i < len photos ->
  hasImage photos i = true ->
  getCurrentIndex (navigateToIndex i s) = i.
Proof.
  intros P B I. unfold getCurrentIndex.
  rewrite (navigateToIndex_cursor i s photos P), I.
  replace (0 <=? i) with true by lia.
  replace (i <? len photos) with true by lia.
  apply or_zero_some.
Qed.

(** ** Closing *)

Lemma closeLightbox_closed (s : State) :
  isOpen s = false -> closeLightbox s = s.
Proof.
  unfold isOpen, closeLightbox.
  destruct (lightbox s) as [lb|]; [|reflexivity].
  intros ->. reflexivity.
Qed.

Lemma closeLightbox_frame (s : State) :
  lightboxPhotos (closeLightbox s) = lightboxPhotos s
  /\ lightboxCurrentIndex (closeLightbox s) = lightboxCurrentIndex s
  /\ isOpen (closeLightbox s) = isOpen s.
Proof.
  unfold closeLightbox, isOpen.
  destruct (lightbox s) as [lb|] eqn:L; [|rewrite L; auto].
  destruct (cls_visible lb) eqn:V; simpl; [|rewrite L, V; auto].
  destruct (lastFocusedPhoto s) as [photo|]; simpl; auto.
  match goal with |- context [focus photo ?x] =>
    destruct (focus_cases photo x) as [-> | ->] end; simpl; auto.
Qed.

Lemma closeLightbox_unregisters (s : State) :
  isOpen s = true -> escapeListener (closeLightbox s) = false.
Proof.
  unfold closeLightbox, isOpen.
  destruct (lightbox s) as [lb|]; [|discriminate].
  intros ->. simpl. destruct (lastFocusedPhoto s) as [photo|]; [|reflexivity].
  simpl. match goal with |- context [focus photo ?x] =>
    destruct (focus_cases photo x) as [-> | ->] end; reflexivity.
Qed.

(** ** Next and previous *)

Lemma navigateNext_goto (s : State) :
  exists index, navigateNext s = navigateToIndex index s \/ navigateNext s = s.
Proof.
  unfold navigateNext. destruct (lightboxPhotos s) as [photos|]; [|exists 0; auto].
  destruct (len photos =? 0); [exists 0; auto|]. eexists; left; reflexivity.
Qed.

Lemma navigatePrevious_goto (s : State) :
  exists index, navigatePrevious s = navigateToIndex index s \/ navigatePrevious s = s.
Proof.
  unfold navigatePrevious. destruct (lightboxPhotos s) as [photos|]; [|exists 0; auto].
  destruct (len photos =? 0); [exists 0; auto|]. eexists; left; reflexivity.
Qed.

Lemma navigateNext_frame (s : State) :
  lightboxPhotos (navigateNext s) = lightboxPhotos s
  /\ lightbox (navigateNext s) = lightbox s
  /\ escapeListener (navigateNext s) = escapeListener s.
Proof.
  destruct (navigateNext_goto s) as [index [-> | ->]]; auto.
  destruct (navigateToIndex_frame index s) as (? & ? & ? & _); auto.
Qed.

Lemma navigatePrevious_frame (s : State) :
  lightboxPhotos (navigatePrevious s) = lightboxPhotos s
  /\ lightbox (navigatePrevious s) = lightbox s
  /\ escapeListener (navigatePrevious s) = escapeListener s.
Proof.
  destruct (navigatePrevious_goto s) as [index [-> | ->]]; auto.
  destruct (navigateToIndex_frame index s) as (? & ? & ? & _); auto.
Qed.

(** ** The cursor invariant, operation by operation *)

Lemma cursorInBounds_same (s s' : State) :
  lightboxPhotos s' = lightboxPhotos s ->
  lightboxCurrentIndex s' = lightboxCurrentIndex s ->
  cursorInBounds s -> cursorInBounds s'.
Proof.
  unfold cursorInBounds, getCurrentIndex. intros -> ->. exact (fun H => H).
Qed.

Lemma cursorInBounds_goto (index : Z) (s : State) :
  cursorInBounds s -> cursorInBounds (navigateToIndex index s).
Proof.
  unfold cursorInBounds, getCurrentIndex.
  destruct (navigateToIndex_frame index s) as (P & _). rewrite P.
  destruct (lightboxPhotos s) as [photos|] eqn:E; [|exact (fun H => H)].
  rewrite (navigateToIndex_cursor index s photos E).
  destruct ((0 <=? index) && (index <? len photos) && hasImage photos index) eqn:G;
    [|exact (fun H => H)].
  intros _. rewrite or_zero_some.
  apply andb_prop in G. destruct G as [G _]. apply andb_prop in G. lia.
Qed.

Lemma cursorInBounds_close (s : State) :
  cursorInBounds s -> cursorInBounds (closeLightbox s).
Proof.
  destruct (closeLightbox_frame s) as (P & C & _).
  now apply cursorInBounds_same.
Qed.

(** ** Keyboard dispatch *)

Lemma trapKeydown_other_key (e : KeyboardEvent) (ends : nat * nat) (h : Handled) :
  String.eqb (key e) "Tab" = false -> trapKeydown e ends h = h.
Proof. unfold trapKeydown. destruct ends. intros ->. reflexivity. Qed.

Lemma trap_fold_other_key (e : KeyboardEvent) (listeners : list (nat * nat)) :
  String.eqb (key e) "Tab" = false ->
  forall h, fold_left (fun h ends => trapKeydown e ends h) listeners h = h.
Proof.
  intro K. induction listeners as [|ends rest IH]; intro h; simpl; [reflexivity|].
  rewrite trapKeydown_other_key by exact K. apply IH.
Qed.

(** The Tab listeners move focus and nothing else. *)
Lemma trapKeydown_focus_only (e : KeyboardEvent) (ends : nat * nat) (h : Handled) :
  exists a, after (trapKeydown e ends h) = with_activeElement a (after h).
Proof.
  unfold trapKeydown. destruct ends as [firstFocusable lastFocusable].
  assert (Same : exists a, after h = with_activeElement a (after h)).
  { exists (activeElement (after h)). destruct (after h); reflexivity. }
  destruct (String.eqb (key e) "Tab"); [|exact Same].
  destruct (shiftKey e), (activeElement (after h)) as [a|]; try exact Same.
  - destruct (Nat.eqb a firstFocusable); [apply focus_only | exact Same].
  - destruct (Nat.eqb a lastFocusable); [apply focus_only | exact Same].
Qed.

Lemma trap_fold_focus_only (e : KeyboardEvent) (listeners : list (nat * nat)) :
  forall h,
    exists a,
      after (fold_left (fun h ends => trapKeydown e ends h) listeners h)
      = with_activeElement a (after h).
Proof.
  induction listeners as [|ends rest IH]; intro h; simpl.
  - exists (activeElement (after h)). destruct (after h); reflexivity.
  - destruct (IH (trapKeydown e ends h)) as [a Ha].
    destruct (trapKeydown_focus_only e ends h) as [b Hb].
    exists a. rewrite Ha, Hb. reflexivity.
Qed.

Lemma navigationKeys_not_tab (k : string) :
  In k navigationKeys -> String.eqb k "Tab" = false.
Proof.
  unfold navigationKeys. simpl.
  intros [<- | [<- | [<- | [<- | [<- | []]]]]]; reflexivity.
Qed.

(** For a key other than Tab the dispatch is the two document listeners. *)
Lemma keydown_document_only (e : KeyboardEvent) (inside : bool) (s : State) :
  String.eqb (key e) "Tab" = false ->
  keydown e inside s =
    let h := handleLightboxKeydown e s in
    if escapeListener s && escapeListener (after h)
    then mkHandled (defaultPrevented h) (uncaught h) (handleEscapeKey e (after h))
    else h.
Proof.
  intro K. unfold keydown.
  assert (H0 :
    match lightbox s with
    | Some lb =>
        if inside
        then fold_left (fun h ends => trapKeydown e ends h) (trapListeners lb)
                       (mkHandled false false s)
        else mkHandled false false s
    | None => mkHandled false false s
    end = mkHandled false false s).
  { destruct (lightbox s); [|reflexivity]. destruct inside; [|reflexivity].
    apply trap_fold_other_key; exact K. }
  rewrite H0. simpl.
  destruct (handleLightboxKeydown e s) as [p u a]; simpl.
  destruct (escapeListener s && escapeListener a); reflexivity.
Qed.

(** ** Deferred callbacks leave the navigation state alone *)

Lemma runTimer_frame (t : Timer) (s : State) :
  lightboxPhotos (stateOf (runTimer t s)) = lightboxPhotos s
  /\ lightboxCurrentIndex (stateOf (runTimer t s)) = lightboxCurrentIndex s.
Proof.
  destruct t; simpl.
  - destruct (lightbox s) as [lb|]; [destruct (flex lb)|]; simpl; auto.
  - destruct (lightbox s); simpl; auto.
  - destruct (lightboxImage s); simpl; auto.
  - auto.
Qed.

(** A callback may hide the overlay; none shows it. *)
Lemma runTimer_open (t : Timer) (s : State) :
  isOpen (stateOf (runTimer t s)) = true -> isOpen s = true.
Proof.
  unfold isOpen. destruct t; simpl.
  - destruct (lightbox s) as [lb|] eqn:L; [destruct (flex lb)|];
      simpl; rewrite ?L; auto.
  - destruct (lightbox s) as [lb|] eqn:L; simpl; [discriminate | rewrite L; auto].
  - destruct (lightboxImage s); simpl; auto.
  - auto.
Qed.

Lemma fireTimer_frame (n : nat) (s : State) :
  lightboxPhotos (stateOf (fireTimer n s)) = lightboxPhotos s
  /\ lightboxCurrentIndex (stateOf (fireTimer n s)) = lightboxCurrentIndex s.
Proof.
  unfold fireTimer. destruct (nth_error (timers s) n) as [[delay t]|]; [|simpl; auto].
  destruct (runTimer_frame t
              (with_timers (firstn n (timers s) ++ skipn (S n) (timers s)) s)) as [P C].
  rewrite P, C. simpl. auto.
Qed.

(** ** Touch gestures *)

Lemma last_cons_default {A : Type} (x d : A) (l : list A) :
  last (x :: l) d = last l x.
Proof.
  revert x d. induction l as [|y l IH]; intros x d; [reflexivity|].
  change (last (x :: y :: l) d) with (last (y :: l) d).
  rewrite (IH y d), (IH y x). reflexivity.
Qed.

Lemma run_app (p : Page) (evs evs' : list Event) :
  run p (evs ++ evs') = run (run p evs) evs'.
Proof. unfold run. apply fold_left_app. Qed.

Lemma run_moves (moves : list (Z * Z)) :
  forall (t : Touch) (s : State),
    run (mkPage t s) (map (fun m => TouchMove (Some m)) moves) =
      let final := last moves (currentX t, currentY t) in
      mkPage (mkTouch (startX t) (startY t) (fst final) (snd final)) s.
Proof.
  induction moves as [|[x y] rest IH]; intros t s.
  - destruct t; reflexivity.
  - rewrite last_cons_default. simpl map.
    change (run (mkPage t s) (TouchMove (Some (x, y)) :: ?l))
      with (run (mkPage (mkTouch (startX t) (startY t) x y) s) l).
    rewrite IH. reflexivity.
Qed.

(** A gesture is one [touchend] on the start point and the last point
    reached. *)
Lemma gesture_touchend (start : Z * Z) (moves : list (Z * Z)) (p : Page) :
  gesture start moves p =
    let final := last moves start in
    let '(t, s) :=
      touchend (mkTouch (fst start) (snd start) (fst final) (snd final)) (st p) in
    mkPage t s.
Proof.
  unfold gesture. destruct start as [x0 y0], p as [t0 s0].
  change (run (mkPage t0 s0) (TouchStart (Some (x0, y0)) :: ?l))
    with (run (mkPage (mkTouch x0 y0 x0 y0) s0) l).
  rewrite run_app, run_moves. reflexivity.
Qed.

(** ** Properties kept by every event that does not open the lightbox *)

Section Preservation.

Variable P : State -> Prop.

Hypothesis P_goto : forall index s, P s -> P (navigateToIndex index s).
Hypothesis P_close : forall s, P s -> P (closeLightbox s).
Hypothesis P_focus : forall a s, P s -> P (with_activeElement a s).
Hypothesis P_timers : forall v s, P s -> P (with_timers v s).
Hypothesis P_runTimer : forall t s, P s -> P (stateOf (runTimer t s)).

Lemma keeps_next (s : State) : P s -> P (navigateNext s).
Proof. destruct (navigateNext_goto s) as [index [-> | ->]]; auto. Qed.

Lemma keeps_previous (s : State) : P s -> P (navigatePrevious s).
Proof. destruct (navigatePrevious_goto s) as [index [-> | ->]]; auto. Qed.

Lemma keeps_handleLightboxKeydown (e : KeyboardEvent) (s : State) :
  P s -> P (after (handleLightboxKeydown e s)).
Proof.
  intro B. unfold handleLightboxKeydown.
  destruct (negb (isOpen s)); [exact B|].
  destruct (String.eqb (key e) "ArrowLeft"); [now apply keeps_previous|].
  destruct (String.eqb (key e) "ArrowRight"); [now apply keeps_next|].
  destruct (String.eqb (key e) "Home"); [now apply P_goto|].
  destruct (String.eqb (key e) "End").
  { destruct (lightboxPhotos s); [now apply P_goto | exact B]. }
  destruct (String.eqb (key e) "Escape"); [now apply P_close | exact B].
Qed.

Lemma keeps_handleEscapeKey (e : KeyboardEvent) (s : State) :
  P s -> P (handleEscapeKey e s).
Proof.
  unfold handleEscapeKey.
  destruct (String.eqb (key e) "Escape"); [apply P_close | exact (fun H => H)].
Qed.

Lemma keeps_keydown (e : KeyboardEvent) (inside : bool) (s : State) :
  P s -> P (after (keydown e inside s)).
Proof.
  intro B. unfold keydown.
  set (h0 := match lightbox s with
             | Some lb =>
                 if inside
                 then fold_left (fun h ends => trapKeydown e ends h) (trapListeners lb)
                                (mkHandled false false s)
                 else mkHandled false false s
             | None => mkHandled false false s
             end).
  assert (B0 : P (after h0)).
  { subst h0. destruct (lightbox s) as [lb|]; [|exact B].
    destruct inside; [|exact B].
    destruct (trap_fold_focus_only e (trapListeners lb) (mkHandled false false s))
      as [a ->].
    simpl. now apply P_focus. }
  cbv zeta.
  destruct (escapeListener s && escapeListener _); simpl.
  - apply keeps_handleEscapeKey, keeps_handleLightboxKeydown, B0.
  - apply keeps_handleLightboxKeydown, B0.
Qed.

Lemma keeps_touchend (t : Touch) (s : State) : P s -> P (snd (touchend t s)).
Proof.
  intro B. unfold touchend.
  destruct ((startX t =? 0) || (startY t =? 0)); [exact B|]. simpl.
  destruct ((Z.abs _ <? Z.abs _) && (50 <? Z.abs _)); [|exact B].
  destruct (0 <? _); [now apply keeps_previous | now apply keeps_next].
Qed.

Lemma keeps_fireTimer (n : nat) (s : State) : P s -> P (stateOf (fireTimer n s)).
Proof.
  intro B. unfold fireTimer.
  destruct (nth_error (timers s) n) as [[delay t]|]; [|exact B].
  now apply P_runTimer, P_timers.
Qed.

Lemma keeps_step (p : Page) (ev : Event) :
  isOpening ev = false -> P (st p) -> P (st (step p ev)).
Proof.
  intros O B. destruct ev; simpl in O; try discriminate; simpl; auto.
  - now apply keeps_next.
  - now apply keeps_previous.
  - now apply keeps_keydown.
  - pose proof (keeps_touchend (touch p) (st p) B) as T.
    destruct (touchend (touch p) (st p)) as [t s]. exact T.
  - now apply keeps_fireTimer.
Qed.

End Preservation.

(** ** Opening *)

Lemma openLightbox_stores (src caption : string) (startIndex : Z)
    (photoItems : list PhotoItem) (s : State)
    (lb : LightboxEl) (el : ImageEl) (c : string) :
  lightbox s = Some lb -> lightboxImage s = Some el -> lightboxCaption s = Some c ->
  let s' := openLightbox src caption startIndex photoItems s in
  lightboxPhotos s' = Some photoItems
  /\ lightboxCurrentIndex s' = Some startIndex
  /\ isOpen s' = true
  /\ escapeListener s' = true.
Proof.
  intros L I C. unfold openLightbox. rewrite L, I, C. cbv zeta.
  rewrite preloadAdjacentImages_links. unfold trapFocus, isOpen. simpl.
  destruct (focusable lb); simpl; auto.
  unfold focus. destruct (takesFocus _ _); simpl; auto.
Qed.

Lemma openLightbox_without_elements (src caption : string) (startIndex : Z)
    (photoItems : list PhotoItem) (s : State) :
  lightbox s = None \/ lightboxImage s = None \/ lightboxCaption s = None ->
  openLightbox src caption startIndex photoItems s = s.
Proof.
  unfold openLightbox.
  destruct (lightbox s), (lightboxImage s), (lightboxCaption s); try reflexivity.
  intros [H | [H | H]]; discriminate.
Qed.

(** * The claims *)

(** ** Navigation Cursor *)

(** C1, as stated, fails: [openLightbox] stores the start index it is
    given without looking at the list.  Opened on a one-item list at index
    5, the lightbox is open and its cursor is 5; opened through
    [lightboxAPI.open(src, caption)] with the default index 0 and the
    default empty list, it is open with cursor 0 and no item at all. *)
Lemma open_stores_any_index :
  let s := openLightbox "a.jpg" "photo" 5 [pic 0 "a.jpg"] (st demoPage) in
  let s0 := api_open "a.jpg" "photo" None None (st demoPage) in
  (isOpen s = true
   /\ getTotalPhotos s = 1
   /\ getCurrentIndex s = 5
   /\ ~ cursorInBounds s)
  /\ (isOpen s0 = true
      /\ getTotalPhotos s0 = 0
      /\ getCurrentIndex s0 = 0
      /\ ~ cursorInBounds s0).
Proof.
  cbv zeta. split.
  - repeat split; try reflexivity.
    unfold cursorInBounds. simpl. unfold getCurrentIndex, len. simpl. lia.
  - repeat split; try reflexivity.
    unfold cursorInBounds. simpl. unfold getCurrentIndex, len. simpl. lia.
Qed.

(** C1 (amended): every event other than an opening one (goto, next,
    previous, close, a key, a touch, a timer) keeps a cursor that is in
    [0, length) in [0, length); [openLightbox] stores the start index as
    given, so the cursor it leaves is in bounds exactly when the start
    index is in [0, length) of the new list. *)
Theorem cursor_stays_in_bounds (p : Page) :
  (forall ev : Event,
      isOpening ev = false ->
      cursorInBounds (st p) -> cursorInBounds (st (step p ev)))
  /\ (forall src caption startIndex photoItems lb el c,
         lightbox (st p) = Some lb ->
         lightboxImage (st p) = Some el ->
         lightboxCaption (st p) = Some c ->
         let s' := openLightbox src caption startIndex photoItems (st p) in
         isOpen s' = true
         /\ getCurrentIndex s' = startIndex
         /\ (cursorInBounds s' <-> 0 <= startIndex < len photoItems)).
Proof.
  split.
  - intros ev O B. revert O B. apply keeps_step.
    + apply cursorInBounds_goto.
    + apply cursorInBounds_close.
    + intros a s. now apply cursorInBounds_same.
    + intros v s. now apply cursorInBounds_same.
    + intros t s. destruct (runTimer_frame t s) as [P C].
      now apply cursorInBounds_same.
  - intros src caption startIndex photoItems lb el c L I C s'.
    destruct (openLightbox_stores src caption startIndex photoItems (st p) lb el c L I C)
      as (P & X & O & _).
    fold s' in P, X, O.
    assert (G : getCurrentIndex s' = startIndex).
    { unfold getCurrentIndex. rewrite X. apply or_zero_some. }
    split; [exact O|]. split; [exact G|].
    unfold cursorInBounds. rewrite P, G. reflexivity.
Qed.

Lemma cursor_stays_in_bounds_witness :
  cursorInBounds (st (step openedPage ApiNext))
  /\ isOpen (openLightbox "b.jpg" "photo" 1 fourPics (st demoPage)) = true
  /\ getCurrentIndex (openLightbox "b.jpg" "photo" 1 fourPics (st demoPage)) = 1
  /\ (cursorInBounds (openLightbox "b.jpg" "photo" 1 fourPics (st demoPage))
      <-> 0 <= 1 < len fourPics).
Proof.
  split.
  - apply (proj1 (cursor_stays_in_bounds openedPage) ApiNext).
    + reflexivity.
    + unfold cursorInBounds, getCurrentIndex, len. simpl. lia.
  - apply (proj2 (cursor_stays_in_bounds demoPage) "b.jpg" "photo" 1 fourPics
             (mkLightboxEl false true false (Some false) [7%nat] [] "" [])
             (mkImageEl "" "" "") ""); reflexivity.
Defined.

(** C2, as stated, fails: an in-bounds index whose item has no [<img>]
    is refused.  With the cursor on item 0 of two, [goto(1)] leaves
    [getCurrentIndex()] at 0. *)
Lemma goto_imageless_keeps_cursor :
  lightboxPhotos gappedState = Some [pic 0 "a.jpg"; imageless 1]
  /\ 0 <= 1 < len [pic 0 "a.jpg"; imageless 1]
  /\ getCurrentIndex (navigateToIndex 1 gappedState) = 0
  /\ getCurrentIndex (navigateToIndex 1 gappedState) <> 1.
Proof.
  split; [reflexivity|]. split; [unfold len; simpl; lia|].
  split; [reflexivity | discriminate].
Qed.

(** C2 (amended): for every stored item list of length n and every index
    i in [0, n) whose item contains an image element, [goto(i)] followed
    by [getCurrentIndex()] returns i. *)
Theorem goto_then_getCurrentIndex (s : State) (photos : list PhotoItem) (i : Z) :
  lightboxPhotos s = Some photos ->
  0 <= i < len photos ->
  hasImage photos i = true ->
  getCurrentIndex (navigateToIndex i s) = i.
Proof. apply goto_sets_cursor. Qed.

Lemma goto_then_getCurrentIndex_witness :
  getCurrentIndex (navigateToIndex 3 openedState) = 3.
Proof.
  apply (goto_then_getCurrentIndex openedState fourPics 3).
  - reflexivity.
  - unfold len. simpl. lia.
  - reflexivity.
Defined.

(** C3, as stated, fails for the same reason: from index 0 of two items,
    the second without an [<img>], [next()] leaves the cursor at 0, and
    [previous()], which wraps to that same item, does too. *)
Lemma next_onto_imageless_stays :
  isOpen gappedState = true
  /\ getTotalPhotos gappedState = 2
  /\ getCurrentIndex gappedState = 0
  /\ getCurrentIndex (navigateNext gappedState) = 0
  /\ getCurrentIndex (navigatePrevious gappedState) = 0.
Proof. repeat split. Qed.

(** C3 (amended): over n >= 1 stored items with the cursor c in [0, n),
    [next()] moves the cursor to c+1, or to 0 from n-1, and [previous()]
    moves it to c-1, or to n-1 from 0, provided the item moved to
    contains an image element; when it does not, the call changes
    nothing and the cursor stays at c. *)
Theorem next_previous_wrap (s : State) (photos : list PhotoItem) :
  lightboxPhotos s = Some photos ->
  0 <= getCurrentIndex s < len photos ->
  let n := len photos in
  let c := getCurrentIndex s in
  let after_next := if c =? n - 1 then 0 else c + 1 in
  let after_previous := if c =? 0 then n - 1 else c - 1 in
  (hasImage photos after_next = true ->
   getCurrentIndex (navigateNext s) = after_next)
  /\ (hasImage photos after_previous = true ->
      getCurrentIndex (navigatePrevious s) = after_previous)
  /\ (hasImage photos after_next = false ->
      navigateNext s = s /\ getCurrentIndex (navigateNext s) = c)
  /\ (hasImage photos after_previous = false ->
      navigatePrevious s = s /\ getCurrentIndex (navigatePrevious s) = c).
Proof.
  intros P B. cbv zeta.
  assert (N0 : (len photos =? 0) = false) by lia.
  set (c := getCurrentIndex s) in *. set (n := len photos) in *.
  assert (EN : (if c <? n - 1 then c + 1 else 0) = (if c =? n - 1 then 0 else c + 1)).
  { destruct (Z.ltb_spec c (n - 1)), (Z.eqb_spec c (n - 1)); lia. }
  assert (EP : (if 0 <? c then c - 1 else n - 1) = (if c =? 0 then n - 1 else c - 1)).
  { destruct (Z.ltb_spec 0 c), (Z.eqb_spec c 0); lia. }
  assert (GN : navigateNext s = navigateToIndex (if c =? n - 1 then 0 else c + 1) s).
  { unfold navigateNext. rewrite P. fold n. rewrite N0. cbv zeta.
    fold (getCurrentIndex s). fold c. rewrite EN. reflexivity. }
  assert (GP : navigatePrevious s
               = navigateToIndex (if c =? 0 then n - 1 else c - 1) s).
  { unfold navigatePrevious. rewrite P. fold n. rewrite N0. cbv zeta.
    fold (getCurrentIndex s). fold c. rewrite EP. reflexivity. }
  rewrite GN, GP.
  split; [|split; [|split]]; intro I.
  - apply (goto_sets_cursor s photos _ P); [|exact I].
    fold n. destruct (Z.eqb_spec c (n - 1)); lia.
  - apply (goto_sets_cursor s photos _ P); [|exact I].
    fold n. destruct (Z.eqb_spec c 0); lia.
  - assert (R : navigateToIndex (if c =? n - 1 then 0 else c + 1) s = s).
    { apply (navigateToIndex_rejected _ s photos P). rewrite I. apply andb_false_r. }
    rewrite R. split; reflexivity.
  - assert (R : navigateToIndex (if c =? 0 then n - 1 else c - 1) s = s).
    { apply (navigateToIndex_rejected _ s photos P). rewrite I. apply andb_false_r. }
    rewrite R. split; reflexivity.
Qed.

Lemma next_previous_wrap_witness :
  (getCurrentIndex (navigateNext lastState) = 0
   /\ getCurrentIndex (navigatePrevious lastState) = 2)
  /\ (navigateNext gappedState = gappedState
      /\ getCurrentIndex (navigatePrevious gappedState) = 0).
Proof.
  assert (B : 0 <= getCurrentIndex lastState < len fourPics).
  { change (0 <= 3 < 4). lia. }
  assert (G : 0 <= getCurrentIndex gappedState < len [pic 0 "a.jpg"; imageless 1]).
  { change (0 <= 0 < 2). lia. }
  split.
  - destruct (next_previous_wrap lastState fourPics eq_refl B) as (N & Pv & _).
    split; [exact (N eq_refl) | exact (Pv eq_refl)].
  - destruct (next_previous_wrap gappedState [pic 0 "a.jpg"; imageless 1] eq_refl G)
      as (_ & _ & N & Pv).
    split; [exact (proj1 (N eq_refl)) | exact (proj2 (Pv eq_refl))].
Defined.

(** C4: for every index below 0 or at or beyond the number of stored
    items, [goto(index)] returns the state it was given: the cursor, the
    displayed image and caption, the pending timers and the announcements
    are all untouched, and no exception is raised ([navigateToIndex] is a
    total function on states). *)
Theorem goto_out_of_bounds_noop (s : State) (index : Z) :
  index < 0 \/ index >= getTotalPhotos s ->
  navigateToIndex index s = s.
Proof.
  intro B. unfold navigateToIndex, getTotalPhotos in *.
  destruct (lightboxPhotos s) as [photos|]; [|reflexivity].
  replace ((index <? 0) || (len photos <=? index)) with true; [reflexivity|].
  symmetry. apply orb_true_iff. lia.
Qed.

Lemma goto_out_of_bounds_noop_witness :
  navigateToIndex 4 openedState = openedState
  /\ navigateToIndex (-1) openedState = openedState.
Proof.
  split.
  - apply (goto_out_of_bounds_noop openedState 4). right.
    change (4 >= 4). lia.
  - apply (goto_out_of_bounds_noop openedState (-1)). left. lia.
Defined.

(** C9: when the item at an in-bounds index contains no image element,
    [goto(index)] returns the state it was given, so the cursor, the
    displayed image and the caption are unchanged. *)
Theorem goto_imageless_noop (s : State) (photos : list PhotoItem) (index : Z)
    (photoItem : PhotoItem) :
  lightboxPhotos s = Some photos ->
  0 <= index < len photos ->
  nth_error photos (Z.to_nat index) = Some photoItem ->
  item_img photoItem = None ->
  navigateToIndex index s = s.
Proof.
  intros P B N I. apply (navigateToIndex_rejected index s photos P).
  unfold hasImage. rewrite N, I. apply andb_false_r.
Qed.

Lemma goto_imageless_noop_witness :
  navigateToIndex 1 gappedState = gappedState.
Proof.
  apply (goto_imageless_noop gappedState [pic 0 "a.jpg"; imageless 1] 1 (imageless 1)).
  - reflexivity.
  - unfold len. simpl. lia.
  - reflexivity.
  - reflexivity.
Defined.

(** ** Overlay Controller *)

(** C7: [close()] on an overlay that is not open (no [visible] class)
    returns the state it was given: classes, body scroll, the close-key
    listener, focus and the timer queue are untouched, so no hide timer is
    scheduled.  The same holds when the call comes from the Escape key. *)
Theorem close_when_closed_noop (s : State) :
  isOpen s = false ->
  closeLightbox s = s
  /\ timers (closeLightbox s) = timers s
  /\ forall e inside, key e = "Escape" -> keydown e inside s = mkHandled false false s.
Proof.
  intro C. pose proof (closeLightbox_closed s C) as E.
  split; [exact E|]. split; [now rewrite E|].
  intros e inside K.
  rewrite keydown_document_only by (rewrite K; reflexivity).
  unfold handleLightboxKeydown, handleEscapeKey. rewrite C, K. simpl.
  rewrite E. destruct (escapeListener s); reflexivity.
Qed.

Lemma close_when_closed_noop_witness :
  closeLightbox closedAgain = closedAgain
  /\ timers (closeLightbox closedAgain) = timers closedAgain
  /\ keydown (mkKeyboardEvent "Escape" false) true closedAgain
     = mkHandled false false closedAgain.
Proof.
  destruct (close_when_closed_noop closedAgain eq_refl) as (E & T & K).
  split; [exact E|]. split; [exact T|].
  apply (K (mkKeyboardEvent "Escape" false) true). reflexivity.
Defined.

(** ** Input Router: touch *)

Lemma touchend_zero_start (t : Touch) (s : State) :
  startX t = 0 \/ startY t = 0 -> touchend t s = (t, s).
Proof.
  intro Z0. unfold touchend.
  replace ((startX t =? 0) || (startY t =? 0)) with true; [reflexivity|].
  symmetry. apply orb_true_iff. lia.
Qed.


(** C10: a gesture that starts at x = 0 or at y = 0 leaves the state as
    it was, whatever the moves that follow: on release the handler takes
    the zero start coordinate for "no touch in progress" and returns
    before it looks at the displacement. *)
Theorem zero_start_never_navigates (start : Z * Z) (moves : list (Z * Z)) (p : Page) :
  fst start = 0 \/ snd start = 0 ->
  st (gesture start moves p) = st p.
Proof.
  intro Z0. rewrite gesture_touchend. cbv zeta.
  rewrite touchend_zero_start by exact Z0. reflexivity.
Qed.

Lemma zero_start_never_navigates_witness :
  st (gesture (0, 100) [(60, 100); (200, 100)] openedPage) = st openedPage.
Proof.
  apply (zero_start_never_navigates (0, 100) [(60, 100); (200, 100)] openedPage).
  left. reflexivity.
Defined.

Lemma wired_moves (moves : list (Z * Z)) :
  forall w,
    fold_left (fun acc m => wiredTouchmove (Some m) acc) moves w
    = mkWired
        (fold_left (fun ts m => map (touchmove (Some m)) ts) moves (copies w)) (wst w).
Proof.
  induction moves as [|m rest IH]; intro w; simpl.
  - destruct w; reflexivity.
  - rewrite IH. reflexivity.
Qed.

Lemma copies_after_moves (start : Z * Z) (moves : list (Z * Z)) (ts : list Touch) :
  fold_left (fun ts m => map (touchmove (Some m)) ts) moves
            (map (touchstart (Some start)) ts)
  = map (fun _ => mkTouch (fst start) (snd start)
                          (fst (last moves start)) (snd (last moves start))) ts.
Proof.
  destruct start as [x0 y0].
  assert (G : forall cur,
             fold_left (fun ts m => map (touchmove (Some m)) ts) moves
                       (map (fun _ => mkTouch x0 y0 (fst cur) (snd cur)) ts)
             = map (fun _ => mkTouch x0 y0 (fst (last moves cur)) (snd (last moves cur)))
                   ts).
  { induction moves as [|[x y] rest IH]; intro cur; [reflexivity|].
    rewrite last_cons_default. simpl fold_left. rewrite map_map. simpl.
    exact (IH (x, y)). }
  exact (G (x0, y0)).
Qed.

Lemma wiredTouchend_swipe (t : Touch) (next : State -> State) :
  (forall s, touchend t s = (touchInit, next s)) ->
  forall (ts : list Touch) (done : list Touch) (s : State),
    fold_left (fun acc t =>
                 let '(t', s') := touchend t (wst acc) in
                 mkWired (copies acc ++ [t']) s')
              (map (fun _ => t) ts) (mkWired done s)
    = mkWired (done ++ map (fun _ => touchInit) ts) (Nat.iter (length ts) next s).
Proof.
  intros E ts. induction ts as [|x ts IH]; intros done s.
  - simpl. rewrite app_nil_r. reflexivity.
  - simpl fold_left. rewrite E. simpl. rewrite IH, <- app_assoc. simpl.
    f_equal. clear. induction (length ts) as [|k IHk]; [reflexivity|].
    simpl. rewrite <- IHk. reflexivity.
Qed.

Lemma touchend_left (t : Touch) :
  startX t <> 0 -> startY t <> 0 ->
  Z.abs (currentX t - startX t) > 50 ->
  Z.abs (currentX t - startX t) > Z.abs (currentY t - startY t) ->
  currentX t - startX t < 0 ->
  forall s, touchend t s = (touchInit, navigateNext s).
Proof.
  intros X Y A B C s. unfold touchend.
  replace ((startX t =? 0) || (startY t =? 0)) with false
    by (symmetry; apply orb_false_iff; lia).
  cbv zeta.
  replace (Z.abs (currentY t - startY t) <? Z.abs (currentX t - startX t)) with true by lia.
  replace (50 <? Z.abs (currentX t - startX t)) with true by lia.
  replace (0 <? currentX t - startX t) with false by lia. reflexivity.
Qed.

Lemma touchend_right (t : Touch) :
  startX t <> 0 -> startY t <> 0 ->
  Z.abs (currentX t - startX t) > 50 ->
  Z.abs (currentX t - startX t) > Z.abs (currentY t - startY t) ->
  currentX t - startX t > 0 ->
  forall s, touchend t s = (touchInit, navigatePrevious s).
Proof.
  intros X Y A B C s. unfold touchend.
  replace ((startX t =? 0) || (startY t =? 0)) with false
    by (symmetry; apply orb_false_iff; lia).
  cbv zeta.
  replace (Z.abs (currentY t - startY t) <? Z.abs (currentX t - startX t)) with true by lia.
  replace (50 <? Z.abs (currentX t - startX t)) with true by lia.
  replace (0 <? currentX t - startX t) with true by lia. reflexivity.
Qed.







(** ** Input Router: keyboard *)

(** C6: while the overlay is open, a [keydown] (seen by
    [handleLightboxKeydown], and by the document as a whole) leaves the
    state of [previous()] for ArrowLeft, [next()] for ArrowRight,
    [goto(0)] for Home, [goto(length - 1)] for End and [close()] for
    Escape; while it is closed, each of these five keys leaves the state
    as it was and its default action in place. *)
Theorem keyboard_routing (e : KeyboardEvent) (inside : bool) (s : State) :
  (isOpen s = true ->
     (key e = "ArrowLeft" -> routes e inside s (navigatePrevious s))
     /\ (key e = "ArrowRight" -> routes e inside s (navigateNext s))
     /\ (key e = "Home" -> routes e inside s (navigateToIndex 0 s))
     /\ (key e = "End" ->
         routes e inside s (navigateToIndex (getTotalPhotos s - 1) s))
     /\ (key e = "Escape" -> routes e inside s (closeLightbox s)))
  /\ (isOpen s = false ->
      In (key e) navigationKeys ->
      handleLightboxKeydown e s = mkHandled false false s
      /\ keydown e inside s = mkHandled false false s).
Proof.
  split.
  - intro O. unfold routes. repeat split;
      match goal with
      | K : key e = _ |- _ =>
          rewrite ?keydown_document_only by (rewrite K; reflexivity);
          unfold handleLightboxKeydown, handleEscapeKey, getTotalPhotos;
          rewrite O, K; simpl
      end.
    + reflexivity.
    + destruct (escapeListener s && escapeListener (navigatePrevious s)); reflexivity.
    + reflexivity.
    + destruct (escapeListener s && escapeListener (navigateNext s)); reflexivity.
    + reflexivity.
    + destruct (escapeListener s && escapeListener (navigateToIndex 0 s)); reflexivity.
    + destruct (lightboxPhotos s) as [photos|] eqn:P; simpl; [reflexivity|].
      unfold navigateToIndex. rewrite P. reflexivity.
    + destruct (lightboxPhotos s) as [photos|] eqn:P; simpl.
      * destruct (escapeListener s && escapeListener _); reflexivity.
      * unfold navigateToIndex. rewrite P.
        destruct (escapeListener s && escapeListener s); reflexivity.
    + reflexivity.
    + rewrite (closeLightbox_unregisters s O), andb_false_r. reflexivity.
  - intros C K.
    rewrite keydown_document_only by (apply navigationKeys_not_tab; exact K).
    unfold handleLightboxKeydown, handleEscapeKey. rewrite C. simpl.
    rewrite (closeLightbox_closed s C).
    split; [reflexivity|].
    destruct (escapeListener s && escapeListener s), (String.eqb (key e) "Escape");
      reflexivity.
Qed.

Lemma keyboard_routing_witness :
  routes (mkKeyboardEvent "ArrowLeft" false) true openedState
    (navigatePrevious openedState)
  /\ routes (mkKeyboardEvent "End" false) true openedState
       (navigateToIndex (getTotalPhotos openedState - 1) openedState)
  /\ routes (mkKeyboardEvent "Escape" false) true openedState
       (closeLightbox openedState)
  /\ keydown (mkKeyboardEvent "ArrowRight" false) false closedAgain
     = mkHandled false false closedAgain.
Proof.
  split; [|split; [|split]].
  - destruct (proj1 (keyboard_routing (mkKeyboardEvent "ArrowLeft" false) true openedState)
                eq_refl) as (L & _).
    apply L. reflexivity.
  - destruct (proj1 (keyboard_routing (mkKeyboardEvent "End" false) true openedState)
                eq_refl) as (_ & _ & _ & E & _).
    apply E. reflexivity.
  - destruct (proj1 (keyboard_routing (mkKeyboardEvent "Escape" false) true openedState)
                eq_refl) as (_ & _ & _ & _ & X).
    apply X. reflexivity.
  - apply (proj2 (keyboard_routing (mkKeyboardEvent "ArrowRight" false) false closedAgain)).
    + reflexivity.
    + unfold navigationKeys. simpl. auto.
Defined.

(** ** Image Preloader *)

Lemma preloadIndices_spec (currentIndex : Z) (photoItems : list PhotoItem) (j : Z) :
  In j (preloadIndices currentIndex photoItems) <->
  (j = currentIndex - 1 \/ j = currentIndex + 1 \/ j = currentIndex + 2)
  /\ 0 <= j < len photoItems.
Proof.
  unfold preloadIndices. rewrite filter_In. simpl.
  rewrite !andb_true_iff, negb_true_iff. split.
  - intros [M G]. split; [|lia].
    destruct M as [<- | [<- | [<- | [<- | []]]]]; auto. lia.
  - intros [M B]. split; [|lia]. destruct M as [-> | [-> | ->]]; auto.
Qed.

Lemma preloadIndices_NoDup (currentIndex : Z) (photoItems : list PhotoItem) :
  NoDup (preloadIndices currentIndex photoItems).
Proof.
  unfold preloadIndices. apply NoDup_filter.
  repeat constructor; simpl; lia.
Qed.

(** C8, as stated, fails: a neighbour without an [<img>] (or whose image
    has no source) is in bounds and is not the current index, yet gets no
    preload hint.  At index 1 of two items, the first without an image,
    index 0 = 1 - 1 is in [0, 2) and nothing is added to the head. *)
Lemma imageless_neighbour_not_hinted :
  (0 = 1 - 1 /\ 0 <= 0 < len [imageless 0; pic 1 "b.jpg"])
  /\ hintedIndices 1 [imageless 0; pic 1 "b.jpg"] = []
  /\ preloadAdjacentImages 1 [imageless 0; pic 1 "b.jpg"] (st demoPage) = st demoPage.
Proof.
  split; [unfold len; simpl; lia|]. split; reflexivity.
Qed.

(** C8 (amended): for every current index i and item list of length n,
    the preloader appends one preload link, in index order, for exactly
    the indices in {i-1, i+1, i+2} that lie in [0, n) and whose item has
    an image element with a non-empty source; it changes nothing else. *)
Theorem preload_window (i : Z) (photoItems : list PhotoItem) (s : State) :
  preloadAdjacentImages i photoItems s =
    with_headLinks (headLinks s ++ hrefsOf photoItems (hintedIndices i photoItems)) s
  /\ length (hrefsOf photoItems (hintedIndices i photoItems))
     = length (hintedIndices i photoItems)
  /\ NoDup (hintedIndices i photoItems)
  /\ forall j,
       In j (hintedIndices i photoItems) <->
       (j = i - 1 \/ j = i + 1 \/ j = i + 2)
       /\ 0 <= j < len photoItems
       /\ hintFor photoItems j <> None.
Proof.
  assert (M : forall j,
             In j (hintedIndices i photoItems) <->
             In j (preloadIndices i photoItems) /\ hintFor photoItems j <> None).
  { intro j. unfold hintedIndices. rewrite filter_In.
    destruct (hintFor photoItems j); split; intros [A B]; split;
      congruence || assumption || reflexivity. }
  split; [apply preloadAdjacentImages_links|].
  split; [apply hrefsOf_length_hinted; intros j Hj; apply M in Hj; tauto|].
  split; [apply NoDup_filter, preloadIndices_NoDup|].
  intro j. rewrite M, preloadIndices_spec. tauto.
Qed.

(** ** Reachable states *)

Lemma storedWhenOpen_open (src caption : string) (startIndex : Z)
    (photoItems : list PhotoItem) (s : State) :
  storedWhenOpen s -> storedWhenOpen (openLightbox src caption startIndex photoItems s).
Proof.
  intro H.
  destruct (lightbox s) as [lb|] eqn:L;
    [|rewrite openLightbox_without_elements; auto].
  destruct (lightboxImage s) as [el|] eqn:I;
    [|rewrite openLightbox_without_elements; auto].
  destruct (lightboxCaption s) as [c|] eqn:C;
    [|rewrite openLightbox_without_elements; auto].
  destruct (openLightbox_stores src caption startIndex photoItems s lb el c L I C)
    as (P & _).
  intros _. rewrite P. discriminate.
Qed.

Lemma storedWhenOpen_step (p : Page) (ev : Event) :
  storedWhenOpen (st p) -> storedWhenOpen (st (step p ev)).
Proof.
  destruct (isOpening ev) eqn:O.
  - destruct ev; try discriminate; simpl; intro H.
    + unfold photoClick. destruct closest as [photoItem|]; [|exact H].
      destruct (item_img photoItem); [|exact H].
      now apply storedWhenOpen_open.
    + unfold api_open. now apply storedWhenOpen_open.
  - revert O. apply keeps_step; unfold storedWhenOpen.
    + intros index s H. destruct (navigateToIndex_frame index s) as (P & L & _).
      unfold isOpen. rewrite P, L. exact H.
    + intros s H. destruct (closeLightbox_frame s) as (P & _ & V).
      rewrite P, V. exact H.
    + intros a s H. exact H.
    + intros v s H. exact H.
    + intros t s H O. destruct (runTimer_frame t s) as [P _].
      rewrite P. apply H, (runTimer_open t s), O.
Qed.

Lemma storedWhenOpen_run (evs : list Event) :
  forall p, storedWhenOpen (st p) -> storedWhenOpen (st (run p evs)).
Proof.
  induction evs as [|ev rest IH]; intros p H; [exact H|].
  apply (IH (step p ev)), storedWhenOpen_step, H.
Qed.

(** X1: in every state the page can reach after [initLightbox], an open
    overlay has an item list stored, whatever the events were. *)
Theorem open_overlay_has_items (lb : LightboxEl) (el : ImageEl) (caption : string)
    (evs : list Event) :
  storedWhenOpen (st (run (initialPage lb el caption) evs)).
Proof.
  apply storedWhenOpen_run. unfold storedWhenOpen. simpl. discriminate.
Qed.

Lemma trap_fold_uncaught (e : KeyboardEvent) (listeners : list (nat * nat)) :
  forall h,
    uncaught (fold_left (fun h ends => trapKeydown e ends h) listeners h) = uncaught h.
Proof.
  induction listeners as [|[firstFocusable lastFocusable] rest IH]; intro h;
    [reflexivity|].
  simpl fold_left. rewrite IH. unfold trapKeydown.
  destruct (String.eqb (key e) "Tab"); [|reflexivity].
  destruct (shiftKey e), (activeElement (after h)) as [a|]; try reflexivity.
  - destruct (Nat.eqb a firstFocusable); reflexivity.
  - destruct (Nat.eqb a lastFocusable); reflexivity.
Qed.

(** X2: no key press ends in an uncaught exception in a reachable state:
    the only throwing path, End with nothing stored, needs an open
    overlay. *)
Theorem reachable_keydown_never_throws (lb : LightboxEl) (el : ImageEl)
    (caption : string) (evs : list Event) (e : KeyboardEvent) (inside : bool) :
  uncaught (keydown e inside (st (run (initialPage lb el caption) evs))) = false.
Proof.
  assert (H : storedWhenOpen (st (run (initialPage lb el caption) evs))).
  { apply storedWhenOpen_run. unfold storedWhenOpen. simpl. discriminate. }
  set (s := st (run (initialPage lb el caption) evs)) in *.
  unfold keydown.
  set (h0 := match lightbox s with
             | Some l =>
                 if inside
                 then fold_left (fun h ends => trapKeydown e ends h) (trapListeners l)
                                (mkHandled false false s)
                 else mkHandled false false s
             | None => mkHandled false false s
             end).
  assert (U0 : uncaught h0 = false).
  { subst h0. destruct (lightbox s) as [l|]; [|reflexivity].
    destruct inside; [|reflexivity]. apply trap_fold_uncaught. }
  assert (S0 : storedWhenOpen (after h0)).
  { subst h0. destruct (lightbox s) as [l|]; [|exact H].
    destruct inside; [|exact H].
    destruct (trap_fold_focus_only e (trapListeners l) (mkHandled false false s))
      as [a ->].
    exact H. }
  assert (U1 : uncaught (handleLightboxKeydown e (after h0)) = false).
  { unfold handleLightboxKeydown.
    destruct (isOpen (after h0)) eqn:O; [|reflexivity]. simpl.
    destruct (String.eqb (key e) "ArrowLeft"); [reflexivity|].
    destruct (String.eqb (key e) "ArrowRight"); [reflexivity|].
    destruct (String.eqb (key e) "Home"); [reflexivity|].
    destruct (String.eqb (key e) "End").
    { destruct (lightboxPhotos (after h0)) eqn:P; [reflexivity|].
      exfalso. exact (S0 O P). }
    destruct (String.eqb (key e) "Escape"); reflexivity. }
  cbv zeta. destruct (escapeListener s && escapeListener _); simpl;
    rewrite U0, U1; reflexivity.
Qed.

(** The walk-through of the specification: four items, opened at
    index 1; two [next()] give cursor 3, a third wraps to 0. *)
Example four_items_walk :
  getCurrentIndex (navigateNext (navigateNext openedState)) = 3
  /\ getCurrentIndex (navigateNext (navigateNext (navigateNext openedState))) = 0.
Proof. split; reflexivity. Qed.

(** ** Closing an open overlay, and the focus trap *)

(** X3: [close()] on an open overlay queues exactly one hide callback, after
    the animation duration, restores page scroll and drops the close-key
    listener; the overlay still counts as open until that callback runs,
    and is closed once it has. *)
Theorem close_schedules_hide (s : State) :
  isOpen s = true ->
  let s' := closeLightbox s in
  timers s' = timers s ++ [(getAnimationDuration s, Hide)]
  /\ bodyOverflow s' = ""
  /\ escapeListener s' = false
  /\ isOpen s' = true
  /\ isOpen (stateOf (runTimer Hide s')) = false.
Proof.
  unfold isOpen, closeLightbox.
  destruct (lightbox s) as [lb|] eqn:L; [|discriminate].
  intro V. rewrite V. cbv zeta. unfold setTimeout, getAnimationDuration.
  simpl. rewrite L.
  destruct (lastFocusedPhoto s) eqn:F; simpl; auto.
  unfold focus. destruct (takesFocus _ _); simpl; auto.
Qed.

Lemma close_schedules_hide_witness :
  timers (closeLightbox openedState) = timers openedState ++ [(300, Hide)]
  /\ bodyOverflow (closeLightbox openedState) = ""
  /\ escapeListener (closeLightbox openedState) = false
  /\ isOpen (closeLightbox openedState) = true
  /\ isOpen (stateOf (runTimer Hide (closeLightbox openedState))) = false.
Proof.
  apply (close_schedules_hide openedState). reflexivity.
Defined.

(** The delay read from the style sheet: 300 ms when the property is
    unset or unreadable, the number in front of [ms] otherwise (0 under
    reduced motion). *)
Example animation_durations :
  map (fun css =>
         getAnimationDuration
           (with_lightbox (Some (mkLightboxEl true false true None [] [] css []))
                          (st demoPage)))
      [""; "300ms"; "0ms"; " 150ms"; "0.3s"; "fast"]
  = [300; 300; 0; 150; 300; 300].
Proof. reflexivity. Qed.

(** X4: [open()] installs one more Tab listener on the overlay, for the
    first and the last element its selector matches, and calls [focus()]
    on the first: that element holds focus afterwards if it can take
    focus, otherwise focus stays where it was.  The listener cancels a Tab
    on the last element and a Shift+Tab on the first, and moves focus to
    the other end if that element can take focus; if it cannot, the key is
    cancelled all the same and focus does not move. *)
Theorem open_traps_focus (src caption : string) (startIndex : Z)
    (photoItems : list PhotoItem) (s : State)
    (lb : LightboxEl) (el : ImageEl) (c : string) (firstFocusable : nat)
    (others : list nat) :
  lightbox s = Some lb -> lightboxImage s = Some el -> lightboxCaption s = Some c ->
  focusable lb = firstFocusable :: others ->
  let s' := openLightbox src caption startIndex photoItems s in
  let lastFocusable := last others firstFocusable in
  activeElement s'
  = (if takesFocus firstFocusable s then Some firstFocusable else activeElement s)
  /\ (forall element, takesFocus element s' = takesFocus element s)
  /\ (exists lb', lightbox s' = Some lb'
                  /\ trapListeners lb'
                     = trapListeners lb ++ [(firstFocusable, lastFocusable)])
  /\ (forall h,
         activeElement (after h) = Some lastFocusable ->
         let h' := trapKeydown (mkKeyboardEvent "Tab" false)
                               (firstFocusable, lastFocusable) h in
         defaultPrevented h' = true
         /\ activeElement (after h')
            = Some (if takesFocus firstFocusable (after h)
                    then firstFocusable else lastFocusable))
  /\ (forall h,
         activeElement (after h) = Some firstFocusable ->
         let h' := trapKeydown (mkKeyboardEvent "Tab" true)
                               (firstFocusable, lastFocusable) h in
         defaultPrevented h' = true
         /\ activeElement (after h')
            = Some (if takesFocus lastFocusable (after h)
                    then lastFocusable else firstFocusable)).
Proof.
  intros L I C F. cbv zeta. unfold openLightbox. rewrite L, I, C. cbv zeta.
  rewrite preloadAdjacentImages_links. unfold trapFocus.
  cbn -[last focus takesFocus]. rewrite F. cbn -[last focus takesFocus].
  rewrite last_cons_default.
  split.
  { unfold focus.
    replace (takesFocus firstFocusable _) with (takesFocus firstFocusable s)
      by (unfold takesFocus; simpl; rewrite L; reflexivity).
    destruct (takesFocus firstFocusable s); reflexivity. }
  split; [intro element; unfold takesFocus; simpl; rewrite L; reflexivity|].
  split; [eexists; split; reflexivity|].
  split; intros h A; unfold trapKeydown; cbn -[focus takesFocus];
    rewrite A, Nat.eqb_refl; cbn -[focus takesFocus]; unfold focus;
    (split; [reflexivity|]);
    destruct (takesFocus _ (after h)); [reflexivity | exact A | reflexivity | exact A].
Qed.

Lemma open_traps_focus_witness :
  activeElement openedState = Some 7%nat
  /\ activeElement
       (openLightbox "b.jpg" "photo" 1 fourPics
          (with_lightbox
             (Some (mkLightboxEl false true false (Some false) [7%nat; 8%nat] [] "" [7%nat]))
             (st demoPage)))
     = None.
Proof.
  split.
  - apply (open_traps_focus "b.jpg" "photo" 1 fourPics (st demoPage)
             (mkLightboxEl false true false (Some false) [7%nat] [] "" [])
             (mkImageEl "" "" "") "" 7%nat []); reflexivity.
  - apply (open_traps_focus "b.jpg" "photo" 1 fourPics
             (with_lightbox
                (Some (mkLightboxEl false true false (Some false) [7%nat; 8%nat] [] ""
                         [7%nat]))
                (st demoPage))
             (mkLightboxEl false true false (Some false) [7%nat; 8%nat] [] "" [7%nat])
             (mkImageEl "" "" "") "" 7%nat [8%nat]); reflexivity.
Defined.

(** * Beyond the claims *)

(** ** Walking through a list whose items all have an image *)

Lemma imaged_hasImage (photos : list PhotoItem) (index : Z) :
  forallb imaged photos = true ->
  0 <= index < len photos ->
  hasImage photos index = true.
Proof.
  intros A B. unfold hasImage, len in *.
  destruct (nth_error photos (Z.to_nat index)) as [item|] eqn:N.
  - rewrite forallb_forall in A. apply nth_error_In in N.
    exact (A item N).
  - apply nth_error_None in N. lia.
Qed.

Lemma navigateNext_cursor (s : State) (photos : list PhotoItem) :
  lightboxPhotos s = Some photos ->
  forallb imaged photos = true ->
  0 <= getCurrentIndex s < len photos ->
  lightboxPhotos (navigateNext s) = Some photos
  /\ getCurrentIndex (navigateNext s) = (getCurrentIndex s + 1) mod len photos.
Proof.
  intros P A B. destruct (navigateNext_frame s) as (F & _).
  split; [now rewrite F|].
  unfold navigateNext. rewrite P.
  replace (len photos =? 0) with false by lia. cbv zeta.
  fold (getCurrentIndex s).
  set (c := getCurrentIndex s) in *. set (n := len photos) in *.
  destruct (Z.ltb_spec c (n - 1)).
  - rewrite Z.mod_small by lia.
    apply (goto_sets_cursor s photos (c + 1) P); [fold n; lia|].
    apply imaged_hasImage; [exact A | fold n; lia].
  - replace (c + 1) with n by lia. rewrite Z.mod_same by lia.
    apply (goto_sets_cursor s photos 0 P); [fold n; lia|].
    apply imaged_hasImage; [exact A | fold n; lia].
Qed.

Lemma navigatePrevious_cursor (s : State) (photos : list PhotoItem) :
  lightboxPhotos s = Some photos ->
  forallb imaged photos = true ->
  0 <= getCurrentIndex s < len photos ->
  lightboxPhotos (navigatePrevious s) = Some photos
  /\ getCurrentIndex (navigatePrevious s) = (getCurrentIndex s - 1) mod len photos.
Proof.
  intros P A B. destruct (navigatePrevious_frame s) as (F & _).
  split; [now rewrite F|].
  unfold navigatePrevious. rewrite P.
  replace (len photos =? 0) with false by lia. cbv zeta.
  fold (getCurrentIndex s).
  set (c := getCurrentIndex s) in *. set (n := len photos) in *.
  destruct (Z.ltb_spec 0 c).
  - rewrite Z.mod_small by lia.
    apply (goto_sets_cursor s photos (c - 1) P); [fold n; lia|].
    apply imaged_hasImage; [exact A | fold n; lia].
  - replace (c - 1) with (-1) by lia.
    replace ((-1) mod n) with (n - 1).
    + apply (goto_sets_cursor s photos (n - 1) P); [fold n; lia|].
      apply imaged_hasImage; [exact A | fold n; lia].
    + apply (Z.mod_unique (-1) n (-1) (n - 1)); lia.
Qed.

Lemma next_iterated (k : nat) (s : State) (photos : list PhotoItem) :
  lightboxPhotos s = Some photos ->
  forallb imaged photos = true ->
  0 <= getCurrentIndex s < len photos ->
  lightboxPhotos (Nat.iter k navigateNext s) = Some photos
  /\ getCurrentIndex (Nat.iter k navigateNext s)
     = (getCurrentIndex s + Z.of_nat k) mod len photos.
Proof.
  intros P A B. induction k as [|k [IP IC]].
  - simpl. split; [exact P|]. rewrite Z.add_0_r, Z.mod_small; lia.
  - change (Nat.iter (S k) navigateNext s)
      with (navigateNext (Nat.iter k navigateNext s)).
    assert (IB : 0 <= getCurrentIndex (Nat.iter k navigateNext s) < len photos).
    { rewrite IC. apply Z.mod_pos_bound. lia. }
    destruct (navigateNext_cursor _ photos IP A IB) as [NP NC].
    split; [exact NP|]. rewrite NC, IC.
    rewrite Zplus_mod_idemp_l. f_equal. lia.
Qed.

Lemma previous_iterated (k : nat) (s : State) (photos : list PhotoItem) :
  lightboxPhotos s = Some photos ->
  forallb imaged photos = true ->
  0 <= getCurrentIndex s < len photos ->
  lightboxPhotos (Nat.iter k navigatePrevious s) = Some photos
  /\ getCurrentIndex (Nat.iter k navigatePrevious s)
     = (getCurrentIndex s - Z.of_nat k) mod len photos.
Proof.
  intros P A B. induction k as [|k [IP IC]].
  - simpl. split; [exact P|]. rewrite Z.sub_0_r, Z.mod_small; lia.
  - change (Nat.iter (S k) navigatePrevious s)
      with (navigatePrevious (Nat.iter k navigatePrevious s)).
    assert (IB : 0 <= getCurrentIndex (Nat.iter k navigatePrevious s) < len photos).
    { rewrite IC. apply Z.mod_pos_bound. lia. }
    destruct (navigatePrevious_cursor _ photos IP A IB) as [NP NC].
    split; [exact NP|]. rewrite NC, IC.
    rewrite Zminus_mod_idemp_l. f_equal. lia.
Qed.

(** X5: Over a list whose items all have an image, with the cursor c in
    bounds, k calls of [next()] leave the cursor at (c + k) mod n and k
    calls of [previous()] at (c - k) mod n. *)
Theorem repeated_navigation (k : nat) (s : State) (photos : list PhotoItem) :
  lightboxPhotos s = Some photos ->
  forallb imaged photos = true ->
  0 <= getCurrentIndex s < len photos ->
  getCurrentIndex (Nat.iter k navigateNext s)
    = (getCurrentIndex s + Z.of_nat k) mod len photos
  /\ getCurrentIndex (Nat.iter k navigatePrevious s)
     = (getCurrentIndex s - Z.of_nat k) mod len photos.
Proof.
  intros P A B. split.
  - apply (next_iterated k s photos P A B).
  - apply (previous_iterated k s photos P A B).
Qed.

Lemma repeated_navigation_witness :
  getCurrentIndex (Nat.iter 6 navigateNext openedState) = 3
  /\ getCurrentIndex (Nat.iter 6 navigatePrevious openedState) = 3.
Proof.
  assert (B : 0 <= getCurrentIndex openedState < len fourPics).
  { change (0 <= 1 < 4). lia. }
  exact (repeated_navigation 6 openedState fourPics eq_refl eq_refl B).
Defined.

(** X6: Under the same conditions [previous()] undoes [next()] and [next()]
    undoes [previous()], and as many [next()] (or [previous()]) as there
    are items bring the cursor back to where it was. *)
Theorem navigation_round_trips (s : State) (photos : list PhotoItem) :
  lightboxPhotos s = Some photos ->
  forallb imaged photos = true ->
  0 <= getCurrentIndex s < len photos ->
  getCurrentIndex (navigatePrevious (navigateNext s)) = getCurrentIndex s
  /\ getCurrentIndex (navigateNext (navigatePrevious s)) = getCurrentIndex s
  /\ getCurrentIndex (Nat.iter (length photos) navigateNext s) = getCurrentIndex s
  /\ getCurrentIndex (Nat.iter (length photos) navigatePrevious s) = getCurrentIndex s.
Proof.
  intros P A B.
  assert (N : 0 < len photos) by lia.
  destruct (navigateNext_cursor s photos P A B) as [NP NC].
  destruct (navigatePrevious_cursor s photos P A B) as [PP PC].
  assert (NB : 0 <= getCurrentIndex (navigateNext s) < len photos)
    by (rewrite NC; apply Z.mod_pos_bound; lia).
  assert (PB : 0 <= getCurrentIndex (navigatePrevious s) < len photos)
    by (rewrite PC; apply Z.mod_pos_bound; lia).
  destruct (navigatePrevious_cursor _ photos NP A NB) as [_ E1].
  destruct (navigateNext_cursor _ photos PP A PB) as [_ E2].
  split; [|split; [|split]].
  - rewrite E1, NC, Zminus_mod_idemp_l.
    replace (getCurrentIndex s + 1 - 1) with (getCurrentIndex s) by lia.
    apply Z.mod_small, B.
  - rewrite E2, PC, Zplus_mod_idemp_l.
    replace (getCurrentIndex s - 1 + 1) with (getCurrentIndex s) by lia.
    apply Z.mod_small, B.
  - destruct (next_iterated (length photos) s photos P A B) as [_ ->].
    fold (len photos).
    rewrite <- (Z.mul_1_l (len photos)) at 1. rewrite Z.mod_add by lia.
    apply Z.mod_small, B.
  - destruct (previous_iterated (length photos) s photos P A B) as [_ ->].
    fold (len photos).
    replace (getCurrentIndex s - len photos)
      with (getCurrentIndex s + (-1) * len photos) by lia.
    rewrite Z.mod_add by lia. apply Z.mod_small, B.
Qed.

Lemma navigation_round_trips_witness :
  getCurrentIndex (navigatePrevious (navigateNext lastState)) = 3
  /\ getCurrentIndex (navigateNext (navigatePrevious lastState)) = 3
  /\ getCurrentIndex (Nat.iter 4 navigateNext lastState) = 3
  /\ getCurrentIndex (Nat.iter 4 navigatePrevious lastState) = 3.
Proof.
  assert (B : 0 <= getCurrentIndex lastState < len fourPics).
  { change (0 <= 3 < 4). lia. }
  exact (navigation_round_trips lastState fourPics eq_refl eq_refl B).
Defined.

(** ** Lightboxes opened by a click on the gallery *)

Lemma sourced_imaged (item : PhotoItem) : sourced item = true -> imaged item = true.
Proof. unfold sourced, imaged. destruct (item_img item); [reflexivity | discriminate]. Qed.

Lemma viewableItems_sourced (gallery : list PhotoItem) :
  forallb sourced (viewableItems gallery) = true.
Proof.
  apply forallb_forall. intros item H. apply filter_In in H. tauto.
Qed.

Lemma forallb_sourced_imaged (photos : list PhotoItem) :
  forallb sourced photos = true -> forallb imaged photos = true.
Proof.
  rewrite !forallb_forall. intros H item I. apply sourced_imaged, H, I.
Qed.

Lemma photoClick_open (photoItem : PhotoItem) (gallery : list PhotoItem) (s : State)
    (img : Img) :
  item_img photoItem = Some img ->
  photoClick (Some photoItem) gallery s =
    openLightbox (sourceOf img) (captionOf img)
      (indexOf photoItem (viewableItems gallery) 0) (viewableItems gallery) s.
Proof. intro I. unfold photoClick. rewrite I. reflexivity. Qed.

(** [indexOf] finds the first element with the identity looked for. *)
Lemma indexOf_found (photoItem : PhotoItem) (items : list PhotoItem) :
  forall from,
    (exists item, In item items /\ item_id item = item_id photoItem) ->
    from <= indexOf photoItem items from < from + len items
    /\ exists item,
         nth_error items (Z.to_nat (indexOf photoItem items from - from)) = Some item
         /\ item_id item = item_id photoItem.
Proof.
  unfold len. induction items as [|first rest IH]; intros from [item [I E]];
    [destruct I|].
  simpl indexOf. destruct (Nat.eqb (item_id first) (item_id photoItem)) eqn:Q.
  - split; [simpl length; lia|].
    exists first. rewrite Z.sub_diag. split; [reflexivity|].
    now apply Nat.eqb_eq.
  - destruct I as [-> | I].
    + apply Nat.eqb_neq in Q. contradiction.
    + destruct (IH (from + 1) (ex_intro _ item (conj I E))) as (B & found & N & F).
      split; [simpl length; lia|].
      exists found. split; [|exact F].
      replace (Z.to_nat (indexOf photoItem rest (from + 1) - from))
        with (S (Z.to_nat (indexOf photoItem rest (from + 1) - (from + 1)))) by lia.
      exact N.
Qed.

Lemma indexOf_missing (photoItem : PhotoItem) (items : list PhotoItem) :
  forall from,
    (forall item, In item items -> item_id item <> item_id photoItem) ->
    indexOf photoItem items from = -1.
Proof.
  induction items as [|first rest IH]; intros from H; [reflexivity|].
  simpl. destruct (Nat.eqb (item_id first) (item_id photoItem)) eqn:Q.
  - apply Nat.eqb_eq in Q. exfalso. apply (H first); [left; reflexivity | exact Q].
  - apply IH. intros item I. apply H. right. exact I.
Qed.

Lemma openLightbox_shows (src caption : string) (startIndex : Z)
    (photoItems : list PhotoItem) (s : State)
    (lb : LightboxEl) (el : ImageEl) (c : string) :
  lightbox s = Some lb -> lightboxImage s = Some el -> lightboxCaption s = Some c ->
  let s' := openLightbox src caption startIndex photoItems s in
  lightboxImage s' = Some (mkImageEl src caption (el_opacity el))
  /\ lightboxCaption s' = Some caption
  /\ bodyOverflow s' = "hidden".
Proof.
  intros L I C. unfold openLightbox. rewrite L, I, C. cbv zeta.
  rewrite preloadAdjacentImages_links. unfold trapFocus. simpl.
  destruct (focusable lb); simpl; auto.
  unfold focus. destruct (takesFocus _ _); simpl; auto.
Qed.

(** X7: A click on a gallery item that contains an image opens the lightbox
    on that image's lightbox source and caption, and stores exactly the
    gallery items that have an image with a source, in gallery order; so
    every stored item has an image, and [goto(i)] followed by
    [getCurrentIndex()] returns i for every i in [0, length). *)
Theorem click_stores_viewable_items (photoItem : PhotoItem) (gallery : list PhotoItem)
    (s : State) (img : Img) (lb : LightboxEl) (el : ImageEl) (c : string) :
  lightbox s = Some lb -> lightboxImage s = Some el -> lightboxCaption s = Some c ->
  item_img photoItem = Some img ->
  let s' := photoClick (Some photoItem) gallery s in
  isOpen s' = true
  /\ lightboxPhotos s' = Some (viewableItems gallery)
  /\ forallb sourced (viewableItems gallery) = true
  /\ lightboxImage s' = Some (mkImageEl (sourceOf img) (captionOf img) (el_opacity el))
  /\ lightboxCaption s' = Some (captionOf img)
  /\ forall i, 0 <= i < getTotalPhotos s' ->
               getCurrentIndex (navigateToIndex i s') = i.
Proof.
  intros L I C G. cbv zeta. rewrite (photoClick_open photoItem gallery s img G).
  destruct (openLightbox_stores (sourceOf img) (captionOf img)
              (indexOf photoItem (viewableItems gallery) 0) (viewableItems gallery)
              s lb el c L I C) as (P & _ & O & _).
  destruct (openLightbox_shows (sourceOf img) (captionOf img)
              (indexOf photoItem (viewableItems gallery) 0) (viewableItems gallery)
              s lb el c L I C) as (SI & SC & _).
  split; [exact O|]. split; [exact P|].
  split; [apply viewableItems_sourced|].
  split; [exact SI|]. split; [exact SC|].
  intros i B. unfold getTotalPhotos in B. rewrite P in B.
  apply (goto_sets_cursor _ (viewableItems gallery) i P B).
  apply imaged_hasImage; [|exact B].
  apply forallb_sourced_imaged, viewableItems_sourced.
Qed.

Lemma click_stores_viewable_items_witness :
  lightboxPhotos (photoClick (Some (pic 3 "d.jpg")) mixedGallery (st demoPage))
    = Some [pic 0 "a.jpg"; pic 3 "d.jpg"]
  /\ getCurrentIndex
       (navigateToIndex 0 (photoClick (Some (pic 3 "d.jpg")) mixedGallery (st demoPage)))
     = 0.
Proof.
  destruct (click_stores_viewable_items (pic 3 "d.jpg") mixedGallery (st demoPage)
              (mkImg None "d.jpg" None "photo")
              (mkLightboxEl false true false (Some false) [7%nat] [] "" [])
              (mkImageEl "" "" "") "" eq_refl eq_refl eq_refl eq_refl)
    as (_ & P & _ & _ & _ & G).
  split; [exact P|]. apply G. change (0 <= 0 < 2). lia.
Defined.

Lemma unique_ids (gallery : list PhotoItem) :
  NoDup (map item_id gallery) ->
  forall x y, In x gallery -> In y gallery -> item_id x = item_id y -> x = y.
Proof.
  induction gallery as [|first rest IH]; intros D x y X Y E; [destruct X|].
  simpl in D. inversion D as [|? ? N D']; subst.
  destruct X as [-> | X], Y as [-> | Y].
  - reflexivity.
  - exfalso. apply N. rewrite E. now apply in_map.
  - exfalso. apply N. rewrite <- E. now apply in_map.
  - now apply IH.
Qed.

(** X8: When the clicked item is in the gallery (a list of distinct
    elements) and has a source, the cursor the click leaves is in
    [0, length) and the stored item under it is the clicked element.  When the clicked item has an image but no source it
    is not in the stored list, and the lightbox opens with cursor -1. *)
Theorem click_cursor (photoItem : PhotoItem) (gallery : list PhotoItem)
    (s : State) (img : Img) (lb : LightboxEl) (el : ImageEl) (c : string) :
  lightbox s = Some lb -> lightboxImage s = Some el -> lightboxCaption s = Some c ->
  item_img photoItem = Some img ->
  In photoItem gallery ->
  NoDup (map item_id gallery) ->
  let s' := photoClick (Some photoItem) gallery s in
  (sourced photoItem = true ->
   cursorInBounds s'
   /\ nth_error (viewableItems gallery) (Z.to_nat (getCurrentIndex s')) = Some photoItem)
  /\ (sourced photoItem = false ->
      isOpen s' = true /\ getCurrentIndex s' = -1 /\ ~ cursorInBounds s').
Proof.
  intros L I C G M D.
  assert (U : forall item, In item gallery ->
                           item_id item = item_id photoItem -> item = photoItem).
  { intros item H Q. exact (unique_ids gallery D item photoItem H M Q). }
  cbv zeta. rewrite (photoClick_open photoItem gallery s img G).
  destruct (openLightbox_stores (sourceOf img) (captionOf img)
              (indexOf photoItem (viewableItems gallery) 0) (viewableItems gallery)
              s lb el c L I C) as (P & X & O & _).
  unfold cursorInBounds, getCurrentIndex. rewrite P, X, or_zero_some.
  split; intro S.
  - assert (E : exists item, In item (viewableItems gallery)
                             /\ item_id item = item_id photoItem).
    { exists photoItem. split; [|reflexivity]. apply filter_In. auto. }
    destruct (indexOf_found photoItem (viewableItems gallery) 0 E)
      as (B & found & N & F).
    rewrite Z.sub_0_r in N. split; [lia|].
    rewrite N. f_equal. apply U; [|exact F].
    apply nth_error_In in N. apply filter_In in N. tauto.
  - split; [exact O|].
    assert (E : indexOf photoItem (viewableItems gallery) 0 = -1).
    { apply indexOf_missing. intros item H Q. apply filter_In in H.
      destruct H as [H V]. rewrite (U item H Q) in V. congruence. }
    rewrite E. split; [reflexivity | lia].
Qed.

Lemma click_cursor_witness :
  (cursorInBounds (photoClick (Some (pic 3 "d.jpg")) mixedGallery (st demoPage))
   /\ nth_error (viewableItems mixedGallery)
        (Z.to_nat (getCurrentIndex
                     (photoClick (Some (pic 3 "d.jpg")) mixedGallery (st demoPage))))
      = Some (pic 3 "d.jpg"))
  /\ getCurrentIndex (photoClick (Some (unsourced 2)) mixedGallery (st demoPage)) = -1.
Proof.
  assert (D : NoDup (map item_id mixedGallery)).
  { simpl. repeat constructor; simpl; intuition discriminate. }
  split.
  - apply (proj1 (click_cursor (pic 3 "d.jpg") mixedGallery (st demoPage)
                    (mkImg None "d.jpg" None "photo")
                    (mkLightboxEl false true false (Some false) [7%nat] [] "" [])
                    (mkImageEl "" "" "") "" eq_refl eq_refl eq_refl eq_refl
                    ltac:(simpl; auto) D)).
    reflexivity.
  - apply (proj2 (click_cursor (unsourced 2) mixedGallery (st demoPage)
                    (mkImg None "" (Some "no file") "")
                    (mkLightboxEl false true false (Some false) [7%nat] [] "" [])
                    (mkImageEl "" "" "") "" eq_refl eq_refl eq_refl eq_refl
                    ltac:(simpl; auto) D)).
    reflexivity.
Defined.

(** ** Invariants of the page as a whole *)

Lemma nav_fields_keep (Q : option (list PhotoItem) -> option Z -> Prop) :
  let P := fun s => Q (lightboxPhotos s) (lightboxCurrentIndex s) in
  (forall index s, P s -> P (navigateToIndex index s)) ->
  forall (p : Page) (ev : Event), isOpening ev = false -> P (st p) -> P (st (step p ev)).
Proof.
  intros P G p ev. apply keeps_step.
  - exact G.
  - intros s H. unfold P. destruct (closeLightbox_frame s) as (A & B & _).
    rewrite A, B. exact H.
  - intros a s H. exact H.
  - intros v s H. exact H.
  - intros t s H. unfold P. destruct (runTimer_frame t s) as (A & B).
    rewrite A, B. exact H.
Qed.

Lemma cursorOk_goto (index : Z) (s : State) : cursorOk s -> cursorOk (navigateToIndex index s).
Proof.
  unfold cursorOk, getCurrentIndex.
  destruct (navigateToIndex_frame index s) as (P & _). rewrite P.
  destruct (lightboxPhotos s) as [photos|] eqn:E; [|auto].
  rewrite (navigateToIndex_cursor index s photos E).
  destruct ((0 <=? index) && (index <? len photos) && hasImage photos index) eqn:G;
    [|auto].
  intros _. rewrite or_zero_some.
  apply andb_prop in G. destruct G as [G _]. apply andb_prop in G. lia.
Qed.

Lemma openLightbox_cases (src caption : string) (startIndex : Z)
    (photoItems : list PhotoItem) (s : State) :
  openLightbox src caption startIndex photoItems s = s
  \/ (lightboxPhotos (openLightbox src caption startIndex photoItems s) = Some photoItems
      /\ lightboxCurrentIndex (openLightbox src caption startIndex photoItems s)
         = Some startIndex).
Proof.
  destruct (lightbox s) as [lb|] eqn:L;
    [|left; apply openLightbox_without_elements; auto].
  destruct (lightboxImage s) as [el|] eqn:I;
    [|left; apply openLightbox_without_elements; auto].
  destruct (lightboxCaption s) as [c|] eqn:C;
    [|left; apply openLightbox_without_elements; auto].
  right.
  destruct (openLightbox_stores src caption startIndex photoItems s lb el c L I C)
    as (P & X & _).
  auto.
Qed.

Lemma cursorOk_step (p : Page) (ev : Event) :
  aimed ev -> cursorOk (st p) -> cursorOk (st (step p ev)).
Proof.
  intros A H. destruct (isOpening ev) eqn:O.
  - destruct ev; try discriminate; simpl in *.
    + destruct closest as [photoItem|]; [|exact H].
      destruct (item_img photoItem) as [img|] eqn:G; [|unfold photoClick; now rewrite G].
      rewrite (photoClick_open photoItem gallery (st p) img G).
      destruct (openLightbox_cases (sourceOf img) (captionOf img)
                  (indexOf photoItem (viewableItems gallery) 0) (viewableItems gallery)
                  (st p)) as [-> | [P X]]; [exact H|].
      unfold cursorOk, getCurrentIndex. rewrite P, X, or_zero_some.
      destruct A as [M S]; [discriminate|].
      assert (E : exists item, In item (viewableItems gallery)
                               /\ item_id item = item_id photoItem).
      { exists photoItem. split; [|reflexivity]. apply filter_In. auto. }
      destruct (indexOf_found photoItem (viewableItems gallery) 0 E) as (B & _).
      lia.
    + unfold api_open.
      destruct (openLightbox_cases src caption
                  (match index with Some i => i | None => 0 end)
                  (match photos with Some l => l | None => [] end) (st p))
        as [-> | [P X]]; [exact H|].
      unfold cursorOk, getCurrentIndex. rewrite P, X, or_zero_some. exact A.
  - revert O H.
    apply (nav_fields_keep
             (fun photos index =>
                match photos with
                | Some l => 0 <= or_zero index < len l
                | None => True
                end)).
    exact cursorOk_goto.
Qed.

Lemma cursorOk_run (evs : list Event) :
  Forall aimed evs -> forall p, cursorOk (st p) -> cursorOk (st (run p evs)).
Proof.
  induction 1 as [|ev rest Aev _ IH]; intros p H; [exact H|].
  apply (IH (step p ev)), cursorOk_step; assumption.
Qed.

(** X9: The invariant of the specification holds along every run in which
    each opening is well aimed (a click on a gallery item that has a
    source, an API call with a start index inside its list): whenever the
    overlay is open the cursor is in [0, length). *)
Theorem aimed_runs_keep_cursor_in_bounds (lb : LightboxEl) (el : ImageEl)
    (caption : string) (evs : list Event) :
  Forall aimed evs ->
  let s := st (run (initialPage lb el caption) evs) in
  isOpen s = true -> cursorInBounds s.
Proof.
  intros A s O.
  assert (S : storedWhenOpen s).
  { apply storedWhenOpen_run. unfold storedWhenOpen. simpl. discriminate. }
  assert (K : cursorOk s) by (apply (cursorOk_run evs A); exact I).
  specialize (S O). unfold cursorOk in K. unfold cursorInBounds.
  destruct (lightboxPhotos s); [exact K | congruence].
Qed.

Lemma aimed_runs_keep_cursor_in_bounds_witness :
  cursorInBounds
    (st (run demoPage
           [Click (Some (pic 3 "d.jpg")) mixedGallery; ApiNext; ApiNext;
            KeyDown (mkKeyboardEvent "End" false) true; TouchEnd; TimerFires 0])).
Proof.
  apply (aimed_runs_keep_cursor_in_bounds demoLightbox (mkImageEl "" "" "") ""
           [Click (Some (pic 3 "d.jpg")) mixedGallery; ApiNext; ApiNext;
            KeyDown (mkKeyboardEvent "End" false) true; TouchEnd; TimerFires 0]).
  - repeat (constructor; [simpl; intuition|]). constructor.
  - reflexivity.
Defined.

Lemma storedSourced_step (p : Page) (ev : Event) :
  fromPage ev -> storedSourced (st p) -> storedSourced (st (step p ev)).
Proof.
  intros A H. destruct (isOpening ev) eqn:O.
  - destruct ev; try discriminate; simpl in *; [|contradiction].
    destruct closest as [photoItem|]; [|exact H].
    destruct (item_img photoItem) as [img|] eqn:G; [|unfold photoClick; now rewrite G].
    rewrite (photoClick_open photoItem gallery (st p) img G).
    destruct (openLightbox_cases (sourceOf img) (captionOf img)
                (indexOf photoItem (viewableItems gallery) 0) (viewableItems gallery)
                (st p)) as [-> | [P X]]; [exact H|].
    unfold storedSourced. rewrite P. apply viewableItems_sourced.
  - revert O H.
    apply (nav_fields_keep
             (fun photos _ =>
                match photos with
                | Some l => forallb sourced l = true
                | None => True
                end)).
    intros index s H. unfold storedSourced.
    destruct (navigateToIndex_frame index s) as (P & _). rewrite P. exact H.
Qed.

Lemma storedSourced_run (evs : list Event) :
  Forall fromPage evs -> forall p, storedSourced (st p) -> storedSourced (st (run p evs)).
Proof.
  induction 1 as [|ev rest Aev _ IH]; intros p H; [exact H|].
  apply (IH (step p ev)), storedSourced_step; assumption.
Qed.

(** X10: As long as the lightbox is opened from the page only (never through
    [lightboxAPI.open] with a list of the caller's own), the stored list
    holds only items with an image and a source, so in every state reached
    [goto(i)] followed by [getCurrentIndex()] returns i for every i in
    [0, length). *)
Theorem page_runs_reach_every_index (lb : LightboxEl) (el : ImageEl)
    (caption : string) (evs : list Event) :
  Forall fromPage evs ->
  let s := st (run (initialPage lb el caption) evs) in
  storedSourced s
  /\ forall i, 0 <= i < getTotalPhotos s -> getCurrentIndex (navigateToIndex i s) = i.
Proof.
  intros A s.
  assert (K : storedSourced s) by (apply (storedSourced_run evs A); exact I).
  split; [exact K|].
  intros i B. unfold storedSourced in K. unfold getTotalPhotos in B.
  destruct (lightboxPhotos s) as [photos|] eqn:P; [|lia].
  apply (goto_sets_cursor s photos i P B).
  apply imaged_hasImage; [|exact B].
  apply forallb_sourced_imaged, K.
Qed.

Lemma page_runs_reach_every_index_witness :
  getCurrentIndex
    (navigateToIndex 1
       (st (run demoPage [Click (Some (pic 0 "a.jpg")) mixedGallery; Close; TimerFires 1])))
  = 1.
Proof.
  apply (page_runs_reach_every_index demoLightbox (mkImageEl "" "" "") ""
           [Click (Some (pic 0 "a.jpg")) mixedGallery; Close; TimerFires 1]).
  - repeat (constructor; [exact I|]). constructor.
  - change (0 <= 1 < 2). lia.
Defined.

Lemma close_frame_open (s : State) :
  isOpen s = true ->
  exists lb,
    lightbox (closeLightbox s) = Some lb
    /\ timers (closeLightbox s) = timers s ++ [(getAnimationDuration s, Hide)]
    /\ lightboxImage (closeLightbox s) = lightboxImage s
    /\ lightboxCaption (closeLightbox s) = lightboxCaption s.
Proof.
  unfold isOpen, closeLightbox.
  destruct (lightbox s) as [lb|] eqn:L; [|discriminate].
  intro V. rewrite V. cbv zeta. unfold setTimeout, getAnimationDuration.
  simpl. rewrite L.
  destruct (lastFocusedPhoto s) eqn:F; simpl; [|eexists; auto].
  unfold focus. destruct (takesFocus _ _); simpl; eexists; auto.
Qed.

Lemma openLightbox_timers (src caption : string) (startIndex : Z)
    (photoItems : list PhotoItem) (s : State)
    (lb : LightboxEl) (el : ImageEl) (c : string) :
  lightbox s = Some lb -> lightboxImage s = Some el -> lightboxCaption s = Some c ->
  let s' := openLightbox src caption startIndex photoItems s in
  timers s' = timers s ++ [(10, FadeIn)]
  /\ exists lb', lightbox s' = Some lb'.
Proof.
  intros L I C. unfold openLightbox. rewrite L, I, C. cbv zeta.
  rewrite preloadAdjacentImages_links. unfold trapFocus. simpl.
  destruct (focusable lb); simpl; eauto.
  unfold focus. destruct (takesFocus _ _); simpl; eauto.
Qed.

(** ** What a successful [goto] shows *)

(** X11: A [goto] that passes its guards, with the image and caption elements
    in place: the caption element shows the item's caption at once, the
    image is faded out and swapped 150 ms later for the item's lightbox
    source (falling back to [src]) with the caption as [alt], and the
    position is announced as "Image i+1 of n: caption" in a live region
    that is removed after a second. *)
Theorem goto_shows_target (s : State) (photos : list PhotoItem) (i : Z)
    (item : PhotoItem) (img : Img) (el : ImageEl) (c : string) :
  lightboxPhotos s = Some photos ->
  0 <= i < len photos ->
  nth_error photos (Z.to_nat i) = Some item ->
  item_img item = Some img ->
  lightboxImage s = Some el ->
  lightboxCaption s = Some c ->
  let s' := navigateToIndex i s in
  let swap := SwapImage (sourceOf img) (captionOf img) in
  let message := announcement i photos (captionOf img) in
  lightboxCaption s' = Some (captionOf img)
  /\ lightboxImage s' = Some (mkImageEl (el_src el) (el_alt el) "0")
  /\ timers s' = timers s ++ [(150, swap); (1000, RemoveAnnouncement message)]
  /\ liveRegions s' = liveRegions s ++ [message]
  /\ lightboxImage (stateOf (runTimer swap s'))
     = Some (mkImageEl (sourceOf img) (captionOf img) "1").
Proof.
  intros P B N G I C. cbv zeta. unfold navigateToIndex. rewrite P.
  replace ((i <? 0) || (len photos <=? i)) with false
    by (symmetry; apply orb_false_iff; lia).
  rewrite N, G, I. cbv zeta. simpl lightboxCaption. rewrite C.
  rewrite preloadAdjacentImages_links.
  unfold announceToScreenReader, setTimeout, sourceOf, captionOf, announcement.
  simpl. rewrite <- app_assoc. simpl. repeat split; reflexivity.
Qed.

Lemma goto_shows_target_witness :
  lightboxCaption (navigateToIndex 3 openedState) = Some "photo"
  /\ lightboxImage (navigateToIndex 3 openedState) = Some (mkImageEl "b.jpg" "photo" "0")
  /\ timers (navigateToIndex 3 openedState)
     = timers openedState
       ++ [(150, SwapImage "d.jpg" "photo");
           (1000, RemoveAnnouncement "Image 4 of 4: photo")]
  /\ liveRegions (navigateToIndex 3 openedState)
     = liveRegions openedState ++ ["Image 4 of 4: photo"]
  /\ lightboxImage
       (stateOf (runTimer (SwapImage "d.jpg" "photo") (navigateToIndex 3 openedState)))
     = Some (mkImageEl "d.jpg" "photo" "1").
Proof.
  assert (B : 0 <= 3 < len fourPics) by (change (0 <= 3 < 4); lia).
  exact (goto_shows_target openedState fourPics 3 (pic 3 "d.jpg")
           (mkImg None "d.jpg" None "photo") (mkImageEl "b.jpg" "photo" "") "photo"
           eq_refl B eq_refl eq_refl eq_refl eq_refl).
Defined.

(** ** Re-opening before the hide callback has run *)

Lemma nth_error_middle {A : Type} (l : list A) (x : A) (r : list A) :
  nth_error (l ++ x :: r) (length l) = Some x.
Proof. induction l as [|y l IH]; [reflexivity | exact IH]. Qed.

(** X12: [close()] followed by [open()] before the hide callback of the close
    has run leaves that callback in the queue; when it runs it hides the
    overlay that was just opened: the overlay no longer counts as open,
    while page scroll stays disabled and the close-key listener stays
    registered. *)
Theorem stale_hide_closes_reopened (s : State) (src caption : string)
    (startIndex : Z) (photoItems : list PhotoItem) (el : ImageEl) (c : string) :
  isOpen s = true ->
  lightboxImage s = Some el ->
  lightboxCaption s = Some c ->
  let reopened := openLightbox src caption startIndex photoItems (closeLightbox s) in
  let hidden := stateOf (fireTimer (length (timers s)) reopened) in
  isOpen reopened = true
  /\ nth_error (timers reopened) (length (timers s)) = Some (getAnimationDuration s, Hide)
  /\ isOpen hidden = false
  /\ bodyOverflow hidden = "hidden"
  /\ escapeListener hidden = true
  /\ lightboxPhotos hidden = Some photoItems.
Proof.
  intros O I C. cbv zeta.
  destruct (close_frame_open s O) as (lb & L & T & I' & C').
  rewrite I in I'. rewrite C in C'.
  destruct (openLightbox_stores src caption startIndex photoItems (closeLightbox s)
              lb el c L I' C') as (P & _ & O' & E).
  destruct (openLightbox_shows src caption startIndex photoItems (closeLightbox s)
              lb el c L I' C') as (_ & _ & B).
  destruct (openLightbox_timers src caption startIndex photoItems (closeLightbox s)
              lb el c L I' C') as (T' & lb' & L').
  assert (N : nth_error
                (timers (openLightbox src caption startIndex photoItems (closeLightbox s)))
                (length (timers s)) = Some (getAnimationDuration s, Hide)).
  { rewrite T', T, <- app_assoc. apply nth_error_middle. }
  split; [exact O'|]. split; [exact N|].
  unfold fireTimer. rewrite N. unfold runTimer, isOpen. simpl. rewrite L'. simpl.
  rewrite B, E, P. auto.
Qed.

Lemma stale_hide_closes_reopened_witness :
  isOpen (openLightbox "a.jpg" "photo" 0 fourPics (closeLightbox openedState)) = true
  /\ isOpen
       (stateOf
          (fireTimer 1
             (openLightbox "a.jpg" "photo" 0 fourPics (closeLightbox openedState))))
     = false
  /\ bodyOverflow
       (stateOf
          (fireTimer 1
             (openLightbox "a.jpg" "photo" 0 fourPics (closeLightbox openedState))))
     = "hidden".
Proof.
  destruct (stale_hide_closes_reopened openedState "a.jpg" "photo" 0 fourPics
              (mkImageEl "b.jpg" "photo" "") "photo" eq_refl eq_refl eq_refl)
    as (O & _ & H & B & _).
  split; [exact O|]. split; [exact H | exact B].
Defined.

(** ** What is never undone *)

Lemma navigateToIndex_links (index : Z) (s : State) :
  exists extra, headLinks (navigateToIndex index s) = headLinks s ++ extra.
Proof.
  unfold navigateToIndex.
  assert (Same : exists extra, headLinks s = headLinks s ++ extra)
    by (exists []; now rewrite app_nil_r).
  destruct (lightboxPhotos s) as [photos|]; [|exact Same].
  destruct ((index <? 0) || (len photos <=? index)); [exact Same|].
  destruct (nth_error photos (Z.to_nat index)) as [photoItem|]; [|exact Same].
  destruct (item_img photoItem) as [img|]; [|exact Same].
  cbv zeta. rewrite preloadAdjacentImages_links.
  destruct (lightboxImage s), (lightboxCaption s) eqn:C; simpl; rewrite ?C; simpl;
    eexists; reflexivity.
Qed.

Lemma openLightbox_grows (src caption : string) (startIndex : Z)
    (photoItems : list PhotoItem) (s : State) :
  let s' := openLightbox src caption startIndex photoItems s in
  (exists extra, headLinks s' = headLinks s ++ extra)
  /\ (exists extra, tabListeners s' = tabListeners s ++ extra).
Proof.
  cbv zeta. unfold openLightbox, tabListeners.
  assert (Same : forall A (l : list A), exists extra, l = l ++ extra)
    by (intros A l; exists []; now rewrite app_nil_r).
  destruct (lightbox s) as [lb|] eqn:L; [|rewrite L; auto].
  destruct (lightboxImage s) as [el|]; [|rewrite L; auto].
  destruct (lightboxCaption s) as [c|]; [|rewrite L; auto].
  cbv zeta. rewrite preloadAdjacentImages_links. unfold trapFocus. simpl.
  destruct (focusable lb); simpl; [split; eauto|].
  unfold focus. destruct (takesFocus _ _); simpl; split; eauto.
Qed.

Lemma closeLightbox_keeps (s : State) :
  headLinks (closeLightbox s) = headLinks s
  /\ tabListeners (closeLightbox s) = tabListeners s.
Proof.
  unfold closeLightbox, tabListeners.
  destruct (lightbox s) as [lb|] eqn:L; [|rewrite L; auto].
  destruct (cls_visible lb); simpl; [|rewrite L; auto].
  destruct (lastFocusedPhoto s); simpl; auto.
  unfold focus. destruct (takesFocus _ _); simpl; auto.
Qed.

Lemma runTimer_keeps (t : Timer) (s : State) :
  headLinks (stateOf (runTimer t s)) = headLinks s
  /\ tabListeners (stateOf (runTimer t s)) = tabListeners s.
Proof.
  unfold tabListeners. destruct t; simpl.
  - destruct (lightbox s) as [lb|] eqn:L; [destruct (flex lb)|]; simpl; rewrite ?L; auto.
  - destruct (lightbox s) as [lb|] eqn:L; simpl; rewrite ?L; auto.
  - destruct (lightboxImage s); simpl; auto.
  - auto.
Qed.

(** X13: Nothing the page does ever removes a preload link from the head or a
    Tab listener from the overlay: after any event both lists are the
    lists before it, possibly extended.  In particular [close()] removes
    neither, so links and listeners accumulate over repeated openings. *)
Theorem links_and_listeners_only_grow (p : Page) (ev : Event) :
  (exists extra, headLinks (st (step p ev)) = headLinks (st p) ++ extra)
  /\ (exists extra, tabListeners (st (step p ev)) = tabListeners (st p) ++ extra).
Proof.
  destruct (isOpening ev) eqn:O.
  - destruct ev; try discriminate; simpl.
    + unfold photoClick.
      assert (Same : forall A (l : list A), exists extra, l = l ++ extra)
        by (intros A l; exists []; now rewrite app_nil_r).
      destruct closest as [photoItem|]; [|split; apply Same].
      destruct (item_img photoItem); [|split; apply Same].
      apply openLightbox_grows.
    + apply openLightbox_grows.
  - pose (Q := fun s =>
                 (exists extra, headLinks s = headLinks (st p) ++ extra)
                 /\ (exists extra, tabListeners s = tabListeners (st p) ++ extra)).
    assert (Q0 : Q (st p)) by (split; exists []; now rewrite app_nil_r).
    apply (keeps_step Q); [| | | | | exact O | exact Q0]; unfold Q.
    + intros index s [[a A] [b B]].
      destruct (navigateToIndex_links index s) as [x X].
      destruct (navigateToIndex_frame index s) as (_ & L & _).
      split.
      * exists (a ++ x). rewrite X, A, app_assoc. reflexivity.
      * exists b. unfold tabListeners in *. rewrite L. exact B.
    + intros s [[a A] [b B]]. destruct (closeLightbox_keeps s) as [H T].
      rewrite H, T. eauto.
    + intros a s H. exact H.
    + intros v s H. exact H.
    + intros t s [[a A] [b B]]. destruct (runTimer_keeps t s) as [H T].
      rewrite H, T. eauto.
Qed.

(** ** Keys the lightbox does not handle *)

Lemma isNavigationKey_false (k : string) :
  isNavigationKey k = false ->
  String.eqb k "ArrowLeft" = false /\ String.eqb k "ArrowRight" = false
  /\ String.eqb k "Home" = false /\ String.eqb k "End" = false
  /\ String.eqb k "Escape" = false.
Proof.
  unfold isNavigationKey, navigationKeys. simpl.
  rewrite !orb_false_iff. tauto.
Qed.

(** What the listeners of the lightbox do with a key other than Tab. *)
Lemma lightbox_keys (e : KeyboardEvent) (inside : bool) (s : State) :
  String.eqb (key e) "Tab" = false ->
  defaultPrevented (keydown e inside s) = isOpen s && isNavigationKey (key e)
  /\ (isNavigationKey (key e) = false -> keydown e inside s = mkHandled false false s).
Proof.
  intro T. rewrite keydown_document_only by exact T. cbv zeta.
  assert (D : defaultPrevented (handleLightboxKeydown e s)
              = isOpen s && isNavigationKey (key e)).
  { unfold handleLightboxKeydown, isNavigationKey, navigationKeys.
    destruct (isOpen s); [|reflexivity]. simpl.
    destruct (String.eqb (key e) "ArrowLeft"); [reflexivity|].
    destruct (String.eqb (key e) "ArrowRight"); [reflexivity|].
    destruct (String.eqb (key e) "Home"); [reflexivity|].
    destruct (String.eqb (key e) "End"); [destruct (lightboxPhotos s); reflexivity|].
    destruct (String.eqb (key e) "Escape"); reflexivity. }
  split.
  - destruct (escapeListener s && escapeListener _); simpl; exact D.
  - intro K. destruct (isNavigationKey_false _ K) as (A & B & C & E & F).
    unfold handleLightboxKeydown, handleEscapeKey. rewrite A, B, C, E, F.
    destruct (negb (isOpen s)); simpl; destruct (escapeListener s); reflexivity.
Qed.

(** What the shortcut listener of [gallery.js] does with a key. *)
Lemma galleryKeydown_shortcut (e : KeyboardEvent) (c : KeyContext) :
  fst (galleryKeydown e c) = isShortcut e c
  /\ (snd (galleryKeydown e c) <> None <-> isShortcut e c = true)
  /\ (snd (galleryKeydown e c) = Some RetryInitialization -> key e = "r")
  /\ (snd (galleryKeydown e c) = Some InitRendering -> key e = "l").
Proof.
  unfold galleryKeydown, isShortcut.
  destruct (String.eqb (targetTagName c) "INPUT" || String.eqb (targetTagName c) "TEXTAREA").
  { simpl. repeat split; congruence. }
  destruct (String.eqb (key e) "r") eqn:R.
  { apply String.eqb_eq in R.
    destruct (ctrlKey c || metaKey c); simpl; repeat split; congruence. }
  destruct (String.eqb (key e) "l") eqn:K.
  { apply String.eqb_eq in K.
    destruct (ctrlKey c || metaKey c); simpl; repeat split; congruence. }
  simpl. repeat split; congruence.
Qed.

(** X14: For every key but Tab on the gallery page, whether the overlay
    is open or closed: the default action of the key is suppressed
    exactly when the overlay is open and the key is one of ArrowLeft,
    ArrowRight, Home, End, Escape, or when the key is r or l pressed with
    Ctrl or Cmd outside a text field; the latter, and only the latter,
    starts a retry of the initialisation (r) or a new rendering (l).  A
    key that is not one of the five leaves the state of the lightbox as
    it was, and one that is no shortcut either has no effect at all. *)
Theorem other_keys_pass_through (e : KeyboardEvent) (c : KeyContext) (inside : bool)
    (s : State) :
  String.eqb (key e) "Tab" = false ->
  let h := fst (pageKeydown e c inside s) in
  let started := snd (pageKeydown e c inside s) in
  defaultPrevented h = (isOpen s && isNavigationKey (key e)) || isShortcut e c
  /\ (started <> None <-> isShortcut e c = true)
  /\ (started = Some RetryInitialization -> key e = "r")
  /\ (started = Some InitRendering -> key e = "l")
  /\ (isNavigationKey (key e) = false -> after h = s /\ uncaught h = false)
  /\ (isNavigationKey (key e) = false -> isShortcut e c = false ->
      pageKeydown e c inside s = (mkHandled false false s, None)).
Proof.
  intro T. cbv zeta. unfold pageKeydown. cbn [fst snd defaultPrevented after uncaught].
  destruct (lightbox_keys e inside s T) as [D K].
  destruct (galleryKeydown_shortcut e c) as (G & S & R & L).
  split; [rewrite D, G; apply orb_comm|].
  split; [exact S|]. split; [exact R|]. split; [exact L|].
  split.
  - intro N. rewrite (K N). split; reflexivity.
  - intros N X. rewrite (K N), G, X.
    destruct (snd (galleryKeydown e c)) as [shortcut|] eqn:Q; [|reflexivity].
    exfalso. assert (Y : isShortcut e c = true) by (apply S; discriminate).
    congruence.
Qed.

Lemma other_keys_pass_through_witness :
  pageKeydown (mkKeyboardEvent "ArrowDown" false) (mkKeyContext false false "BODY")
              true openedState
  = (mkHandled false false openedState, None)
  /\ defaultPrevented
       (fst (pageKeydown (mkKeyboardEvent "r" false) (mkKeyContext true false "BODY")
                         true openedState))
     = true.
Proof.
  split.
  - destruct (other_keys_pass_through (mkKeyboardEvent "ArrowDown" false)
                (mkKeyContext false false "BODY") true openedState eq_refl)
      as (_ & _ & _ & _ & _ & K).
    exact (K eq_refl eq_refl).
  - destruct (other_keys_pass_through (mkKeyboardEvent "r" false)
                (mkKeyContext true false "BODY") true openedState eq_refl)
      as (D & _).
    exact D.
Defined.

(** ** Touch bookkeeping *)

Lemma touchend_twice (t : Touch) (s : State) :
  let '(t', s') := touchend t s in touchend t' s' = (t', s').
Proof.
  unfold touchend.
  destruct ((startX t =? 0) || (startY t =? 0)) eqn:Z0.
  - rewrite Z0. reflexivity.
  - reflexivity.
Qed.

(** X15: The outcome of a gesture does not depend on what earlier gestures
    left in the touch variables; a second release after it does nothing;
    and moves followed by a release, with no touch started since the
    variables were last reset, do nothing. *)
Theorem touch_state_does_not_leak (start : Z * Z) (moves : list (Z * Z))
    (t t' : Touch) (s : State) :
  st (gesture start moves (mkPage t s)) = st (gesture start moves (mkPage t' s))
  /\ run (gesture start moves (mkPage t s)) [TouchEnd] = gesture start moves (mkPage t s)
  /\ st (run (mkPage touchInit s) (map (fun m => TouchMove (Some m)) moves ++ [TouchEnd]))
     = s.
Proof.
  split; [|split].
  - rewrite !gesture_touchend. reflexivity.
  - rewrite gesture_touchend. cbv zeta. simpl st.
    pose proof (touchend_twice
                  (mkTouch (fst start) (snd start)
                           (fst (last moves start)) (snd (last moves start))) s) as E.
    destruct (touchend _ s) as [t1 s1]. simpl. rewrite E. reflexivity.
  - rewrite run_app, run_moves. reflexivity.
Qed.

(** ** Size of the preload window *)

Lemma preloadIndices_length (i : Z) (photoItems : list PhotoItem) :
  (length (preloadIndices i photoItems) <= 3)%nat.
Proof.
  unfold preloadIndices. simpl. rewrite Z.eqb_refl, andb_false_r.
  destruct ((0 <=? i - 1) && (i - 1 <? len photoItems) && negb (i - 1 =? i));
    destruct ((0 <=? i + 1) && (i + 1 <? len photoItems) && negb (i + 1 =? i));
    destruct ((0 <=? i + 2) && (i + 2 <? len photoItems) && negb (i + 2 =? i));
    simpl; lia.
Qed.

Lemma hintedIndices_hinted (i : Z) (photoItems : list PhotoItem) (j : Z) :
  In j (hintedIndices i photoItems) ->
  In j (preloadIndices i photoItems) /\ hintFor photoItems j <> None.
Proof.
  unfold hintedIndices. rewrite filter_In.
  destruct (hintFor photoItems j); intros [A B]; split; congruence.
Qed.

(** X16: One call of the preloader adds at most three links, never one for the
    current index, and none at all when the list has a single item and
    the current index is that item's. *)
Theorem preload_at_most_three (i : Z) (photoItems : list PhotoItem) (s : State) :
  (length (headLinks (preloadAdjacentImages i photoItems s))
   <= length (headLinks s) + 3)%nat
  /\ ~ In i (hintedIndices i photoItems)
  /\ (len photoItems = 1 -> i = 0 -> preloadAdjacentImages i photoItems s = s).
Proof.
  split; [|split].
  - rewrite preloadAdjacentImages_links. simpl. rewrite length_app.
    rewrite hrefsOf_length_hinted
      by (intros j H; apply (hintedIndices_hinted i photoItems j H)).
    pose proof (preloadIndices_length i photoItems) as B.
    pose proof (filter_length_le
                  (fun index =>
                     match hintFor photoItems index with Some _ => true | None => false end)
                  (preloadIndices i photoItems)) as F.
    unfold hintedIndices. lia.
  - intro H. apply hintedIndices_hinted in H. destruct H as [H _].
    apply preloadIndices_spec in H. lia.
  - intros N ->. rewrite preloadAdjacentImages_links.
    unfold hintedIndices, preloadIndices. rewrite N. simpl.
    rewrite app_nil_r. apply with_headLinks_same.
Qed.

Lemma preload_at_most_three_witness :
  preloadAdjacentImages 0 [pic 0 "a.jpg"] (st demoPage) = st demoPage.
Proof.
  apply (preload_at_most_three 0 [pic 0 "a.jpg"] (st demoPage)); reflexivity.
Defined.

(** ** The animation duration *)

Lemma getAnimationDuration_css (s s' : State) :
  durationCss s' = durationCss s -> getAnimationDuration s' = getAnimationDuration s.
Proof.
  unfold durationCss, getAnimationDuration.
  destruct (lightbox s'), (lightbox s); intro E; try discriminate; [|reflexivity].
  injection E as ->. reflexivity.
Qed.

Lemma durationCss_goto (index : Z) (s : State) :
  durationCss (navigateToIndex index s) = durationCss s.
Proof.
  unfold durationCss. destruct (navigateToIndex_frame index s) as (_ & L & _).
  now rewrite L.
Qed.

Lemma durationCss_close (s : State) : durationCss (closeLightbox s) = durationCss s.
Proof.
  unfold durationCss, closeLightbox.
  destruct (lightbox s) as [lb|] eqn:L; [|now rewrite L].
  destruct (cls_visible lb); simpl; [|now rewrite L].
  destruct (lastFocusedPhoto s); [|reflexivity].
  unfold focus. destruct (takesFocus _ _); reflexivity.
Qed.

Lemma durationCss_runTimer (t : Timer) (s : State) :
  durationCss (stateOf (runTimer t s)) = durationCss s.
Proof.
  unfold durationCss. destruct t; simpl.
  - destruct (lightbox s) as [lb|] eqn:L; [destruct (flex lb)|]; simpl; now rewrite ?L.
  - destruct (lightbox s) as [lb|] eqn:L; simpl; now rewrite ?L.
  - destruct (lightboxImage s); reflexivity.
  - reflexivity.
Qed.

Lemma durationCss_open (src caption : string) (startIndex : Z)
    (photoItems : list PhotoItem) (s : State) :
  durationCss (openLightbox src caption startIndex photoItems s) = durationCss s.
Proof.
  unfold durationCss, openLightbox.
  destruct (lightbox s) as [lb|] eqn:L; [|now rewrite L].
  destruct (lightboxImage s); [|now rewrite L].
  destruct (lightboxCaption s); [|now rewrite L].
  cbv zeta. rewrite preloadAdjacentImages_links. unfold trapFocus. simpl.
  destruct (focusable lb); [reflexivity|].
  unfold focus. destruct (takesFocus _ _); reflexivity.
Qed.

Lemma durationCss_step (p : Page) (ev : Event) :
  durationCss (st (step p ev)) = durationCss (st p).
Proof.
  destruct (isOpening ev) eqn:O.
  - destruct ev; try discriminate; simpl.
    + unfold photoClick. destruct closest as [photoItem|]; [|reflexivity].
      destruct (item_img photoItem); [apply durationCss_open | reflexivity].
    + apply durationCss_open.
  - apply (keeps_step (fun s => durationCss s = durationCss (st p)));
      [| | | | | exact O | reflexivity].
    + intros index s H. now rewrite durationCss_goto.
    + intros s H. now rewrite durationCss_close.
    + intros a s H. exact H.
    + intros v s H. exact H.
    + intros t s H. now rewrite durationCss_runTimer.
Qed.

Lemma durationCss_run (evs : list Event) :
  forall p, durationCss (st (run p evs)) = durationCss (st p).
Proof.
  induction evs as [|ev rest IH]; intro p; [reflexivity|].
  change (run p (ev :: rest)) with (run (step p ev) rest).
  rewrite IH. apply durationCss_step.
Qed.

(** X17: No event changes the animation duration; and when [initLightbox]
    runs under reduced motion with all four elements present, the
    duration is 0 from then on, so every [close()] of an open overlay
    queues its hide callback with no delay. *)
Theorem reduced_motion_hides_without_delay (closeButton : bool) (s s0 : State)
    (t : Touch) (evs : list Event) :
  initLightbox closeButton true s = (true, s0) ->
  let s' := st (run (mkPage t s0) evs) in
  getAnimationDuration s' = 0
  /\ (isOpen s' = true -> timers (closeLightbox s') = timers s' ++ [(0, Hide)]).
Proof.
  intros I s'.
  assert (D : getAnimationDuration s' = 0).
  { unfold s'. rewrite (getAnimationDuration_css s0) by apply durationCss_run.
    unfold initLightbox, initLightboxEvents in I.
    destruct (lightbox s) as [lb|]; [|discriminate].
    destruct (lightboxImage s); [|discriminate].
    destruct (lightboxCaption s); [|discriminate].
    destruct closeButton; [|discriminate].
    injection I as <-. reflexivity. }
  split; [exact D|].
  intro O. destruct (close_frame_open s' O) as (lb & _ & T & _).
  rewrite T, D. reflexivity.
Qed.

Lemma reduced_motion_hides_without_delay_witness :
  timers (closeLightbox
            (st (run (mkPage touchInit (snd (initLightbox true true (st demoPage))))
                     [ApiOpen "a.jpg" "photo" (Some 1) (Some fourPics)])))
  = [(10, FadeIn); (0, Hide)].
Proof.
  apply (reduced_motion_hides_without_delay true (st demoPage)
           (snd (initLightbox true true (st demoPage))) touchInit
           [ApiOpen "a.jpg" "photo" (Some 1) (Some fourPics)]);
    reflexivity.
Defined.

(** Along any run the animation duration stays what it was at the start. *)
Theorem duration_never_changes (p : Page) (evs : list Event) :
  getAnimationDuration (st (run p evs)) = getAnimationDuration (st p).
Proof. apply getAnimationDuration_css, durationCss_run. Qed.

(** *** Reading the duration back *)

Lemma digitsThenMs_tail (rest : string) (v : Z) :
  digitsThenMs ("ms" ++ rest)%string (Some v) = Some v.
Proof. simpl. destruct rest; reflexivity. Qed.

Ltac read_digit :=
  cbn -[Z.mul Z.add Z.sub Pos.mul Pos.add digit_of];
  match goal with
  | |- context [digit_of ?c] =>
      let r := eval vm_compute in (digit_of c) in
      change (digit_of c) with r
  end;
  cbv iota beta.

Ltac next_digit IH :=
  read_digit;
  match goal with
  | |- digitsThenMs _ (Some ?v) = Some (Zpos (Pos.of_uint_acc _ ?a)) =>
      replace v with (Zpos a) by lia; apply IH
  end.

Lemma digitsThenMs_acc (d : Decimal.uint) (rest : string) :
  forall acc : positive,
    digitsThenMs (DecimalString.NilEmpty.string_of_uint d ++ "ms" ++ rest)%string
                 (Some (Zpos acc))
    = Some (Zpos (Pos.of_uint_acc d acc)).
Proof.
  remember ("ms" ++ rest)%string as tail eqn:T.
  induction d; intro acc; try next_digit IHd.
  subst tail. apply digitsThenMs_tail.
Qed.

Ltac first_digit :=
  read_digit;
  match goal with
  | |- digitsThenMs _ (Some ?v) = Some (Zpos (Pos.of_uint_acc _ ?a)) =>
      replace v with (Zpos a) by lia; apply digitsThenMs_acc
  end.

Lemma digitsThenMs_zeros (d : Decimal.uint) (rest : string) :
  digitsThenMs (DecimalString.NilEmpty.string_of_uint d ++ "ms" ++ rest)%string (Some 0)
  = Some (Z.of_N (Pos.of_uint d)).
Proof.
  induction d; try first_digit.
  - apply digitsThenMs_tail.
  - read_digit. exact IHd.
Qed.

Lemma digitsThenMs_start (d : Decimal.uint) (rest : string) :
  d <> Decimal.Nil ->
  digitsThenMs (DecimalString.NilEmpty.string_of_uint d ++ "ms" ++ rest)%string None
  = Some (Z.of_N (Pos.of_uint d)).
Proof.
  destruct d; intro N; try first_digit; [contradiction|].
  read_digit. apply digitsThenMs_zeros.
Qed.

Lemma showZ_digits (n : Z) :
  0 <= n ->
  exists d, d <> Decimal.Nil
            /\ showZ n = DecimalString.NilEmpty.string_of_uint d
            /\ Z.of_N (Pos.of_uint d) = n.
Proof.
  intro N. destruct n as [|p|p]; [| |lia].
  - exists (Decimal.D0 Decimal.Nil). repeat split. discriminate.
  - exists (Pos.to_uint p). split; [apply DecimalPos.Unsigned.to_uint_nonnil|].
    split.
    + unfold showZ. simpl. unfold DecimalString.NilZero.string_of_uint.
      pose proof (DecimalPos.Unsigned.to_uint_nonnil p) as NN.
      destruct (Pos.to_uint p); [contradiction|..]; reflexivity.
    + rewrite DecimalPos.Unsigned.of_to. reflexivity.
Qed.

Lemma matchMs_skips (pre s : string) :
  noDigits pre = true -> matchMs (pre ++ s) = matchMs s.
Proof.
  induction pre as [|c pre IH]; intro N; [reflexivity|].
  simpl in N. destruct (digit_of c) eqn:D; [discriminate|].
  simpl. rewrite D. apply IH, N.
Qed.

Lemma digitsThenMs_nonneg (s : string) :
  forall acc v,
    match acc with Some a => 0 <= a | None => True end ->
    digitsThenMs s acc = Some v -> 0 <= v.
Proof.
  induction s as [|c s IH]; intros acc v A; cbn [digitsThenMs]; [discriminate|].
  destruct (digit_of c) as [d|] eqn:D.
  - apply IH. unfold digit_of in D.
    destruct ((48 <=? Z.of_nat (Ascii.nat_of_ascii c))
              && (Z.of_nat (Ascii.nat_of_ascii c) <=? 57)) eqn:R; [|discriminate].
    injection D as <-. apply andb_prop in R. cbv beta iota.
    destruct acc as [a|]; lia.
  - destruct acc as [a|]; [|discriminate].
    destruct (String.prefix "ms" (String c s)); [|discriminate].
    intros [= <-]. exact A.
Qed.

Lemma matchMs_nonneg (s : string) (v : Z) : matchMs s = Some v -> 0 <= v.
Proof.
  induction s as [|c s IH]; cbn [matchMs digitsThenMs].
  - discriminate.
  - destruct (digit_of c) as [d|] eqn:D.
    + destruct (digitsThenMs s _) as [w|] eqn:E.
      * intros [= <-]. revert E. apply digitsThenMs_nonneg.
        unfold digit_of in D.
        destruct ((48 <=? Z.of_nat (Ascii.nat_of_ascii c))
                  && (Z.of_nat (Ascii.nat_of_ascii c) <=? 57)) eqn:R; [|discriminate].
        injection D as <-. apply andb_prop in R. cbv beta iota. lia.
      * exact IH.
    + exact IH.
Qed.

Lemma nearestDouble_small (v : Z) : v < 2 ^ 53 -> nearestDouble v = Some v.
Proof.
  intro B. unfold nearestDouble.
  destruct (Z.ltb_spec v (2 ^ 53)); [reflexivity | lia].
Qed.

Lemma parseInt_small (v : Z) : v < 2 ^ 53 -> parseInt v = v.
Proof. intro B. unfold parseInt. now rewrite nearestDouble_small. Qed.

Lemma parseInt_nonneg (v : Z) : 0 <= v -> 0 <= parseInt v.
Proof.
  intro B. unfold parseInt, nearestDouble.
  destruct (v <? 2 ^ 53); [exact B|]. cbv zeta.
  match goal with |- context [if ?c then Some ?d else None] =>
    destruct c; [|exact B]; assert (D : 0 <= d); [|exact D] end.
  apply Z.shiftl_nonneg.
  assert (Q : 0 <= Z.shiftr v (Z.log2 v - 52)) by (apply Z.shiftr_nonneg; exact B).
  destruct (_ || _); lia.
Qed.

(** X18: The duration is never negative; it is 300 when the property is
    unset; and a property of the form [n ms] (the decimal writing of any
    n >= 0, possibly after characters that are not digits and before any
    other text) is read as [parseInt] reads those digits: as n itself
    when n is below 2^53, as the double nearest to n beyond, as far as
    there is one. *)
Theorem duration_read_back (s : State) (lb : LightboxEl) (n : Z) (pre rest : string) :
  lightbox s = Some lb ->
  0 <= getAnimationDuration s
  /\ (animationDuration lb = "" -> getAnimationDuration s = 300)
  /\ (0 <= n -> noDigits pre = true ->
      animationDuration lb = (pre ++ showZ n ++ "ms" ++ rest)%string ->
      (forall d, nearestDouble n = Some d -> getAnimationDuration s = d)
      /\ (n < 2 ^ 53 -> getAnimationDuration s = n)).
Proof.
  intro L. unfold getAnimationDuration. rewrite L. split; [|split].
  - destruct (matchMs _) as [v|] eqn:E; [|lia].
    apply parseInt_nonneg. exact (matchMs_nonneg _ v E).
  - intros ->. reflexivity.
  - intros N P ->.
    destruct (showZ_digits n N) as (d & NN & S & V).
    assert (M : matchMs (pre ++ showZ n ++ "ms" ++ rest)%string = Some n).
    { rewrite matchMs_skips by exact P. rewrite S, <- V.
      pose proof (digitsThenMs_start d rest NN) as E.
      destruct d; try contradiction; simpl matchMs; simpl in E; rewrite E;
        reflexivity. }
    destruct (String.eqb (pre ++ showZ n ++ "ms" ++ rest)%string "") eqn:E.
    + apply String.eqb_eq in E. rewrite E in M. discriminate.
    + rewrite M. split; [|apply parseInt_small].
      intros x D. unfold parseInt. rewrite D. reflexivity.
Qed.

Lemma duration_read_back_witness :
  getAnimationDuration
    (with_lightbox (Some (mkLightboxEl true false true None [] [] " 150ms ease" []))
                   (st demoPage))
  = 150
  /\ getAnimationDuration
       (with_lightbox
          (Some (mkLightboxEl true false true None [] [] "9007199254740993ms" []))
          (st demoPage))
     = 9007199254740992.
Proof.
  split.
  - apply (duration_read_back
             (with_lightbox
                (Some (mkLightboxEl true false true None [] [] " 150ms ease" []))
                (st demoPage))
             (mkLightboxEl true false true None [] [] " 150ms ease" []) 150 " " " ease");
      try reflexivity; lia.
  - exact (proj1 (proj2 (proj2 (duration_read_back
             (with_lightbox
                (Some (mkLightboxEl true false true None [] [] "9007199254740993ms" []))
                (st demoPage))
             (mkLightboxEl true false true None [] [] "9007199254740993ms" [])
             9007199254740993 "" "" eq_refl))
           ltac:(lia) eq_refl eq_refl) 9007199254740992 eq_refl).
Defined.

(** ** The other ways to close *)

Lemma iter_shift (f : State -> State) (n : nat) (s : State) :
  Nat.iter n f (f s) = f (Nat.iter n f s).
Proof. induction n as [|n IH]; simpl; [reflexivity | now rewrite IH]. Qed.

Lemma firstn_front {A : Type} (l r : list A) : firstn (length l) (l ++ r) = l.
Proof. induction l as [|y l IH]; [reflexivity | simpl; now rewrite IH]. Qed.

Lemma skipn_past {A : Type} (l : list A) (x : A) (r : list A) :
  skipn (S (length l)) (l ++ x :: r) = r.
Proof. induction l as [|y l IH]; [reflexivity | exact IH]. Qed.

Lemma iter_ext (f g : State -> State) (n : nat) (s : State) :
  (forall x, f x = g x) -> Nat.iter n f s = Nat.iter n g s.
Proof. intro E. induction n as [|n IH]; simpl; [reflexivity | now rewrite IH, E]. Qed.

Lemma iter_fixed (f : State -> State) (n : nat) (s : State) :
  (forall x, f x = x) -> Nat.iter n f s = s.
Proof. intro E. induction n as [|n IH]; simpl; [reflexivity | now rewrite E]. Qed.

Lemma fold_ignoring (A : Type) (f : State -> State) (l : list A) :
  forall s, fold_left (fun s _ => f s) l s = Nat.iter (length l) f s.
Proof.
  induction l as [|x l IH]; intro s; [reflexivity|].
  cbn [fold_left length]. rewrite IH. apply iter_shift.
Qed.

Lemma closeLightbox_again (s : State) (pending : list (Z * Timer)) :
  isOpen s = true ->
  closeLightbox (with_timers pending (closeLightbox s))
  = with_timers (pending ++ [(getAnimationDuration s, Hide)]) (closeLightbox s).
Proof.
  unfold isOpen. destruct s as [lbo im cap ov ae hl lr esc ph ci lf tm].
  destruct lbo as [lb|]; [|discriminate]. cbn [lightbox]. intro V.
  destruct lb as [v hd op fl fo tr du un]. cbn [cls_visible] in V. subst v.
  unfold closeLightbox. cbn -[getAnimationDuration focus].
  destruct lf as [photo|]; cbn -[getAnimationDuration focus].
  - unfold focus, takesFocus. cbn -[getAnimationDuration].
    destruct (existsb (Nat.eqb photo) un); cbn -[getAnimationDuration];
      destruct fl; reflexivity.
  - destruct fl; reflexivity.
Qed.

Lemma with_timers_same (s : State) : with_timers (timers s) s = s.
Proof. destruct s; reflexivity. Qed.

Lemma closeLightbox_iter (k : nat) (s : State) :
  isOpen s = true ->
  Nat.iter (S k) closeLightbox s
  = with_timers (timers s ++ repeat (getAnimationDuration s, Hide) (S k))
                (closeLightbox s).
Proof.
  intro O. destruct (close_frame_open s O) as (lb & _ & T & _).
  induction k as [|k IH].
  - cbn [Nat.iter repeat]. rewrite <- T. symmetry. apply with_timers_same.
  - change (Nat.iter (S (S k)) closeLightbox s)
      with (closeLightbox (Nat.iter (S k) closeLightbox s)).
    rewrite IH, closeLightbox_again by exact O.
    f_equal. rewrite <- app_assoc. f_equal.
    change (repeat (getAnimationDuration s, Hide) (S k) ++ [(getAnimationDuration s, Hide)])
      with ((getAnimationDuration s, Hide)
              :: (repeat (getAnimationDuration s, Hide) k ++ [(getAnimationDuration s, Hide)])).
    cbn [repeat]. f_equal. clear. induction k as [|k IHk]; [reflexivity|].
    cbn [repeat app]. now rewrite IHk.
Qed.

Lemma visibilitychange_hidden (s : State) : visibilitychange true s = closeLightbox s.
Proof.
  unfold visibilitychange. cbn [andb].
  destruct (isOpen s) eqn:O; [reflexivity|]. symmetry. now apply closeLightbox_closed.
Qed.

(** X19: The ways to close differ once [initLightbox] has run more than
    once.  The listeners on the backdrop and on [visibilitychange] are
    arrow functions, installed anew by every run; each copy calls
    [closeLightbox], and since the overlay counts as open until the hide
    callback runs, each call queues a hide callback of its own: with k+1
    installations a click on the backdrop (or the tab becoming hidden)
    leaves the state of one [close()] with k+1 hide callbacks pending.
    The close button calls [closeLightbox] once, whatever the number of
    runs.  The first hide callback to run closes the overlay and leaves
    the other k pending.  A click inside the overlay that is not on the
    backdrop, and the tab becoming visible, change nothing. *)
Theorem backdrop_closes_once_per_installation (w : Wired) (k : nat) :
  isOpen (wst w) = true ->
  length (copies w) = S k ->
  let s := wst w in
  let d := getAnimationDuration s in
  let closed := wst (wiredBackdropClick true w) in
  closed = with_timers (timers s ++ repeat (d, Hide) (S k)) (closeLightbox s)
  /\ wst (wiredVisibilitychange true w) = closed
  /\ wst (wiredCloseClick w) = closeLightbox s
  /\ timers (closeLightbox s) = timers s ++ [(d, Hide)]
  /\ isOpen (stateOf (fireTimer (length (timers s)) closed)) = false
  /\ timers (stateOf (fireTimer (length (timers s)) closed))
     = timers s ++ repeat (d, Hide) k
  /\ wst (wiredBackdropClick false w) = s
  /\ wst (wiredVisibilitychange false w) = s.
Proof.
  intros O K. cbv zeta.
  assert (B : wst (wiredBackdropClick true w)
              = with_timers (timers (wst w)
                             ++ repeat (getAnimationDuration (wst w), Hide) (S k))
                            (closeLightbox (wst w))).
  { unfold wiredBackdropClick. cbn [wst].
    rewrite (fold_ignoring Touch (backdropClick true)), K.
    change (backdropClick true) with closeLightbox.
    now apply closeLightbox_iter. }
  destruct (close_frame_open (wst w) O) as (lb & L & T & _).
  split; [exact B|].
  split.
  { rewrite B. unfold wiredVisibilitychange. cbn [wst].
    rewrite (fold_ignoring Touch (visibilitychange true)), K.
    replace (Nat.iter (S k) (visibilitychange true) (wst w))
      with (Nat.iter (S k) closeLightbox (wst w)).
    - now apply closeLightbox_iter.
    - apply iter_ext. intro x. symmetry. apply visibilitychange_hidden. }
  split.
  { unfold wiredCloseClick. destruct (copies w); [discriminate | reflexivity]. }
  split; [exact T|].
  rewrite B. unfold fireTimer. cbn [timers with_timers repeat].
  rewrite nth_error_middle. cbn [fst snd].
  rewrite firstn_front, skipn_past.
  unfold runTimer. cbn [lightbox with_timers]. rewrite L.
  cbn [stateOf]. unfold isOpen. cbn [lightbox with_lightbox cls_visible timers].
  split; [reflexivity|]. split; [reflexivity|].
  split.
  - unfold wiredBackdropClick. cbn [wst]. rewrite (fold_ignoring Touch (backdropClick false)).
    apply iter_fixed. reflexivity.
  - unfold wiredVisibilitychange. cbn [wst].
    rewrite (fold_ignoring Touch (visibilitychange false)).
    apply iter_fixed. reflexivity.
Qed.

Lemma backdrop_closes_once_per_installation_witness :
  timers (wst (wiredBackdropClick true (mkWired [touchInit; touchInit] openedState)))
  = [(10, FadeIn); (300, Hide); (300, Hide)]
  /\ timers (wst (wiredCloseClick (mkWired [touchInit; touchInit] openedState)))
     = [(10, FadeIn); (300, Hide)].
Proof.
  destruct (backdrop_closes_once_per_installation
              (mkWired [touchInit; touchInit] openedState) 1 eq_refl eq_refl)
    as (B & _ & C & _).
  split; [rewrite B | rewrite C]; reflexivity.
Defined.

(** ** Initialising the gallery page more than once *)

Lemma galleryInit_installs (closeButton reducedMotion : bool) (w : Wired)
    (lb : LightboxEl) (el : ImageEl) (c : string) :
  lightbox (wst w) = Some lb -> lightboxImage (wst w) = Some el ->
  lightboxCaption (wst w) = Some c ->
  let w' := galleryInit sanityConfig true reducedMotion w in
  copies w' = copies w ++ [touchInit]
  /\ (exists lb', lightbox (wst w') = Some lb')
  /\ lightboxImage (wst w') = Some el
  /\ lightboxCaption (wst w') = Some c.
Proof.
  intros L I C. unfold galleryInit, initLightbox, initLightboxEvents. simpl.
  rewrite L, I, C. simpl. destruct reducedMotion; simpl; rewrite ?L; eauto.
Qed.

Lemma galleryInit_iter (k : nat) (reducedMotion : bool) :
  forall (w : Wired) (lb : LightboxEl) (el : ImageEl) (c : string),
    lightbox (wst w) = Some lb -> lightboxImage (wst w) = Some el ->
    lightboxCaption (wst w) = Some c ->
    length (copies (Nat.iter k (galleryInit sanityConfig true reducedMotion) w))
    = (length (copies w) + k)%nat
    /\ exists lb',
         lightbox (wst (Nat.iter k (galleryInit sanityConfig true reducedMotion) w))
         = Some lb'
         /\ lightboxImage
              (wst (Nat.iter k (galleryInit sanityConfig true reducedMotion) w))
            = Some el
         /\ lightboxCaption
              (wst (Nat.iter k (galleryInit sanityConfig true reducedMotion) w))
            = Some c.
Proof.
  induction k as [|k IH]; intros w lb el c L I C.
  - simpl. split; [lia | eauto].
  - destruct (IH w lb el c L I C) as (N & lb' & L' & I' & C').
    change (Nat.iter (S k) (galleryInit sanityConfig true reducedMotion) w)
      with (galleryInit sanityConfig true reducedMotion
              (Nat.iter k (galleryInit sanityConfig true reducedMotion) w)).
    destruct (galleryInit_installs true reducedMotion _ lb' el c L' I' C')
      as (K & [lb'' L''] & I'' & C'').
    rewrite K, length_app, N. simpl. split; [lia | eauto].
Qed.

(** X20: [gallery.js] runs [initLightbox] on every [init], and [init] runs
    again on each retry (Ctrl+R on the page,
    [window.retryGalleryInitialization]).  With the configuration of the
    repository and the four elements present, k runs install k copies of
    the touch listeners; and with k copies installed one swipe navigates
    k times: over items that all have an image, with the cursor c in
    bounds, a leftward swipe leaves the cursor at (c + k) mod n and a
    rightward one at (c - k) mod n. *)
Theorem swipe_moves_once_per_installation (k : nat) (reducedMotion : bool)
    (s0 : State) (lb : LightboxEl) (el : ImageEl) (c : string)
    (w : Wired) (photos : list PhotoItem) (start : Z * Z) (moves : list (Z * Z)) :
  lightbox s0 = Some lb -> lightboxImage s0 = Some el -> lightboxCaption s0 = Some c ->
  length (copies w) = k ->
  lightboxPhotos (wst w) = Some photos ->
  forallb imaged photos = true ->
  0 <= getCurrentIndex (wst w) < len photos ->
  fst start <> 0 -> snd start <> 0 ->
  let deltaX := fst (last moves start) - fst start in
  let deltaY := snd (last moves start) - snd start in
  Z.abs deltaX > 50 -> Z.abs deltaX > Z.abs deltaY ->
  length (copies (Nat.iter k (galleryInit sanityConfig true reducedMotion)
                           (mkWired [] s0))) = k
  /\ (deltaX < 0 ->
      getCurrentIndex (wst (wiredGesture start moves w))
      = (getCurrentIndex (wst w) + Z.of_nat k) mod len photos)
  /\ (deltaX > 0 ->
      getCurrentIndex (wst (wiredGesture start moves w))
      = (getCurrentIndex (wst w) - Z.of_nat k) mod len photos).
Proof.
  intros L I C K P A B X Y deltaX deltaY D1 D2.
  split.
  { destruct (galleryInit_iter k reducedMotion (mkWired [] s0) lb el c L I C) as [N _].
    exact N. }
  assert (G : wiredGesture start moves w
              = wiredTouchend
                  (mkWired (map (fun _ => mkTouch (fst start) (snd start)
                                            (fst (last moves start))
                                            (snd (last moves start))) (copies w))
                           (wst w))).
  { unfold wiredGesture. rewrite wired_moves. unfold wiredTouchstart. simpl.
    rewrite copies_after_moves. reflexivity. }
  rewrite G. unfold wiredTouchend. simpl copies. simpl wst.
  split; intro S.
  - rewrite (wiredTouchend_swipe _ navigateNext)
      by (apply touchend_left; simpl; assumption).
    simpl wst. rewrite K.
    exact (proj2 (next_iterated k (wst w) photos P A B)).
  - rewrite (wiredTouchend_swipe _ navigatePrevious)
      by (apply touchend_right; simpl; assumption).
    simpl wst. rewrite K.
    exact (proj2 (previous_iterated k (wst w) photos P A B)).
Qed.

Lemma swipe_moves_once_per_installation_witness :
  length (copies (Nat.iter 2 (galleryInit sanityConfig true false)
                           (mkWired [] (st demoPage)))) = 2%nat
  /\ getCurrentIndex
       (wst (wiredGesture (200, 100) [(140, 110)]
               (mkWired [touchInit; touchInit] openedState))) = 3.
Proof.
  assert (B : 0 <= getCurrentIndex openedState < len fourPics)
    by (change (0 <= 1 < 4); lia).
  assert (X : fst (200, 100) <> 0) by (simpl; lia).
  assert (Y : snd (200, 100) <> 0) by (simpl; lia).
  assert (D1 : Z.abs (fst (last [(140, 110)] (200, 100)) - fst (200, 100)) > 50)
    by (simpl; lia).
  assert (D2 : Z.abs (fst (last [(140, 110)] (200, 100)) - fst (200, 100))
               > Z.abs (snd (last [(140, 110)] (200, 100)) - snd (200, 100)))
    by (simpl; lia).
  destruct (swipe_moves_once_per_installation 2 false (st demoPage)
              demoLightbox (mkImageEl "" "" "") ""
              (mkWired [touchInit; touchInit] openedState) fourPics
              (200, 100) [(140, 110)]
              eq_refl eq_refl eq_refl eq_refl eq_refl eq_refl B X Y D1 D2)
    as (N & Lft & _).
  split; [exact N|]. apply Lft. simpl. lia.
Defined.

Lemma photoClick_again (photoItem : PhotoItem) (gallery : list PhotoItem) (img : Img)
    (s : State) (lb : LightboxEl) (el : ImageEl) (c : string) :
  item_img photoItem = Some img ->
  lightbox s = Some lb -> lightboxImage s = Some el -> lightboxCaption s = Some c ->
  let s' := photoClick (Some photoItem) gallery s in
  timers s' = timers s ++ [(10, FadeIn)]
  /\ (exists lb', lightbox s' = Some lb')
  /\ (exists el', lightboxImage s' = Some el')
  /\ (exists c', lightboxCaption s' = Some c')
  /\ lightboxPhotos s' = Some (viewableItems gallery)
  /\ lightboxCurrentIndex s' = Some (indexOf photoItem (viewableItems gallery) 0).
Proof.
  intros G L I C. cbv zeta. rewrite (photoClick_open photoItem gallery s img G).
  destruct (openLightbox_timers (sourceOf img) (captionOf img)
              (indexOf photoItem (viewableItems gallery) 0) (viewableItems gallery)
              s lb el c L I C) as (T & L').
  destruct (openLightbox_shows (sourceOf img) (captionOf img)
              (indexOf photoItem (viewableItems gallery) 0) (viewableItems gallery)
              s lb el c L I C) as (I' & C' & _).
  destruct (openLightbox_stores (sourceOf img) (captionOf img)
              (indexOf photoItem (viewableItems gallery) 0) (viewableItems gallery)
              s lb el c L I C) as (P & X & _).
  repeat split; eauto.
Qed.

Lemma photoClick_iter (photoItem : PhotoItem) (gallery : list PhotoItem) (img : Img)
    (ts : list Touch) :
  item_img photoItem = Some img ->
  forall (s : State) (lb : LightboxEl) (el : ImageEl) (c : string),
    lightbox s = Some lb -> lightboxImage s = Some el -> lightboxCaption s = Some c ->
    let s' := fold_left (fun s _ => photoClick (Some photoItem) gallery s) ts s in
    timers s' = timers s ++ repeat (10, FadeIn) (length ts)
    /\ (ts <> [] ->
        lightboxPhotos s' = Some (viewableItems gallery)
        /\ lightboxCurrentIndex s' = Some (indexOf photoItem (viewableItems gallery) 0)).
Proof.
  intro G. induction ts as [|t ts IH]; intros s lb el c L I C.
  - simpl. rewrite app_nil_r. split; [reflexivity | congruence].
  - destruct (photoClick_again photoItem gallery img s lb el c G L I C)
      as (T & [lb' L'] & [el' I'] & [c' C'] & P & X).
    destruct (IH _ lb' el' c' L' I' C') as (T' & PX).
    cbv zeta in *. cbn [fold_left length repeat]. split.
    + rewrite T', T, <- app_assoc. reflexivity.
    + intros _. destruct ts as [|t' ts']; [cbn [fold_left]; auto|].
      apply PX. discriminate.
Qed.

(** X21: With k copies of the photo click listener installed, one click on a
    gallery item opens the lightbox k times over: k fade-in callbacks are
    queued, while the list and the cursor stored are those of a single
    opening.  With no copy installed (the lightbox was never
    initialised) a click leaves the state as it was. *)
Theorem click_opens_once_per_installation (photoItem : PhotoItem)
    (gallery : list PhotoItem) (img : Img) (w : Wired)
    (lb : LightboxEl) (el : ImageEl) (c : string) :
  item_img photoItem = Some img ->
  lightbox (wst w) = Some lb -> lightboxImage (wst w) = Some el ->
  lightboxCaption (wst w) = Some c ->
  let w' := wiredClick (Some photoItem) gallery w in
  timers (wst w') = timers (wst w) ++ repeat (10, FadeIn) (length (copies w))
  /\ (copies w <> [] ->
      lightboxPhotos (wst w') = Some (viewableItems gallery)
      /\ lightboxCurrentIndex (wst w')
         = Some (indexOf photoItem (viewableItems gallery) 0))
  /\ (copies w = [] -> wst w' = wst w).
Proof.
  intros G L I C. cbv zeta. unfold wiredClick. simpl wst.
  destruct (photoClick_iter photoItem gallery img (copies w) G (wst w) lb el c L I C)
    as (T & PX).
  split; [exact T|]. split; [exact PX|].
  intros ->. reflexivity.
Qed.

Lemma click_opens_once_per_installation_witness :
  timers (wst (wiredClick (Some (pic 3 "d.jpg")) mixedGallery
                 (mkWired [touchInit; touchInit] (st demoPage))))
  = [(10, FadeIn); (10, FadeIn)].
Proof.
  apply (click_opens_once_per_installation (pic 3 "d.jpg") mixedGallery
           (mkImg None "d.jpg" None "photo")
           (mkWired [touchInit; touchInit] (st demoPage))
           demoLightbox (mkImageEl "" "" "") "");
    reflexivity.
Defined.

(** ** Configuration check *)

(** X22: [validateConfiguration] returns normally exactly when project id,
    dataset and API version are all set and non-empty, which is exactly
    when the guard of [fetchSanity] lets a query through; otherwise the
    error names the first of the three that is missing, in that order.
    The configuration of the repository passes. *)
Theorem validateConfiguration_first_missing (cfg : SanityConfig) :
  (validateConfiguration cfg = None <->
   truthy (projectId cfg) = true /\ truthy (dataset cfg) = true
   /\ truthy (apiVersion cfg) = true)
  /\ (validateConfiguration cfg = None <-> fetchSanityRefuses cfg = false)
  /\ (truthy (projectId cfg) = false ->
      validateConfiguration cfg
      = Some "Missing required Sanity configuration: projectId. Please update scripts/config.js")
  /\ (truthy (projectId cfg) = true -> truthy (dataset cfg) = false ->
      validateConfiguration cfg
      = Some "Missing required Sanity configuration: dataset. Please update scripts/config.js")
  /\ (truthy (projectId cfg) = true -> truthy (dataset cfg) = true ->
      truthy (apiVersion cfg) = false ->
      validateConfiguration cfg
      = Some "Missing required Sanity configuration: apiVersion. Please update scripts/config.js")
  /\ validateConfiguration sanityConfig = None.
Proof.
  unfold validateConfiguration, fetchSanityRefuses.
  destruct (truthy (projectId cfg)), (truthy (dataset cfg)), (truthy (apiVersion cfg));
    simpl; repeat split; intros; try discriminate; try reflexivity;
    try tauto; intuition discriminate.
Qed.

Lemma validateConfiguration_first_missing_witness :
  validateConfiguration (mkSanityConfig (Some "ncpsxckb") (Some "") None None None)
  = Some "Missing required Sanity configuration: dataset. Please update scripts/config.js".
Proof.
  apply (validateConfiguration_first_missing
           (mkSanityConfig (Some "ncpsxckb") (Some "") None None None));
    reflexivity.
Defined.

(** ** The category filter in the URL *)

Lemma searchGet_delete_same (name : string) (q : SearchParams) :
  searchGet name (searchDelete name q) = None.
Proof.
  induction q as [|[k v] rest IH]; [reflexivity|].
  unfold searchDelete in *. simpl.
  destruct (String.eqb k name) eqn:E; simpl; [exact IH|].
  rewrite E. exact IH.
Qed.

Lemma searchGet_delete_other (name other : string) (q : SearchParams) :
  String.eqb other name = false ->
  searchGet other (searchDelete name q) = searchGet other q.
Proof.
  intro N. induction q as [|[k v] rest IH]; [reflexivity|].
  unfold searchDelete in *. simpl.
  destruct (String.eqb k name) eqn:E; simpl.
  - apply String.eqb_eq in E. subst k.
    rewrite String.eqb_sym, N. exact IH.
  - destruct (String.eqb k other); [reflexivity | exact IH].
Qed.

Lemma searchGet_set_same (name value : string) (q : SearchParams) :
  searchGet name (searchSet name value q) = Some value.
Proof.
  induction q as [|[k v] rest IH]; simpl.
  - now rewrite String.eqb_refl.
  - destruct (String.eqb k name) eqn:E; simpl.
    + now rewrite String.eqb_refl.
    + rewrite E. exact IH.
Qed.

Lemma searchGet_set_other (name other value : string) (q : SearchParams) :
  String.eqb other name = false ->
  searchGet other (searchSet name value q) = searchGet other q.
Proof.
  intro N. induction q as [|[k v] rest IH]; simpl.
  - rewrite String.eqb_sym, N. reflexivity.
  - destruct (String.eqb k name) eqn:E; simpl.
    + apply String.eqb_eq in E. subst k.
      rewrite (String.eqb_sym name other), N.
      apply searchGet_delete_other, N.
    + destruct (String.eqb k other); [reflexivity | exact IH].
Qed.

Lemma count_delete (name : string) (q : SearchParams) :
  length (filter (fun kv => String.eqb (fst kv) name) (searchDelete name q)) = 0%nat.
Proof.
  induction q as [|[k v] rest IH]; [reflexivity|].
  unfold searchDelete in *. simpl.
  destruct (String.eqb k name) eqn:E; simpl; [exact IH|].
  rewrite E. exact IH.
Qed.

Lemma count_set (name value : string) (q : SearchParams) :
  length (filter (fun kv => String.eqb (fst kv) name) (searchSet name value q)) = 1%nat.
Proof.
  induction q as [|[k v] rest IH]; simpl.
  - now rewrite String.eqb_refl.
  - destruct (String.eqb k name) eqn:E; simpl.
    + rewrite String.eqb_refl. simpl. f_equal. apply count_delete.
    + rewrite E. exact IH.
Qed.

(** X23: After [updateUrlParam('category', v)] the gallery reads back the
    category it was given, or ["all"] when v is missing, empty or
    ["all"] (the parameter is then absent from the URL); every other
    parameter reads as before; and the parameter occurs at most once. *)
Theorem category_round_trip (value : option string) (search : SearchParams) :
  let search' := updateUrlParam "category" value search in
  currentCategory search'
  = match value with
    | Some v => if String.eqb v "" then "all" else v
    | None => "all"
    end
  /\ (match value with
      | Some v => String.eqb v "" || String.eqb v "all"
      | None => true
      end = true -> getUrlParam "category" search' = None)
  /\ (forall other, String.eqb other "category" = false ->
                    getUrlParam other search' = getUrlParam other search)
  /\ (length (filter (fun kv => String.eqb (fst kv) "category") search') <= 1)%nat.
Proof.
  cbv zeta. unfold updateUrlParam, currentCategory, getUrlParam.
  destruct value as [v|].
  - destruct (String.eqb v "") eqn:E; simpl.
    + rewrite searchGet_delete_same.
      repeat split; auto using searchGet_delete_other.
      rewrite count_delete. lia.
    + destruct (String.eqb v "all") eqn:A; simpl.
      * rewrite searchGet_delete_same. apply String.eqb_eq in A.
        repeat split; auto using searchGet_delete_other.
        rewrite count_delete. lia.
      * rewrite searchGet_set_same, E.
        repeat split; auto using searchGet_set_other; try discriminate.
        rewrite count_set. lia.
  - rewrite searchGet_delete_same.
    repeat split; auto using searchGet_delete_other.
    rewrite count_delete. lia.
Qed.

(** ** Slugs *)

Lemma toLower_not_upper (c : Ascii.ascii) : isUpper (toLower c) = false.
Proof. destruct c as [[|] [|] [|] [|] [|] [|] [|] [|]]; reflexivity. Qed.

Lemma toLower_space (c : Ascii.ascii) : isSpaceChar (toLower c) = isSpaceChar c.
Proof. destruct c as [[|] [|] [|] [|] [|] [|] [|] [|]]; reflexivity. Qed.

Lemma slugChar_cases (c : Ascii.ascii) :
  isSlugChar c = (isWordChar c || isHyphen c) && negb (isUpper c).
Proof. destruct c as [[|] [|] [|] [|] [|] [|] [|] [|]]; reflexivity. Qed.

Lemma slugChar_fixed (c : Ascii.ascii) :
  isSlugChar c = true ->
  toLower c = c /\ isSpaceChar c = false /\ isWordChar c || isHyphen c = true.
Proof.
  destruct c as [[|] [|] [|] [|] [|] [|] [|] [|]]; intro H;
    try discriminate H; repeat split.
Qed.

Lemma collapseSpaces_no_upper (s : string) :
  forall inRun,
    allChars (fun c => negb (isUpper c)) s = true ->
    allChars (fun c => negb (isUpper c)) (collapseSpaces inRun s) = true.
Proof.
  induction s as [|c s IH]; intros inRun H; [reflexivity|].
  simpl in *. apply andb_prop in H. destruct H as [U H].
  destruct (isSpaceChar c).
  - destruct inRun; [exact (IH true H)|].
    change (allChars (fun c => negb (isUpper c)) (collapseSpaces true s) = true).
    exact (IH true H).
  - simpl. rewrite U. exact (IH false H).
Qed.

Lemma toLowerCase_no_upper (s : string) :
  allChars (fun c => negb (isUpper c)) (toLowerCase s) = true.
Proof.
  induction s as [|c s IH]; [reflexivity|].
  simpl. rewrite toLower_not_upper. exact IH.
Qed.

Lemma dropNonWord_slug (s : string) :
  allChars (fun c => negb (isUpper c)) s = true ->
  allChars isSlugChar (dropNonWord s) = true.
Proof.
  induction s as [|c s IH]; intro H; [reflexivity|].
  simpl in *. apply andb_prop in H. destruct H as [U H].
  destruct (isWordChar c || isHyphen c) eqn:W; [|auto].
  simpl. rewrite slugChar_cases, W, U. auto.
Qed.

Lemma slug_unchanged (s : string) :
  allChars isSlugChar s = true ->
  toLowerCase s = s /\ collapseSpaces false s = s /\ dropNonWord s = s.
Proof.
  induction s as [|c s IH]; intro H; [auto|].
  simpl in H. apply andb_prop in H. destruct H as [C H].
  destruct (slugChar_fixed c C) as (L & S & W).
  destruct (IH H) as (A & B & D).
  simpl. rewrite L, S, W, A, B, D. auto.
Qed.

Lemma dropNonWord_length (s : string) :
  (String.length (dropNonWord s) <= String.length s)%nat.
Proof.
  induction s as [|c s IH]; [simpl; lia|].
  simpl. destruct (isWordChar c || isHyphen c); simpl; lia.
Qed.

Lemma collapseSpaces_length (s : string) :
  forall inRun, (String.length (collapseSpaces inRun s) <= String.length s)%nat.
Proof.
  induction s as [|c s IH]; intro inRun; [simpl; lia|].
  pose proof (IH true) as T. pose proof (IH false) as F.
  simpl. destruct (isSpaceChar c); [destruct inRun|]; simpl; lia.
Qed.

Lemma toLowerCase_length (s : string) :
  String.length (toLowerCase s) = String.length s.
Proof. induction s as [|c s IH]; simpl; congruence. Qed.

(** X24: On an ASCII title, the slug holds only lower-case letters, digits,
    underscores and hyphens and is no longer than the title;
    slugifying a slug changes nothing (so [slugify] is idempotent); and a
    title that starts with whitespace gets a slug that starts with a
    hyphen: leading whitespace is turned into a hyphen, not trimmed. *)
Theorem slugify_url_friendly (input : string) :
  allChars isAsciiChar input = true ->
  allChars isSlugChar (slugify input) = true
  /\ (String.length (slugify input) <= String.length input)%nat
  /\ slugify (slugify input) = slugify input
  /\ (allChars isSlugChar input = true -> slugify input = input)
  /\ (forall c rest, input = String c rest -> isSpaceChar c = true ->
                     exists tail, slugify input = String hyphen tail).
Proof.
  intros _.
  assert (S : allChars isSlugChar (slugify input) = true).
  { apply dropNonWord_slug, collapseSpaces_no_upper, toLowerCase_no_upper. }
  assert (F : forall s, allChars isSlugChar s = true -> slugify s = s).
  { intros s H. destruct (slug_unchanged s H) as (A & B & D).
    unfold slugify. rewrite A, B. exact D. }
  split; [exact S|]. split; [|split; [|split]].
  - unfold slugify.
    pose proof (dropNonWord_length (collapseSpaces false (toLowerCase input))).
    pose proof (collapseSpaces_length (toLowerCase input) false).
    pose proof (toLowerCase_length input). lia.
  - apply F, S.
  - exact (F input).
  - intros c rest -> W. unfold slugify. simpl.
    rewrite toLower_space, W. simpl. eexists. reflexivity.
Qed.

Lemma slugify_url_friendly_witness :
  slugify (slugify "  Street Photography: Paris & Lyon")
  = slugify "  Street Photography: Paris & Lyon"
  /\ exists tail, slugify "  Street Photography: Paris & Lyon" = String hyphen tail.
Proof.
  destruct (slugify_url_friendly "  Street Photography: Paris & Lyon" eq_refl)
    as (_ & _ & I & _ & L).
  split; [exact I|].
  apply (L (Ascii.ascii_of_nat 32) " Street Photography: Paris & Lyon"); reflexivity.
Defined.

(** ** Image references *)

Lemma allChars_app (p : Ascii.ascii -> bool) (a b : string) :
  allChars p (a ++ b)%string = allChars p a && allChars p b.
Proof.
  induction a as [|c a IH]; [reflexivity|].
  simpl. rewrite IH. apply andb_assoc.
Qed.

Lemma takeWhile_app (p : Ascii.ascii -> bool) (a b : string) :
  allChars p a = true -> stopsAt p b -> takeWhile p (a ++ b)%string = (a, b).
Proof.
  intros A B. induction a as [|c a IH]; simpl in *.
  - destruct b as [|d b]; [reflexivity|]. simpl in *. now rewrite B.
  - apply andb_prop in A. destruct A as [C A]. rewrite C, (IH A). reflexivity.
Qed.

Lemma append_empty (s : string) : (s ++ "")%string = s.
Proof. induction s as [|c s IH]; simpl; congruence. Qed.

Lemma string_app_assoc (a b c : string) :
  ((a ++ b) ++ c)%string = (a ++ (b ++ c))%string.
Proof. induction a as [|x a IH]; simpl; congruence. Qed.

Lemma takeWhile_all (p : Ascii.ascii -> bool) (a : string) :
  allChars p a = true -> takeWhile p a = (a, EmptyString).
Proof.
  intro A. rewrite <- (append_empty a) at 1. apply takeWhile_app; [exact A | exact I].
Qed.

Lemma takeWhile_spec (p : Ascii.ascii -> bool) (s : string) :
  forall a b,
    takeWhile p s = (a, b) ->
    s = (a ++ b)%string /\ allChars p a = true /\ stopsAt p b.
Proof.
  induction s as [|c s IH]; intros a b; simpl.
  - intros [= <- <-]. simpl. auto.
  - destruct (p c) eqn:C.
    + destruct (takeWhile p s) as [run rest]. intros [= <- <-].
      destruct (IH run rest eq_refl) as (E & A & B).
      simpl. rewrite C, A, <- E. auto.
    + intros [= <- <-]. simpl. auto.
Qed.

Lemma splitAt_spec (n : nat) (s : string) :
  forall a b, splitAt n s = (a, b) -> s = (a ++ b)%string.
Proof.
  revert s. induction n as [|n IH]; intros s a b; simpl.
  - intros [= <- <-]. reflexivity.
  - destruct s as [|c s]; [intros [= <- <-]; reflexivity|].
    destruct (splitAt n s) as [x y] eqn:E. intros [= <- <-].
    simpl. f_equal. apply IH, E.
Qed.

Lemma hyphen_stops (p : Ascii.ascii -> bool) (s : string) :
  p hyphen = false -> stopsAt p (String hyphen s).
Proof. intro H. exact H. Qed.

(** The character [x]. *)
Lemma x_not_digit : isDigitChar (Ascii.ascii_of_nat 120) = false.
Proof. reflexivity. Qed.

(** X25: [parseImageRef] accepts a reference written as [image-], a
    non-empty run of hexadecimal digits, [-], two non-empty runs of
    decimal digits around an [x], [-] and a non-empty run of letters, and
    returns exactly those parts, with [Number] of the two digit runs as
    width and height: the number the digits spell when it is below 2^53,
    the nearest double (or [Infinity]) beyond.  Conversely whatever it
    accepts is its parts written out in that order after a six-character
    head that is [image-] up to case, so nothing precedes, follows or
    separates them. *)
Theorem parseImageRef_round_trip (cfg : SanityConfig) :
  (forall asset w h fmt,
      asset <> EmptyString -> w <> EmptyString -> h <> EmptyString ->
      fmt <> EmptyString ->
      allChars isHexChar asset = true -> allChars isDigitChar w = true ->
      allChars isDigitChar h = true -> allChars isLetterChar fmt = true ->
      exists data,
        parseImageRef cfg
          ("image-" ++ asset ++ String hyphen (w ++ String (Ascii.ascii_of_nat 120)
                                                 (h ++ String hyphen fmt)))%string
        = Some data
        /\ assetId data = asset
        /\ dimensions data = (w ++ String (Ascii.ascii_of_nat 120) h)%string
        /\ width data = toNumber w
        /\ height data = Some (toNumber h)
        /\ (digitsValue 0 w < 2 ^ 53 -> width data = Finite (digitsValue 0 w))
        /\ (digitsValue 0 h < 2 ^ 53 -> height data = Some (Finite (digitsValue 0 h)))
        /\ format data = fmt)
  /\ (forall imageRef data,
         parseImageRef cfg imageRef = Some data ->
         exists head,
           imageRef = (head ++ assetId data
                       ++ String hyphen (dimensions data ++ String hyphen (format data)))%string
           /\ toLowerCase head = "image-"
           /\ assetId data <> EmptyString
           /\ allChars isHexChar (assetId data) = true
           /\ format data <> EmptyString
           /\ allChars isLetterChar (format data) = true).
Proof.
  split.
  - intros asset w h fmt NA NW NH NF HA HW HH HF.
    unfold parseImageRef.
    change (splitAt 6 ("image-" ++ ?s)%string) with ("image-", s).
    cbv iota beta.
    change (negb (String.eqb (toLowerCase "image-") "image-")) with false.
    cbv iota.
    rewrite (takeWhile_app isHexChar asset _ HA) by (apply hyphen_stops; reflexivity).
    destruct asset as [|a0 asset']; [contradiction|].
    change (negb (isHyphen hyphen)) with false. cbv iota.
    rewrite (takeWhile_app isDigitChar w _ HW) by exact x_not_digit.
    destruct w as [|w0 w']; [contradiction|].
    change (negb (Nat.eqb (code (Ascii.ascii_of_nat 120)) 120
                  || Nat.eqb (code (Ascii.ascii_of_nat 120)) 88)) with false.
    cbv iota.
    rewrite (takeWhile_app isDigitChar h _ HH) by (apply hyphen_stops; reflexivity).
    destruct h as [|h0 h']; [contradiction|].
    change (negb (isHyphen hyphen)) with false. cbv iota.
    rewrite (takeWhile_all isLetterChar fmt HF).
    destruct fmt as [|f0 fmt']; [contradiction|].
    eexists. split; [reflexivity|].
    cbn [assetId dimensions width height format].
    change (Nat.eqb (code (Ascii.ascii_of_nat 120)) 120) with true. cbv iota.
    split; [reflexivity|]. split; [reflexivity|].
    split; [reflexivity|]. split; [reflexivity|].
    split; [|split; [|reflexivity]]; intro B; unfold toNumber;
      rewrite nearestDouble_small by exact B; reflexivity.
  - intros imageRef data. unfold parseImageRef.
    destruct (splitAt 6 imageRef) as [head s1] eqn:S0.
    destruct (String.eqb (toLowerCase head) "image-") eqn:E0; [|discriminate].
    simpl negb. cbv iota.
    destruct (takeWhile isHexChar s1) as [asset s2] eqn:T1.
    destruct asset as [|a0 asset']; [discriminate|].
    destruct s2 as [|dash1 s3]; [discriminate|].
    destruct (isHyphen dash1) eqn:D1; [|discriminate]. simpl negb. cbv iota.
    destruct (takeWhile isDigitChar s3) as [w s4] eqn:T2.
    destruct w as [|w0 w']; [discriminate|].
    destruct s4 as [|x s5]; [discriminate|].
    destruct (Nat.eqb (code x) 120 || Nat.eqb (code x) 88) eqn:X; [|discriminate].
    simpl negb. cbv iota.
    destruct (takeWhile isDigitChar s5) as [h s6] eqn:T3.
    destruct h as [|h0 h']; [discriminate|].
    destruct s6 as [|dash2 s7]; [discriminate|].
    destruct (isHyphen dash2) eqn:D2; [|discriminate]. simpl negb. cbv iota.
    destruct (takeWhile isLetterChar s7) as [fmt s8] eqn:T4.
    destruct fmt as [|f0 fmt']; [discriminate|].
    destruct s8; [|discriminate].
    intros [= <-]. simpl assetId. simpl dimensions. simpl format.
    apply splitAt_spec in S0.
    destruct (takeWhile_spec _ _ _ _ T1) as (E1 & A1 & _).
    destruct (takeWhile_spec _ _ _ _ T2) as (E2 & _ & _).
    destruct (takeWhile_spec _ _ _ _ T3) as (E3 & _ & _).
    destruct (takeWhile_spec _ _ _ _ T4) as (E4 & A4 & _).
    assert (H1 : dash1 = hyphen).
    { unfold isHyphen, code in D1. apply Nat.eqb_eq in D1.
      rewrite <- (Ascii.ascii_nat_embedding dash1), D1. reflexivity. }
    assert (H2 : dash2 = hyphen).
    { unfold isHyphen, code in D2. apply Nat.eqb_eq in D2.
      rewrite <- (Ascii.ascii_nat_embedding dash2), D2. reflexivity. }
    subst dash1 dash2.
    exists head. apply String.eqb_eq in E0.
    split; [|repeat split; try assumption; discriminate].
    rewrite S0, E1, E2, E3, E4, append_empty.
    simpl. rewrite (string_app_assoc w'). reflexivity.
Qed.

Lemma parseImageRef_round_trip_witness :
  exists data,
    parseImageRef sanityConfig "image-abc123-9007199254740993x800-jpg" = Some data
    /\ assetId data = "abc123"
    /\ dimensions data = "9007199254740993x800"
    /\ width data = Finite 9007199254740992
    /\ height data = Some (Finite 800)
    /\ format data = "jpg".
Proof.
  destruct (proj1 (parseImageRef_round_trip sanityConfig)
              "abc123" "9007199254740993" "800" "jpg"
              ltac:(discriminate) ltac:(discriminate) ltac:(discriminate)
              ltac:(discriminate) eq_refl eq_refl eq_refl eq_refl)
    as (data & P & A & D & W & _ & _ & H & F).
  exists data.
  split; [exact P|]. split; [exact A|]. split; [exact D|]. split; [exact W|].
  split; [|exact F].
  apply H. reflexivity.
Defined.

(** ** Image URLs *)

Lemma searchGet_fold (name : string) (entries : list (string * option string)) :
  forall (q : SearchParams) (acc : option string),
    searchGet name q = acc ->
    searchGet name
      (fold_left (fun q entry =>
                    match snd entry with
                    | Some value => searchSet (fst entry) value q
                    | None => q
                    end) entries q)
    = fold_left (fun acc entry =>
                   if String.eqb (fst entry) name
                   then match snd entry with Some value => Some value | None => acc end
                   else acc) entries acc.
Proof.
  induction entries as [|[k v] rest IH]; intros q acc H; [exact H|].
  simpl. apply IH. destruct v as [value|].
  - destruct (String.eqb k name) eqn:E.
    + apply String.eqb_eq in E. subst k. apply searchGet_set_same.
    + rewrite searchGet_set_other by (rewrite String.eqb_sym; exact E). exact H.
  - destruct (String.eqb k name); exact H.
Qed.

Lemma setAll_get (name : string) (entries : list (string * option string)) :
  searchGet name (setAll entries) = lastSet name entries.
Proof. unfold setAll, lastSet. now apply searchGet_fold. Qed.

(** Below 2^53 a number is printed as its plain decimal. *)
Lemma numberToString_small (n : Z) : 0 <= n < 2 ^ 53 -> numberToString n = showZ n.
Proof.
  intro B. unfold numberToString.
  rewrite Z.abs_eq by lia. rewrite nearestDouble_small by lia. cbv zeta.
  assert (T : 2 ^ 53 < 10 ^ 21) by reflexivity.
  replace (n <? 10 ^ 21) with true by (symmetry; apply Z.ltb_lt; lia).
  replace (n <? 0) with false by (symmetry; apply Z.ltb_ge; lia).
  reflexivity.
Qed.

(** From 10^21 on the number is written with an exponent, in as few
    digits as identify the double. *)
Example exponent_notation :
  map numberToString [999999999999999868928; 10 ^ 21; 2 ^ 70; - 10 ^ 21]
  = ["999999999999999868928"; "1e+21"; "1.1805916207174113e+21"; "-1e+21"]
  /\ roundedIfSet (Some (QArith_base.inject_Z (10 ^ 21))) = Some "1e+21".
Proof. split; vm_compute; reflexivity. Qed.

Lemma qualityParam_range (options : ImageOptions) : 1 <= qualityParam options <= 100.
Proof.
  unfold qualityParam, defaultQuality. destruct (opt_quality options); lia.
Qed.

(** X26: With the configuration of the repository, [buildImageUrl] returns
    [null] exactly for the references [parseImageRef] refuses (the empty
    one included).  Otherwise the URL is the CDN address of the asset and
    its dimensions, it always carries a quality [q] between 1 and 100
    (the given quality rounded and clamped, 85 when none is given) and a
    format [fm] (the given one, [webp] when none is given), and
    [getSanityImageCdnUrl] refuses the same references. *)
Theorem buildImageUrl_quality_and_format (imageRef : string) (options : ImageOptions) :
  (buildImageUrl sanityConfig (Some imageRef) options = None
   <-> parseImageRef sanityConfig imageRef = None)
  /\ (getSanityImageCdnUrl sanityConfig imageRef = None
      <-> parseImageRef sanityConfig imageRef = None)
  /\ forall base params,
       buildImageUrl sanityConfig (Some imageRef) options = Some (base, params) ->
       (exists data,
           parseImageRef sanityConfig imageRef = Some data
           /\ base = ("https://cdn.sanity.io/images/ncpsxckb/production/"
                      ++ assetId data ++ "-" ++ dimensions data)%string)
       /\ searchGet "q" params = Some (showZ (qualityParam options))
       /\ 1 <= qualityParam options <= 100
       /\ (opt_quality options = None -> searchGet "q" params = Some "85")
       /\ searchGet "fm" params
          = Some (match ifSet (opt_format options) with
                  | Some f => f
                  | None => "webp"
                  end).
Proof.
  assert (E : parseImageRef sanityConfig "" = None) by reflexivity.
  split; [|split].
  - unfold buildImageUrl. destruct (String.eqb imageRef "") eqn:R.
    + apply String.eqb_eq in R. subst. tauto.
    + simpl. destruct (parseImageRef sanityConfig imageRef);
        split; intro; congruence.
  - unfold getSanityImageCdnUrl, isValidImageRef.
    destruct (parseImageRef sanityConfig imageRef); simpl; split; intro; congruence.
  - intros base params. unfold buildImageUrl.
    destruct (String.eqb imageRef ""); [discriminate|]. simpl.
    destruct (parseImageRef sanityConfig imageRef) as [data|] eqn:P; [|discriminate].
    intros [= <- <-].
    assert (D : imageDataset data = "production").
    { revert P. unfold parseImageRef.
      set (ds := match dataset sanityConfig with
                 | Some d => if String.eqb d "" then "production" else d
                 | None => "production"
                 end).
      assert (DS : ds = "production") by reflexivity. clearbody ds.
      repeat match goal with
             | |- context [let '(_, _) := ?e in _] => destruct e
             | |- context [match ?e with _ => _ end] => destruct e; try discriminate
             end; intros [= <-]; exact DS. }
    split; [exists data; rewrite D; auto|].
    assert (NS : numberToString (qualityParam options) = showZ (qualityParam options)).
    { apply numberToString_small. pose proof (qualityParam_range options).
      assert (100 < 2 ^ 53) by reflexivity. lia. }
    rewrite !setAll_get. unfold lastSet, imageEntries. rewrite NS. simpl.
    split; [reflexivity|]. split; [apply qualityParam_range|].
    split; [|reflexivity].
    intro Q. unfold qualityParam. rewrite Q. reflexivity.
Qed.

Lemma buildImageUrl_quality_and_format_witness :
  searchGet "q"
    (setAll (imageEntries
               (mkImageOptions None None None None (Some (QArith_base.Qmake 2501 10))
                               None None None None None None)))
  = Some "100".
Proof.
  destruct (buildImageUrl_quality_and_format "image-abc123-1200x800-jpg"
              (mkImageOptions None None None None (Some (QArith_base.Qmake 2501 10))
                              None None None None None None))
    as (_ & _ & H).
  destruct (H _ _ eq_refl) as (_ & Q & _). exact Q.
Defined.



